(** * Luulek's Epic Steam Thing V2: a shallow embedding of [main.py]

    The development follows the program: Python's string methods used by
    the program ([Str]), a tree model of the directories it reads and
    writes ([FS]), the catalogue listing ([fetch_files]), the batch
    installer ([Worker.run]), the application's shared settings object
    ([DownloaderApp.start_processing], [open_settings]) and the overlay
    routine ([DownloaderApp.insert_online_fix]). *)

From Stdlib Require Import List Bool Arith Lia String Ascii.
From Stdlib Require Import Sorting.Sorted Sorting.Permutation.
Import ListNotations.

Local Open Scope string_scope.
Local Open Scope list_scope.

(* ================================================================== *)
(** * Python string methods *)
(* ================================================================== *)

Module Str.

(** [s.endswith(suffix)]: some tail of [s] is [suffix]. *)
Fixpoint endswith (s suffix : string) : bool :=
  String.eqb s suffix ||
  match s with
  | EmptyString => false
  | String _ s' => endswith s' suffix
  end.

(** [c.lower()] on one character of ASCII text: only the letters A-Z
    change. For other characters [str.lower()] follows Unicode, which is
    not modelled; what is stated about a lower-cased key is stated for
    ASCII names (see [is_ascii]). *)
Definition lower_ascii (c : ascii) : ascii :=
  let n := nat_of_ascii c in
  if ((65 <=? n)%nat && (n <=? 90)%nat)%bool then ascii_of_nat (n + 32) else c.

(** [s.lower()]. *)
Fixpoint lower (s : string) : string :=
  match s with
  | EmptyString => EmptyString
  | String c s' => String (lower_ascii c) (lower s')
  end.

(** A string of ASCII characters only; on such a string [lower] is
    [str.lower()]. *)
Definition is_ascii (s : string) : bool :=
  forallb (fun c => (nat_of_ascii c <? 128)%nat) (list_ascii_of_string s).

(** [sub in s]. *)
Fixpoint contains (sub s : string) : bool :=
  String.prefix sub s ||
  match s with
  | EmptyString => false
  | String _ s' => contains sub s'
  end.

(** [s.replace(old, new)] for a non-empty [old]: the occurrences of [old]
    are found from left to right and do not overlap; [skip] counts the
    characters of an occurrence that are still to be dropped. *)
Fixpoint replace_from (old new : string) (skip : nat) (s : string) : string :=
  match s with
  | EmptyString => EmptyString
  | String c s' =>
      match skip with
      | S k => replace_from old new k s'
      | O =>
          if String.prefix old s
          then (new ++ replace_from old new (String.length old - 1) s')%string
          else String c (replace_from old new 0 s')
      end
  end.

Definition replace (old new s : string) : string := replace_from old new 0 s.

(** The reading of "strip the extension from the end of the name": the
    name without its last [length suffix] characters when it ends in
    [suffix]. *)
Definition strip_suffix (suffix s : string) : option string :=
  if endswith s suffix
  then Some (String.substring 0 (String.length s - String.length suffix) s)
  else None.

(** [list.sort(key=...)] is a stable sort; insertion from the right keeps
    equal keys in their original order. *)
Section Sort.
Variable key : string -> string.

Fixpoint insert_by (x : string) (l : list string) : list string :=
  match l with
  | [] => [x]
  | y :: l' =>
      if String.leb (key x) (key y) then x :: y :: l' else y :: insert_by x l'
  end.

Fixpoint sort_by (l : list string) : list string :=
  match l with
  | [] => []
  | x :: l' => insert_by x (sort_by l')
  end.

(** [sorted(..., key=key)] leaves neighbours in this order. *)
Definition key_le (a b : string) : Prop := String.leb (key a) (key b) = true.

End Sort.

End Str.

(* ================================================================== *)
(** * The catalogue listing: [DownloaderApp.fetch_files] *)
(* ================================================================== *)

(** The archive extension the program tests for. *)
Definition ZIP_EXT : string := ".zip".

(** [self.files = [f['name'] for f in data if f['name'].endswith('.zip')]]
    then [self.files.sort(key=lambda x: x.lower())]; [data] is given by
    the [name] fields of the response, in the order of the response. *)
Definition fetch_files (data : list string) : list string :=
  Str.sort_by Str.lower (filter (fun name => Str.endswith name ZIP_EXT) data).

(** [name.replace('.zip','')]: the name of the scratch subdirectory an
    item is extracted into (line 150). *)
Definition extract_dir_name (name : string) : string :=
  Str.replace ZIP_EXT "" name.

(* ================================================================== *)
(** * Directory trees and the file operations the program calls *)
(* ================================================================== *)

Module FS.

(** A directory lists its entries in an order, the order [os.listdir]
    and [os.walk] report them in. A write leaves one of the possible
    listings (an entry that is new goes to the end); which order the
    file system gives a written directory is open, so what is stated
    about a directory that is listed after it was written either does
    not depend on the order or is stated for every order of its
    entries. *)
#[warnings="-register-all"]
Inductive node : Type :=
| File (data : string)
| Dir (entries : list (string * node)).

Definition listing : Type := list (string * node).

(** A path is the list of its components below the root of a tree. *)
Definition path : Type := list string.

(** The exceptions the modelled calls raise. *)
Inductive exn : Type :=
| FileNotFoundError
| FileExistsError
| NotADirectoryError
| IsADirectoryError
| BadZipFile
| ConnectionError.

Inductive result (A : Type) : Type :=
| Ok (a : A)
| Raise (e : exn).

Arguments Ok {A} a.
Arguments Raise {A} e.

Definition bind {A B : Type} (r : result A) (k : A -> result B) : result B :=
  match r with
  | Ok a => k a
  | Raise e => Raise e
  end.

Notation "x <- r ;; k" := (bind r (fun x => k))
  (at level 61, r at next level, right associativity).

(** [try: ... except Exception: pass] around one call that changes a tree. *)
Definition swallow {A : Type} (r : result A) (otherwise : A) : A :=
  match r with
  | Ok a => a
  | Raise _ => otherwise
  end.

Fixpoint assoc (k : string) (es : listing) : option node :=
  match es with
  | [] => None
  | (k', v) :: es' => if String.eqb k k' then Some v else assoc k es'
  end.

(** Replace the entry named [k] where it stands, or add it at the end. *)
Fixpoint set_entry (k : string) (v : node) (es : listing) : listing :=
  match es with
  | [] => [(k, v)]
  | (k', v') :: es' =>
      if String.eqb k k' then (k, v) :: es' else (k', v') :: set_entry k v es'
  end.

Fixpoint del_entry (k : string) (es : listing) : listing :=
  match es with
  | [] => []
  | (k', v') :: es' =>
      if String.eqb k k' then del_entry k es' else (k', v') :: del_entry k es'
  end.

Definition is_dir_node (n : node) : bool :=
  match n with Dir _ => true | File _ => false end.

Definition names (es : listing) : list string := map fst es.

Definition dirnames (es : listing) : list string :=
  names (filter (fun e => is_dir_node (snd e)) es).

Definition filenames (es : listing) : list string :=
  names (filter (fun e => negb (is_dir_node (snd e))) es).

Fixpoint lookup (n : node) (p : path) : option node :=
  match p with
  | [] => Some n
  | c :: p' =>
      match n with
      | File _ => None
      | Dir es =>
          match assoc c es with
          | Some child => lookup child p'
          | None => None
          end
      end
  end.

(** [os.path.exists], [os.path.isdir]. *)
Definition exists_ (n : node) (p : path) : bool :=
  match lookup n p with Some _ => true | None => false end.

Definition isdir (n : node) (p : path) : bool :=
  match lookup n p with Some (Dir _) => true | _ => false end.

(** The content of the regular file at [p], if there is one. *)
Definition file_at (n : node) (p : path) : option string :=
  match lookup n p with Some (File d) => Some d | _ => None end.

(** [os.listdir]. *)
Definition listdir (n : node) (p : path) : result (list string) :=
  match lookup n p with
  | Some (Dir es) => Ok (names es)
  | Some (File _) => Raise NotADirectoryError
  | None => Raise FileNotFoundError
  end.

(** One change at the last component of [p]: [f] sees what is there and
    answers what shall be there ([None]: nothing), or raises. The parent
    of [p] must be an existing directory. *)
Fixpoint modify (p : path) (f : option node -> result (option node))
    (n : node) : result node :=
  match n with
  | File _ => Raise NotADirectoryError
  | Dir es =>
      match p with
      | [] => Raise IsADirectoryError
      | c :: p' =>
          match p' with
          | [] =>
              r <- f (assoc c es) ;;
              Ok (Dir (match r with
                       | Some v => set_entry c v es
                       | None => del_entry c es
                       end))
          | _ :: _ =>
              match assoc c es with
              | None => Raise FileNotFoundError
              | Some child =>
                  child' <- modify p' f child ;;
                  Ok (Dir (set_entry c child' es))
              end
          end
      end
  end.

(** [open(p, 'wb')] followed by one [write]. *)
Definition write_file (p : path) (data : string) : node -> result node :=
  modify p (fun old =>
    match old with
    | Some (Dir _) => Raise IsADirectoryError
    | _ => Ok (Some (File data))
    end).

(** [open(p, 'rb').read()]. *)
Definition read_file (n : node) (p : path) : result string :=
  match lookup n p with
  | Some (File d) => Ok d
  | Some (Dir _) => Raise IsADirectoryError
  | None => Raise FileNotFoundError
  end.

(** [os.remove]. *)
Definition remove (p : path) : node -> result node :=
  modify p (fun old =>
    match old with
    | Some (File _) => Ok None
    | Some (Dir _) => Raise IsADirectoryError
    | None => Raise FileNotFoundError
    end).

(** [shutil.rmtree]. *)
Definition rmtree (p : path) : node -> result node :=
  modify p (fun old =>
    match old with
    | Some (Dir _) => Ok None
    | Some (File _) => Raise NotADirectoryError
    | None => Raise FileNotFoundError
    end).

(** [os.mkdir]. *)
Definition mkdir (p : path) : node -> result node :=
  modify p (fun old =>
    match old with
    | None => Ok (Some (Dir []))
    | Some _ => Raise FileExistsError
    end).

(** [os.makedirs(p, exist_ok=True)]: every missing directory on the way
    is created; a regular file on the way or at the end raises. *)
Fixpoint makedirs (p : path) (n : node) : result node :=
  match p with
  | [] =>
      match n with
      | Dir _ => Ok n
      | File _ => Raise FileExistsError
      end
  | c :: p' =>
      match n with
      | File _ => Raise NotADirectoryError
      | Dir es =>
          child' <- makedirs p' (match assoc c es with
                                 | Some child => child
                                 | None => Dir []
                                 end) ;;
          Ok (Dir (set_entry c child' es))
      end
  end.

(** The last component of a path ([os.path.basename]) and the path
    without it ([os.path.dirname]). *)
Definition basename (p : path) : string := last p "".
Definition dirname (p : path) : path := removelast p.

(** [shutil.copy2(src, dst)] from the tree [from] into the tree [n]: when
    [dst] is an existing directory the file goes into it under the base
    name of [src]. File metadata is not part of the model. *)
Definition copy2 (from : node) (src dst : path) (n : node) : result node :=
  data <- read_file from src ;;
  write_file (if isdir n dst then dst ++ [basename src] else dst) data n.

(** [shutil.copytree(src, dst)] of the subtree [sub]: [dst] must not
    exist. *)
Definition copytree (sub : node) (dst : path) : node -> result node :=
  modify dst (fun old =>
    match old with
    | None => Ok (Some sub)
    | Some _ => Raise FileExistsError
    end).

(** [os.walk(top)], top-down: one triple (directory, names of its
    subdirectories, names of its other entries) per directory, the
    subdirectories in listing order. *)
Fixpoint walk_node (root : path) (n : node) {struct n}
  : list (path * list string * list string) :=
  match n with
  | File _ => []
  | Dir es =>
      (root, dirnames es, filenames es) ::
      flat_map (fun e => walk_node (root ++ [fst e]) (snd e)) es
  end.

(** [os.walk] of a path that is no directory yields nothing. *)
Definition walk (n : node) (top : path)
  : list (path * list string * list string) :=
  match lookup n top with
  | Some sub => walk_node top sub
  | None => []
  end.

(** The members of an archive, in the order of the archive; a member's
    name is given by its components. *)
Inductive member : Type :=
| MFile (name : path) (data : string)
| MDir (name : path).

(** [ZipFile._extract_member]: the directories above the member are made
    when absent; a directory member is made when absent, a file member is
    written. *)
Definition extract_member (base : path) (m : member) (n : node) : result node :=
  let target := base ++ match m with MFile p _ => p | MDir p => p end in
  let upperdirs := dirname target in
  n1 <- (if exists_ n upperdirs then Ok n else makedirs upperdirs n) ;;
  match m with
  | MDir _ => if isdir n1 target then Ok n1 else mkdir target n1
  | MFile _ data => write_file target data n1
  end.

(** [ZipFile.extractall(base)]. *)
Fixpoint extractall (base : path) (ms : list member) (n : node) : result node :=
  match ms with
  | [] => Ok n
  | m :: ms' => n1 <- extract_member base m n ;; extractall base ms' n1
  end.

(** No directory of the tree lists a name twice. *)
Fixpoint wf (n : node) : Prop :=
  match n with
  | File _ => True
  | Dir es =>
      NoDup (names es) /\
      (fix all (l : listing) : Prop :=
         match l with
         | [] => True
         | e :: l' => wf (snd e) /\ all l'
         end) es
  end.

(** ** Notions to state what a call leaves alone *)

(** Two paths part ways: neither is a prefix of the other. *)
Fixpoint diverge (p q : path) : Prop :=
  match p, q with
  | c :: p', k :: q' => c <> k \/ (c = k /\ diverge p' q')
  | _, _ => False
  end.

(** [q] lies at or below [p]. *)
Definition prefix_of (p q : path) : Prop := exists r, q = p ++ r.

(** A change that raises on directories keeps every directory. *)
Definition keeps_dirs (f : option node -> result (option node)) : Prop :=
  forall es r, f (Some (Dir es)) <> Ok r.

(** A change that neither meets nor leaves a directory at its path
    changes no directory at all. *)
Definition is_dir_opt (o : option node) : bool :=
  match o with Some (Dir _) => true | _ => false end.

Definition no_dirs (f : option node -> result (option node)) : Prop :=
  forall o r, f o = Ok r -> is_dir_opt o = false /\ is_dir_opt r = false.

End FS.

(* ================================================================== *)
(** * The batch installer: [Worker] *)
(* ================================================================== *)

Module Worker.
Import FS.

(** [RAW_URL]. *)
Definition RAW_URL : string :=
  "https://raw.githubusercontent.com/ayka-667/SteamTools-GameList/main/".

(** The settings object: the dictionary [load_state] builds, with every
    key present. *)
Record settings : Type := {
  steam_path : string;
  dark_theme : bool;
  delete_after : bool;
  win_notify : bool;
  restart_steam : bool
}.

(** What [requests.get] returns. *)
Record response : Type := {
  status_code : nat;
  content : string
}.

(** The state the installer acts on. [cache] is the directory [CACHE_DIR];
    [disk] holds, under each installation path the user can name, the
    directory found there; [requests] is the list of the URLs requested
    so far, oldest first. The two trees are apart: this is the program
    run with [CACHE_DIR] (the directory "DownloadCache" of the working
    directory) and the installation not lying inside one another. An
    item name is one component of a path, as the listing of the
    catalogue gives it (see [plain]). *)
Record world : Type := {
  cache : node;
  disk : node;
  requests : list string
}.

(** The signal a run ends with: [finished] ("Done! ...", the elapsed
    time is not modelled), or [error] with [ERR_INVALID_STEAM],
    [ERR_FAILED_DOWNLOAD] or "Error: " and the exception. *)
Inductive outcome : Type :=
| Success
| InvalidInstallationRoot
| DownloadFailed
| ProcessingError (e : exn).

(** One pass through the body of the loop: on to the next item, or out
    of [run] with a signal; either way with the state reached. *)
Inductive step_result : Type :=
| Next (w : world)
| Stop (o : outcome) (w : world).

(** [dest_path], [extract_dir] below [CACHE_DIR]; [depotcache] and
    [stplugin] below the installation. *)
Definition dest_path (name : string) : path := [name].
Definition extract_dir (name : string) : path := [extract_dir_name name].
Definition depotcache (steam_path : string) : path :=
  [steam_path; "config"; "depotcache"].

(** A name that is one entry of a directory: not empty, not one of the
    two names that stand for a directory itself and for its parent, and
    without a separator. *)
Definition entry_name (s : string) : bool :=
  negb (String.eqb s "") && negb (String.eqb s ".")
  && negb (String.eqb s "..")
  && negb (Str.contains "/" s) && negb (Str.contains "\" s)
  && negb (Str.contains ":" s).

(** The items for which [dest_path] and [extract_dir] are one entry of
    [CACHE_DIR] each, as they are taken here. For another item
    [os.path.join] gives another place (".zip" is extracted into
    [CACHE_DIR] itself, "...zip" into its parent); what is stated about
    the places in the cache is stated for plain items. *)
Definition plain (name : string) : bool :=
  entry_name name && entry_name (extract_dir_name name).
Definition stplugin (steam_path : string) : path :=
  [steam_path; "config"; "stplug-in"].

(** Lines 169-178: the two tests on one file name of the walk, each copy
    inside its own [try ... except Exception: pass]. *)
Definition copy_classified (steam_path : string) (c : node)
    (root : path) (f : string) (d : node) : node :=
  let d1 :=
    if Str.endswith f ".manifest"
    then swallow (copy2 c (root ++ [f]) (depotcache steam_path ++ [f]) d) d
    else d in
  if Str.endswith f ".lua"
  then swallow (copy2 c (root ++ [f]) (stplugin steam_path ++ [f]) d1) d1
  else d1.

(** Lines 167-178: [for root, _, files in os.walk(extract_dir): for f in
    files: ...]. The walk reads [CACHE_DIR], the copies write below the
    installation, so the walk is that of the cache as it stands. *)
Definition distribute (steam_path : string) (c : node) (top : path)
    (d : node) : node :=
  fold_left
    (fun d1 triple =>
       fold_left (fun d2 f => copy_classified steam_path c (fst (fst triple)) f d2)
                 (snd triple) d1)
    (walk c top) d.

(** *** The loop, file by file *)

(** The files of the walk in the order the two loops visit them, each
    with the directory it is reported for. *)
Definition walk_files (c : node) (top : path) : list (path * string) :=
  flat_map (fun triple => map (pair (fst (fst triple))) (snd triple))
           (walk c top).

(** The loop body run over a list of files. *)
Definition distribute_list (sp : string) (c : node)
    (files : list (path * string)) (d : node) : node :=
  fold_left (fun d1 rf => copy_classified sp c (fst rf) (snd rf) d1) files d.

(** The two kinds of file the loop copies, with the suffix tested and
    the directory copied into. *)
Inductive kind : Type := Manifest | Plugin.

Definition suffix_of (k : kind) : string :=
  match k with Manifest => ".manifest" | Plugin => ".lua" end.

Definition dir_of (sp : string) (k : kind) : path :=
  match k with Manifest => depotcache sp | Plugin => stplugin sp end.

(** One guarded copy of the loop body. *)
Definition copy_into (dir : path) (c : node) (root : path) (f : string)
    (d : node) : node :=
  swallow (copy2 c (root ++ [f]) (dir ++ [f]) d) d.

Section Run.

(** [requests.get(url)], given the requests made before. *)
Variable http_get : list string -> string -> result response.

(** The members [zipfile.ZipFile] finds in the bytes of an archive;
    [None] when they are no archive. *)
Variable unzip : string -> option (list member).

(** Lines 152-153: open the saved archive and extract it; members
    extracted before a failing one stay. *)
Fixpoint extract_members (base : path) (ms : list member) (c : node)
  : node * option exn :=
  match ms with
  | [] => (c, None)
  | m :: ms' =>
      match extract_member base m c with
      | Ok c1 => extract_members base ms' c1
      | Raise e => (c, Some e)
      end
  end.

Definition extract_archive (name : string) (c : node) : node * option exn :=
  match read_file c (dest_path name) with
  | Raise e => (c, Some e)
  | Ok bytes =>
      match unzip bytes with
      | None => (c, Some BadZipFile)
      | Some ms => extract_members (extract_dir name) ms c
      end
  end.

(** The URL requested for an item. *)
Definition url_of (name : string) : string := (RAW_URL ++ name)%string.

(** Lines 138-159 for one item: request, save, extract, delete the
    archive. *)
Definition fetch_and_extract (name : string) (w : world) : step_result :=
  let url := url_of name in
  let log := requests w ++ [url] in
  match http_get (requests w) url with
  | Raise e => Stop (ProcessingError e) (Build_world (cache w) (disk w) log)
  | Ok resp =>
      if negb (status_code resp =? 200)%nat
      then Stop DownloadFailed (Build_world (cache w) (disk w) log)
      else
        match write_file (dest_path name) (content resp) (cache w) with
        | Raise e => Stop (ProcessingError e) (Build_world (cache w) (disk w) log)
        | Ok c1 =>
        match makedirs (extract_dir name) c1 with
        | Raise e => Stop (ProcessingError e) (Build_world c1 (disk w) log)
        | Ok c2 =>
        match extract_archive name c2 with
        | (c3, Some e) => Stop (ProcessingError e) (Build_world c3 (disk w) log)
        | (c3, None) =>
            Next (Build_world (swallow (remove (dest_path name) c3) c3)
                              (disk w) log)
        end end end
  end.

(** Lines 161-178: make the two destination directories, then
    distribute. *)
Definition install_files (steam_path name : string) (w : world)
  : step_result :=
  match makedirs (depotcache steam_path) (disk w) with
  | Raise e => Stop (ProcessingError e) w
  | Ok d1 =>
  match makedirs (stplugin steam_path) d1 with
  | Raise e => Stop (ProcessingError e) (Build_world (cache w) d1 (requests w))
  | Ok d2 =>
      Next (Build_world (cache w)
              (distribute steam_path (cache w) (extract_dir name) d2)
              (requests w))
  end end.

(** Lines 138-178. *)
Definition fetch_and_distribute (steam_path name : string) (w : world)
  : step_result :=
  match fetch_and_extract name w with
  | Next w1 => install_files steam_path name w1
  | Stop o w1 => Stop o w1
  end.

(** Lines 181-185: [self.settings.get('delete_after', False)] is looked
    up in the settings object when the line runs; [current] is the
    object's value then. *)
Definition cleanup (current : settings) (name : string) (w : world) : world :=
  if delete_after current
  then Build_world (swallow (rmtree (extract_dir name) (cache w)) (cache w))
                   (disk w) (requests w)
  else w.

(** One pass through the loop body with the settings object unchanged
    during the pass. *)
Definition process_item (steam_path : string) (current : settings)
    (name : string) (w : world) : step_result :=
  match fetch_and_distribute steam_path name w with
  | Next w1 => Next (cleanup current name w1)
  | Stop o w1 => Stop o w1
  end.

(** Lines 137-188: the loop, then [finished]. *)
Fixpoint run_items (steam_path : string) (current : settings)
    (items : list string) (w : world) : outcome * world :=
  match items with
  | [] => (Success, w)
  | name :: rest =>
      match process_item steam_path current name w with
      | Next w1 => run_items steam_path current rest w1
      | Stop o w1 => (o, w1)
      end
  end.

(** [Worker.run], for a settings object nobody changes during the run. *)
Definition run (current : settings) (items : list string) (w : world)
  : outcome * world :=
  let steam_path := steam_path current in
  if (steam_path =? "")%string
     || negb (exists_ (disk w) [steam_path; "steam.exe"])
  then (InvalidInstallationRoot, w)
  else run_items steam_path current items w.

End Run.

End Worker.

(* ================================================================== *)
(** * The application's settings object and a running batch *)
(* ================================================================== *)

Module App.
Import FS Worker.

(** Python dictionaries are objects: a variable or attribute holds the
    address of one, and an assignment to a key changes the object all
    its holders see. *)
Definition ref : Type := nat.
Definition heap : Type := ref -> settings.

Definition deref (h : heap) (r : ref) : settings := h r.

Definition assign (h : heap) (r : ref) (v : settings) : heap :=
  fun r' => if Nat.eqb r' r then v else h r'.

(** [Worker.__init__]: [self.items = items], [self.settings =
    settings_values]. *)
Record worker : Type := {
  items : list string;
  settings_of : ref
}.

(** The attributes of [DownloaderApp] the batch depends on. *)
Record app : Type := {
  settings_values : ref;
  order : list string
}.

(** [start_processing]: [worker = Worker(items, self.settings_values)]. *)
Definition start_processing (a : app) (batch : list string) : worker :=
  {| items := batch; settings_of := settings_values a |}.

(** [start_order]: [items = self.order.copy()], [self.order.clear()],
    then [start_processing(items)]; nothing when the order is empty. *)
Definition start_order (a : app) : option (worker * app) :=
  match order a with
  | [] => None
  | _ :: _ =>
      Some (start_processing a (order a),
            {| settings_values := settings_values a; order := [] |})
  end.

(** [open_settings], the dialog accepted: the five keys of
    [self.settings_values] are assigned the dialog's values. *)
Definition open_settings (a : app) (dialog : settings) (h : heap) : heap :=
  assign h (settings_values a) dialog.

(** Where the thread of [Worker.run] stands: not yet begun; at the head
    of the loop (line 137) with its local [steam_path] and the items
    left; before line 181 for the item just distributed; after its
    signal. *)
Inductive thread : Type :=
| Created
| AtLoop (steam_path : string) (rest : list string)
| AtCleanup (steam_path name : string) (rest : list string)
| Emitted (o : outcome).

(** What the interface thread and the worker thread do, in the order
    they do it. *)
Inductive event : Type :=
| Tick
| SaveSettings (dialog : settings).

Record system : Type := {
  sys_heap : heap;
  sys_thread : thread;
  sys_world : world
}.

Section Run.
Variable http_get : list string -> string -> result response.
Variable unzip : string -> option (list member).

(** The worker thread runs up to its next look into the settings
    object, or to its end. *)
Definition tick (wk : worker) (h : heap) (t : thread) (w : world)
  : thread * world :=
  match t with
  | Created =>
      let sp := steam_path (deref h (settings_of wk)) in
      if (sp =? "")%string || negb (exists_ (disk w) [sp; "steam.exe"])
      then (Emitted InvalidInstallationRoot, w)
      else (AtLoop sp (items wk), w)
  | AtLoop sp [] => (Emitted Success, w)
  | AtLoop sp (name :: rest) =>
      match fetch_and_distribute http_get unzip sp name w with
      | Next w1 => (AtCleanup sp name rest, w1)
      | Stop o w1 => (Emitted o, w1)
      end
  | AtCleanup sp name rest =>
      (AtLoop sp rest, cleanup (deref h (settings_of wk)) name w)
  | Emitted o => (Emitted o, w)
  end.

Definition step (a : app) (wk : worker) (s : system) (e : event) : system :=
  match e with
  | Tick =>
      let tw := tick wk (sys_heap s) (sys_thread s) (sys_world s) in
      {| sys_heap := sys_heap s; sys_thread := fst tw; sys_world := snd tw |}
  | SaveSettings dialog =>
      {| sys_heap := open_settings a dialog (sys_heap s);
         sys_thread := sys_thread s;
         sys_world := sys_world s |}
  end.

Definition exec (a : app) (wk : worker) (events : list event) (s : system)
  : system :=
  fold_left (step a wk) events s.

(** A batch is submitted: the worker is made and its thread started. *)
Definition submit (a : app) (batch : list string) (h : heap) (w : world)
  : worker * system :=
  (start_processing a batch,
   {| sys_heap := h; sys_thread := Created; sys_world := w |}).

End Run.

(** Two courses of events that differ at most in what the dialogs say
    about anything but [delete_after]. *)
Inductive same_flag : event -> event -> Prop :=
| same_flag_tick : same_flag Tick Tick
| same_flag_save d1 d2 :
    delete_after d1 = delete_after d2 ->
    same_flag (SaveSettings d1) (SaveSettings d2).

End App.

(* ================================================================== *)
(** * The overlay routine: [DownloaderApp.insert_online_fix] *)
(* ================================================================== *)

Module Overlay.
Import FS.

(** [ONLINE_FIX_DIR] below [FILES_DIR], the reserved subdirectory and
    the marker file. *)
Definition ONLINE_FIX_DIR : path := ["OnlineFix"].
Definition SRC_DATA : path := ONLINE_FIX_DIR ++ ["Data"].
Definition MARKER : string := "UnityCrashHandler64.exe".

(** How the routine ends: the two [ERR_NOT_UNITY] boxes, the two boxes
    for a missing overlay, "Done! (Online-Fix applied)", or
    "Online-Fix failed: " with the exception. *)
Inductive outcome : Type :=
| UnsupportedTarget
| MissingOverlayAssets
| Applied
| OverlayApplyFailed (e : exn).

(** The test of lines 398-400 on one name of the listing. *)
Definition is_data_dir (t : node) (name : string) : bool :=
  Str.contains "data" (Str.lower name) && isdir t [name].

(** Lines 397-402: the first name of the listing that contains "data"
    when lower-cased and names a directory. The tree [t] is the
    directory the user chose; paths into it are relative to it. *)
Fixpoint first_data_dir (t : node) (listing : list string) : option string :=
  match listing with
  | [] => None
  | name :: rest =>
      if is_data_dir t name
      then Some name
      else first_data_dir t rest
  end.

Definition find_data_folder (t : node) : option string :=
  match listdir t [] with
  | Ok listing => first_data_dir t listing
  | Raise _ => None
  end.

(** Lines 416-425: one top-level entry of the overlay. [files] is the
    directory [FILES_DIR], which the routine only reads. *)
Definition copy_top (files : node) (item : string) (t : node) : result node :=
  let s := ONLINE_FIX_DIR ++ [item] in
  if String.eqb (Str.lower item) "data" then Ok t
  else if isdir files s then
    t1 <- (if exists_ t [item] then rmtree [item] t else Ok t) ;;
    match lookup files s with
    | Some sub => copytree sub [item] t1
    | None => Raise FileNotFoundError
    end
  else copy2 files s [item] t.

(** Line 415: the loop; the first exception ends it, what was copied
    before stays. *)
Fixpoint copy_tops (files : node) (items : list string) (t : node)
  : node * option exn :=
  match items with
  | [] => (t, None)
  | item :: rest =>
      match copy_top files item t with
      | Ok t1 => copy_tops files rest t1
      | Raise e => (t, Some e)
      end
  end.

(** Lines 427-436: the body of the second loop for one triple of the
    walk: [rel] is the path of [root] below [src_data], the directory
    is made, the files are copied, each copy in its own [try]. *)
Definition merge_dir (files : node) (src_data data_folder : path)
    (triple : path * list string * list string) (t : node) : result node :=
  let root := fst (fst triple) in
  let rel := skipn (List.length src_data) root in
  let dest_root := data_folder ++ rel in
  t1 <- makedirs dest_root t ;;
  Ok (fold_left
        (fun t2 f => swallow (copy2 files (root ++ [f]) (dest_root ++ [f]) t2) t2)
        (snd triple) t1).

(** Line 426: the second loop. *)
Fixpoint merge_walk (files : node) (src_data data_folder : path)
    (triples : list (path * list string * list string)) (t : node)
  : node * option exn :=
  match triples with
  | [] => (t, None)
  | triple :: rest =>
      match merge_dir files src_data data_folder triple t with
      | Ok t1 => merge_walk files src_data data_folder rest t1
      | Raise e => (t, Some e)
      end
  end.

(** [insert_online_fix] for a directory chosen in the dialog (with the
    dialog cancelled the routine returns at once). *)
Definition insert_online_fix (files t : node) : outcome * node :=
  if negb (exists_ t [MARKER]) then (UnsupportedTarget, t)
  else
    match find_data_folder t with
    | None => (UnsupportedTarget, t)
    | Some name =>
        if negb (exists_ files ONLINE_FIX_DIR) then (MissingOverlayAssets, t)
        else if negb (exists_ files SRC_DATA) || negb (isdir files SRC_DATA)
        then (MissingOverlayAssets, t)
        else
          match listdir files ONLINE_FIX_DIR with
          | Raise e => (OverlayApplyFailed e, t)
          | Ok items =>
              match copy_tops files items t with
              | (t1, Some e) => (OverlayApplyFailed e, t1)
              | (t1, None) =>
                  match merge_walk files SRC_DATA [name]
                                   (walk files SRC_DATA) t1 with
                  | (t2, Some e) => (OverlayApplyFailed e, t2)
                  | (t2, None) => (Applied, t2)
                  end
              end
          end
    end.

(** ** The first loop, entry by entry *)

(** The entries line 417 passes over, and where an entry of the overlay
    is read from. *)
Definition skipped (item : string) : bool := String.eqb (Str.lower item) "data".
Definition source (item : string) : path := ONLINE_FIX_DIR ++ [item].

Section Apply.
Variable files : node.

(** What the first loop has done for an entry of the overlay when it
    went through, in terms of the directory [ta] it left: nothing for a
    passed-over entry; the subtree is at the entry's name for a
    directory; for a file, the copy was made into some directory [x]
    that had, at the entry's name, what the chosen directory [t] had
    there, and [ta] has there what the copy left. *)
Inductive entry_done (t ta : node) (item : string) : Prop :=
| done_skipped :
    skipped item = true ->
    lookup ta [item] = lookup t [item] ->
    entry_done t ta item
| done_dir sub :
    skipped item = false ->
    lookup files (source item) = Some (Dir sub) ->
    lookup ta [item] = Some (Dir sub) ->
    entry_done t ta item
| done_file x x' :
    skipped item = false ->
    isdir files (source item) = false ->
    copy2 files (source item) [item] x = Ok x' ->
    lookup x [item] = lookup t [item] ->
    lookup ta [item] = lookup x' [item] ->
    entry_done t ta item.

End Apply.

(** ** The second loop, copy by copy *)

Section Merge.
Variable files : node.
Variables sd df : path.

(** The destination of a directory of the walk, and one guarded copy
    of the loop body. *)
Definition dest (root : path) : path := df ++ skipn (List.length sd) root.

Definition copy_step (root : path) (f : string) (t : node) : node :=
  swallow (copy2 files (root ++ [f]) (dest root ++ [f]) t) t.

Definition copy_files (root : path) (fs : list string) (t : node) : node :=
  fold_left (fun t2 f => copy_step root f t2) fs t.

(** A directory of the walk is settled in [z]: its destination is
    there and every copy of the loop body changes nothing. *)
Definition settled (z : node) (triple : path * list string * list string)
  : Prop :=
  isdir z (dest (fst (fst triple))) = true /\
  forall f, In f (snd triple) -> copy_step (fst (fst triple)) f z = z.

Definition saturated (triples : list (path * list string * list string))
    (z : node) : Prop :=
  Forall (settled z) triples.

(** What a merge of a subtree went through with is settled in every
    tree that agrees, below the destination, with what the merge left. *)
Definition settles (src : node) : Prop :=
  wf src ->
  forall rel x x',
    merge_walk files sd df (walk_node (sd ++ rel) src) x = (x', None) ->
    forall z, lookup z (df ++ rel) = lookup x' (df ++ rel) ->
              saturated (walk_node (sd ++ rel) src) z.

End Merge.

End Overlay.

(* ================================================================== *)
(** * A small catalogue and installation to run the model on *)
(* ================================================================== *)

Module Demo.
Import FS Worker.

(** A catalogue with the two archives "a.zip" and "b.zip"; any other
    name is answered with 404. *)
Definition http_get (log : list string) (url : string) : result response :=
  if String.eqb url (RAW_URL ++ "a.zip") then Ok (Build_response 200 "A")
  else if String.eqb url (RAW_URL ++ "b.zip") then Ok (Build_response 200 "B")
  else Ok (Build_response 404 "").

Definition unzip (bytes : string) : option (list member) :=
  if String.eqb bytes "A"
  then Some [MFile ["x.manifest"] "m1"; MFile ["sub"; "y.lua"] "l1";
             MFile ["sub"; "x.manifest"] "m2"; MFile ["readme.txt"] "r"]
  else if String.eqb bytes "B"
  then Some [MDir ["d"]; MFile ["d"; "y.lua"] "l2"]
  else None.

(** An empty cache and one installation with its executable. *)
Definition world0 : world :=
  Build_world (Dir [])
              (Dir [("C:/Steam", Dir [("steam.exe", File "exe")])])
              [].

Definition settings0 (delete : bool) : settings :=
  Build_settings "C:/Steam" true delete false false.




(** The application with its settings object at address 0, holding
    [settings0 false]; a batch of two items; the user saves the dialog
    with [delete_after] set when the first item is done. *)
Definition app0 : App.app := {| App.settings_values := 0; App.order := [] |}.
Definition heap0 : App.heap := fun _ => settings0 false.
Definition batch0 : list string := ["a.zip"; "b.zip"].
Definition disturbed : list App.event :=
  [App.Tick; App.Tick; App.Tick; App.SaveSettings (settings0 true);
   App.Tick; App.Tick; App.Tick].

(** An overlay with a file, a directory and the reserved "Data"
    directory; a game directory with two directories whose names
    contain "data"; a directory without the marker file. *)
Definition overlay_files : node :=
  Dir [("OnlineFix",
        Dir [("winmm.dll", File "w");
             ("Data", Dir [("Plugins", Dir [("x.dll", File "x")]);
                           ("boot.config", File "b")]);
             ("extras", Dir [("readme", File "r")])])].

Definition game : node :=
  Dir [("UnityCrashHandler64.exe", File "u");
       ("Game.exe", File "g");
       ("Game_Data", Dir [("Plugins", Dir [("old.dll", File "o")])]);
       ("MonoBleedingEdge_data", Dir []);
       ("extras", Dir [("stale", File "s")])].

Definition not_a_game : node :=
  Dir [("Game.exe", File "g"); ("Game_Data", Dir [])].

(** A game directory in which a regular file has the name of a
    directory of the overlay. *)
Definition blocked_game : node :=
  Dir [("UnityCrashHandler64.exe", File "u");
       ("extras", File "g");
       ("Game_Data", Dir [])].

(** An overlay with a directory of the name of the game's data
    directory, and a game with a second directory whose name contains
    "data". *)
Definition overlay_files2 : node :=
  Dir [("OnlineFix",
        Dir [("Game_Data", Dir [("n", File "n")]);
             ("Data", Dir [("x.dll", File "x")])])].

Definition game2 : node :=
  Dir [("UnityCrashHandler64.exe", File "u");
       ("Game_Data", Dir []);
       ("Other_Data", Dir [])].

End Demo.

From Stdlib Require Import ZArith.
From Stdlib Require Import Floats.SpecFloat.
From Stdlib Require Import DecimalString.

(* ================================================================== *)
(** * Python values: what [json.load] builds and [dict] does with it *)
(* ================================================================== *)

Module Py.

(** The objects [json.load] and [resp.json()] build: [None], [True] and
    [False], integers, floats, strings, lists, and dictionaries (whose
    keys, as decoded, are strings). A dictionary lists its items in
    insertion order. *)
#[warnings="-register-all"]
Inductive pyval : Type :=
| PNone
| PBool (b : bool)
| PInt (z : Z)
| PFloat (f : spec_float)
| PStr (s : string)
| PList (items : list pyval)
| PDict (entries : list (pyval * pyval)).

Definition dict : Type := list (pyval * pyval).

(** The exceptions of the modelled statements; [OSError] stands for the
    exceptions of the file operations. *)
Inductive exn : Type :=
| TypeError
| ValueError
| KeyError
| AttributeError
| HTTPError
| RequestException
| JSONDecodeError
| OSError (e : FS.exn).

Inductive try (A : Type) : Type :=
| Done (a : A)
| Raised (e : exn).

Arguments Done {A} a.
Arguments Raised {A} e.

Definition and_then {A B : Type} (r : try A) (k : A -> try B) : try B :=
  match r with
  | Done a => k a
  | Raised e => Raised e
  end.

(** [bool(v)]: what [if v:] tests. *)
Definition truthy (v : pyval) : bool :=
  match v with
  | PNone => false
  | PBool b => b
  | PInt z => negb (z =? 0)%Z
  | PFloat (S754_zero _) => false
  | PFloat _ => true
  | PStr s => negb (s =? "")%string
  | PList l => match l with [] => false | _ :: _ => true end
  | PDict d => match d with [] => false | _ :: _ => true end
  end.

(** ** Keys *)

(** The numbers, to compare keys: [Finite m e] is [m * 2 ^ e]. *)
Inductive number : Type :=
| Finite (m e : Z)
| Infinite (negative : bool)
| NaN.

(** [True] and [False] are the integers 1 and 0. *)
Definition number_of (v : pyval) : option number :=
  match v with
  | PBool b => Some (Finite (if b then 1 else 0) 0)
  | PInt z => Some (Finite z 0)
  | PFloat (S754_zero _) => Some (Finite 0 0)
  | PFloat (S754_infinity s) => Some (Infinite s)
  | PFloat S754_nan => Some NaN
  | PFloat (S754_finite s m e) => Some (Finite (if s then Z.neg m else Z.pos m) e)
  | _ => None
  end.

(** Numbers are equal when their values are; the decoder has one object
    for every [NaN] it reads, and a dictionary finds a key that is the
    same object. *)
Definition number_eqb (x y : number) : bool :=
  match x, y with
  | Finite m1 e1, Finite m2 e2 =>
      let e := Z.min e1 e2 in
      (m1 * 2 ^ (e1 - e) =? m2 * 2 ^ (e2 - e))%Z
  | Infinite s1, Infinite s2 => Bool.eqb s1 s2
  | NaN, NaN => true
  | _, _ => false
  end.

(** Lists and dictionaries cannot be keys. *)
Definition hashable (v : pyval) : bool :=
  match v with
  | PList _ | PDict _ => false
  | _ => true
  end.

(** Whether a dictionary takes two hashable objects for the same key. *)
Definition key_eqb (a b : pyval) : bool :=
  match a, b with
  | PNone, PNone => true
  | PStr s1, PStr s2 => (s1 =? s2)%string
  | _, _ =>
      match number_of a, number_of b with
      | Some x, Some y => number_eqb x y
      | _, _ => false
      end
  end.

(** ** Dictionaries *)

(** [d[k]], when the key is there. *)
Fixpoint get_item (d : dict) (k : pyval) : option pyval :=
  match d with
  | [] => None
  | (k', v) :: d' => if key_eqb k k' then Some v else get_item d' k
  end.

(** [d.get(key, default)] for a string [key]. *)
Definition get (d : dict) (key : string) (default : pyval) : pyval :=
  match get_item d (PStr key) with
  | Some v => v
  | None => default
  end.

(** [d[k] = v]: the value of an item whose key equals [k] is replaced,
    the item keeping its place and its key; a new item goes to the
    end. *)
Fixpoint set_item (d : dict) (k v : pyval) : dict :=
  match d with
  | [] => [(k, v)]
  | (k', v') :: d' =>
      if key_eqb k k' then (k', v) :: d' else (k', v') :: set_item d' k v
  end.

(** The characters of a string, each a string of length one. *)
Definition chars (s : string) : list pyval :=
  map (fun c => PStr (String c EmptyString)) (list_ascii_of_string s).

(** What iterating over an object yields: the items of a list, the
    characters of a string, the keys of a dictionary; nothing else that
    [json] builds can be iterated over. *)
Definition iterate (v : pyval) : try (list pyval) :=
  match v with
  | PList l => Done l
  | PStr s => Done (chars s)
  | PDict d => Done (map fst d)
  | _ => Raised TypeError
  end.

(** One element of the sequence [dict.update] is given: it must be
    iterable ([TypeError]) and yield two objects ([ValueError]), the
    first of them hashable ([TypeError]). *)
Definition pair_of (item : pyval) : try (pyval * pyval) :=
  match iterate item with
  | Raised e => Raised e
  | Done [k; v] => if hashable k then Done (k, v) else Raised TypeError
  | Done _ => Raised ValueError
  end.

(** [d.update(seq)] for a sequence of pairs: the pairs are stored one
    after the other; the pairs before one that raises stay stored. *)
Fixpoint update_pairs (items : list pyval) (d : dict) : dict * option exn :=
  match items with
  | [] => (d, None)
  | item :: rest =>
      match pair_of item with
      | Done (k, v) => update_pairs rest (set_item d k v)
      | Raised e => (d, Some e)
      end
  end.

(** [d.update(other)]: the items of a dictionary are stored in their
    order; any other object is iterated over as a sequence of pairs.
    The answer is the dictionary as the call leaves it, with the
    exception the call raised, if any. *)
Definition update (other : pyval) (d : dict) : dict * option exn :=
  match other with
  | PDict o => (fold_left (fun d1 kv => set_item d1 (fst kv) (snd kv)) o d, None)
  | _ =>
      match iterate other with
      | Done items => update_pairs items d
      | Raised e => (d, Some e)
      end
  end.

(** [str(n)] for a length. *)
Definition str_of_nat (n : nat) : string :=
  NilEmpty.string_of_uint (Nat.to_uint n).

End Py.

(* ================================================================== *)
(** * The state file: [load_state], [save_state] *)
(* ================================================================== *)

Module State.
Import FS Py.

(** [STATE_FILE], in the working directory; the trees of this section
    are that directory. *)
Definition STATE_FILE : path := ["app_state.json"].

(** [default['settings']], lines 49-55. *)
Definition default_settings : dict :=
  [(PStr "steam_path", PStr "");
   (PStr "dark_theme", PBool true);
   (PStr "delete_after", PBool false);
   (PStr "win_notify", PBool false);
   (PStr "restart_steam", PBool false)].

(** The dictionary [{'settings': ..., 'added': ...}] the two functions
    exchange. *)
Record state : Type := {
  settings : dict;
  added : pyval
}.

Definition to_py (st : state) : pyval :=
  PDict [(PStr "settings", PDict (settings st)); (PStr "added", added st)].

Definition default : state :=
  {| settings := default_settings; added := PList [] |}.

Section Persist.

(** [json.load(f)] on the text of a file: [None] when decoding or
    parsing raises. *)
Variable loads : string -> option pyval.

(** The text [json.dump(state, f, indent=2)] writes; the objects of a
    state are those [json] reads and the strings and truth values of
    the settings dialog, which it can all write. *)
Variable dumps : pyval -> string.

(** [load_state()]. [s] is the dictionary [default['settings']] itself,
    so when [update] raises after it has stored some pairs, the
    [default] returned in the handler has them. *)
Definition load_state (cwd : node) : state :=
  if exists_ cwd STATE_FILE then
    match read_file cwd STATE_FILE with
    | Raise _ => default
    | Ok text =>
        match loads text with
        | None => default
        | Some (PDict data) =>
            match update (get data "settings" (PDict [])) default_settings with
            | (s, None) =>
                {| settings := s; added := get data "added" (PList []) |}
            | (s, Some _) => {| settings := s; added := PList [] |}
            end
        | Some _ => default
        end
    end
  else default.

(** [save_state(state)]: any exception is passed over. *)
Definition save_state (st : state) (cwd : node) : node :=
  swallow (write_file STATE_FILE (dumps (to_py st)) cwd) cwd.

End Persist.

End State.

(* ================================================================== *)
(** * The window: [DownloaderApp] and its handlers *)
(* ================================================================== *)

Module Gui.
Import FS Py.

Definition API_URL : string :=
  "https://api.github.com/repos/ayka-667/SteamTools-GameList/contents".
Definition ERR_NOTHING_IN_ORDER : string := "Nothing is in order!".
Definition ERR_NOTHING_SELECTED : string := "Nothing is selected!".
Definition FETCHING : string := "Fetching Manifests & LUA's from database...".

(** [os.path.join(FILES_DIR, 'NotificationPicture.png')], in the working
    directory. *)
Definition NOTIFICATION_PICTURE : path := ["Files"; "NotificationPicture.png"].

(** A [Worker] object as the window sees it: its constructor's
    arguments and the attribute [mark_added] set on it. A thread object
    equals itself only; [wid] tells the objects apart, the [n]-th worker
    the window makes having [wid = n]. The worker's [settings] is the
    window's dictionary [settings_values] itself, which is bound once
    and changed in place, so it needs no field here. *)
Record worker : Type := {
  wid : nat;
  items : list string;
  mark_added : bool
}.

(** The two style sheets of [apply_theme]. *)
Inductive style : Type := DarkSheet | NoSheet.

(** The attributes of the window and the contents of its widgets. The
    list of the names added before ([added_list]) is filled once, when
    the window is made, and is left out. [created] counts the workers
    made so far. *)
Record gui : Type := {
  settings_values : dict;
  added : pyval;
  files : list string;
  filtered_files : list string;
  order : list string;
  workers : list worker;
  list_widget : list string;
  order_list : list string;
  label : string;
  style_sheet : style;
  created : nat
}.

(** What a handler shows or starts, in the order it does. [FetchFailed]
    is the box "Failed to fetch files: ..." with the exception's text;
    [StartFile sp] is [os.startfile] of [steam.exe] in [sp]. *)
Inductive effect : Type :=
| Warning (title text : string)
| Critical (title text : string)
| FetchFailed (e : exn)
| Information (title text : string)
| Start (w : worker)
| QuitWait (w : worker)
| ShowToast (icon : option path)
| TaskKill
| StartFile (steam_path : string).

(** ** The catalogue *)

(** [resp.raise_for_status()]. *)
Definition raise_for_status (resp : Worker.response) : try unit :=
  let code := Worker.status_code resp in
  if ((400 <=? code) && (code <? 600))%nat then Raised HTTPError else Done tt.

(** [f['name']]: only a dictionary can be indexed by a string. *)
Definition name_of (f : pyval) : try pyval :=
  match f with
  | PDict d =>
      match get_item d (PStr "name") with
      | Some v => Done v
      | None => Raised KeyError
      end
  | _ => Raised TypeError
  end.

(** [[f['name'] for f in data if f['name'].endswith('.zip')]] over the
    elements of [data]; only a string has [endswith]. *)
Fixpoint zip_names (elements : list pyval) : try (list string) :=
  match elements with
  | [] => Done []
  | f :: rest =>
      match name_of f with
      | Raised e => Raised e
      | Done (PStr name) =>
          and_then (zip_names rest) (fun names =>
            Done (if Str.endswith name ZIP_EXT then name :: names else names))
      | Done _ => Raised AttributeError
      end
  end.

(** The text of the label after a listing of [n] names. *)
Definition found (n : nat) : string :=
  "Found " ++ str_of_nat n ++ " Manifest & Lua's. Select one to download:".

(** [filter_list]'s list for the text of the search bar. *)
Definition matching (text : string) (all : list string) : list string :=
  if (text =? "")%string then all
  else filter (fun f => Str.contains (Str.lower text) (Str.lower f)) all.

(** [filter_list(text)]. *)
Definition filter_list (text : string) (g : gui) : gui :=
  let shown := matching text (files g) in
  {| settings_values := settings_values g; added := added g;
     files := files g; filtered_files := shown;
     order := order g; workers := workers g;
     list_widget := shown; order_list := order_list g;
     label := label g; style_sheet := style_sheet g; created := created g |}.

(** ** Batches *)

(** [start_processing(items, mark_added)]. *)
Definition start_processing (batch : list string) (mark : bool) (g : gui)
  : gui * list effect :=
  let w := {| wid := created g; items := batch; mark_added := mark |} in
  ({| settings_values := settings_values g; added := added g;
      files := files g; filtered_files := filtered_files g;
      order := order g; workers := workers g ++ [w];
      list_widget := list_widget g; order_list := order_list g;
      label := label g; style_sheet := style_sheet g;
      created := S (created g) |},
   [Start w]).

(** [add_now]; [selected] is the text of [list_widget.currentItem()],
    [None] without a current item. *)
Definition add_now (selected : option string) (g : gui) : gui * list effect :=
  match selected with
  | None => (g, [Warning "No Selection" ERR_NOTHING_SELECTED])
  | Some name => start_processing [name] true g
  end.

(** [add_to_order]. *)
Definition add_to_order (selected : option string) (g : gui)
  : gui * list effect :=
  match selected with
  | None => (g, [Warning "No Selection" ERR_NOTHING_SELECTED])
  | Some name =>
      ({| settings_values := settings_values g; added := added g;
          files := files g; filtered_files := filtered_files g;
          order := order g ++ [name]; workers := workers g;
          list_widget := list_widget g; order_list := order_list g ++ [name];
          label := label g; style_sheet := style_sheet g;
          created := created g |}, [])
  end.

(** [start_order]. *)
Definition start_order (g : gui) : gui * list effect :=
  match order g with
  | [] => (g, [Warning "Order" ERR_NOTHING_IN_ORDER])
  | _ :: _ =>
      start_processing (order g) true
        {| settings_values := settings_values g; added := added g;
           files := files g; filtered_files := filtered_files g;
           order := []; workers := workers g;
           list_widget := list_widget g; order_list := [];
           label := label g; style_sheet := style_sheet g;
           created := created g |}
  end.

(** [list.remove]: the first element that is the object. *)
Fixpoint remove_worker (w : worker) (l : list worker) : list worker :=
  match l with
  | [] => []
  | w' :: l' => if (wid w' =? wid w)%nat then l' else w' :: remove_worker w l'
  end.

(** [cleanup_worker(worker)]. *)
Definition cleanup_worker (w : worker) (g : gui) : gui * list effect :=
  if existsb (fun w' => (wid w' =? wid w)%nat) (workers g)
  then
    ({| settings_values := settings_values g; added := added g;
        files := files g; filtered_files := filtered_files g;
        order := order g; workers := remove_worker w (workers g);
        list_widget := list_widget g; order_list := order_list g;
        label := label g; style_sheet := style_sheet g;
        created := created g |}, [QuitWait w])
  else (g, []).

(** [on_worker_error(message)]. *)
Definition on_worker_error (message : string) : list effect :=
  [Critical "Error" message].

(** ** Settings *)

(** The style sheet [apply_theme] sets. *)
Definition theme (s : dict) : style :=
  if truthy (get s "dark_theme" (PBool true)) then DarkSheet else NoSheet.

(** [apply_theme]. *)
Definition apply_theme (g : gui) : gui :=
  {| settings_values := settings_values g; added := added g;
     files := files g; filtered_files := filtered_files g;
     order := order g; workers := workers g;
     list_widget := list_widget g; order_list := order_list g;
     label := label g; style_sheet := theme (settings_values g);
     created := created g |}.

(** Lines 330-334: the five assignments, in their order; the dialog
    gives a text and four truth values. *)
Definition assign_settings (dialog : Worker.settings) (s : dict) : dict :=
  let s1 := set_item s (PStr "steam_path") (PStr (Worker.steam_path dialog)) in
  let s2 := set_item s1 (PStr "dark_theme") (PBool (Worker.dark_theme dialog)) in
  let s3 := set_item s2 (PStr "delete_after") (PBool (Worker.delete_after dialog)) in
  let s4 := set_item s3 (PStr "win_notify") (PBool (Worker.win_notify dialog)) in
  set_item s4 (PStr "restart_steam") (PBool (Worker.restart_steam dialog)).

(** The state [save_all_state] builds. *)
Definition state_of (g : gui) : State.state :=
  {| State.settings := settings_values g; State.added := added g |}.

(** ** What the handlers keep *)

(** Names of the catalogue, which all end in ".zip". *)
Definition catalogue_names (g : gui) (l : list string) : Prop :=
  Forall (fun name => In name (files g) /\ Str.endswith name ZIP_EXT = true) l.

(** The widgets show the lists they stand for; what is shown, ordered
    or given to a worker comes from the catalogue; the workers in the
    list are different objects, made by this window. *)
Definition tidy (g : gui) : Prop :=
  order_list g = order g /\
  list_widget g = filtered_files g /\
  catalogue_names g (files g) /\
  catalogue_names g (filtered_files g) /\
  catalogue_names g (order g) /\
  Forall (fun w => catalogue_names g (items w) /\ wid w < created g)
         (workers g) /\
  NoDup (map wid (workers g)).

(** A batch that is started is not empty and comes from the
    catalogue. *)
Definition starts_catalogue_names (g : gui) (out : list effect) : Prop :=
  Forall (fun e => match e with
                   | Start w => items w <> [] /\ catalogue_names g (items w)
                   | _ => True
                   end) out.

Section Handlers.

(** [requests.get(url)]; [resp.json()] on the content of a response,
    [None] when it raises. *)
Variable requests_get : string -> try Worker.response.
Variable json_of : string -> option pyval.

(** The state file: see [State]. *)
Variable loads : string -> option pyval.
Variable dumps : pyval -> string.

(** [_HAS_TOAST]: whether [win10toast] could be imported. *)
Variable HAS_TOAST : bool.

(** [fetch_files]: the names are computed first; when anything raises,
    nothing has been assigned. *)
Definition fetch_names : try (list string) :=
  and_then (requests_get API_URL) (fun resp =>
  and_then (raise_for_status resp) (fun _ =>
  and_then (match json_of (Worker.content resp) with
            | Some data => Done data
            | None => Raised JSONDecodeError
            end) (fun data =>
  and_then (iterate data) zip_names))).

Definition fetch_files (g : gui) : gui * list effect :=
  match fetch_names with
  | Done names =>
      let sorted := Str.sort_by Str.lower names in
      ({| settings_values := settings_values g; added := added g;
          files := sorted; filtered_files := sorted;
          order := order g; workers := workers g;
          list_widget := list_widget g ++ sorted; order_list := order_list g;
          label := found (List.length sorted); style_sheet := style_sheet g;
          created := created g |}, [])
  | Raised e => (g, [FetchFailed e])
  end.

(** [save_all_state]. *)
Definition save_all_state (g : gui) (cwd : node) : node :=
  State.save_state dumps (state_of g) cwd.

(** [open_settings]; [dialog] is what the dialog holds when it is
    accepted, [None] when it is not (or could not be made from the
    settings): nothing is assigned then. *)
Definition open_settings (dialog : option Worker.settings) (g : gui) (cwd : node)
  : gui * node :=
  match dialog with
  | None => (g, cwd)
  | Some values =>
      let g1 :=
        apply_theme
          {| settings_values := assign_settings values (settings_values g);
             added := added g;
             files := files g; filtered_files := filtered_files g;
             order := order g; workers := workers g;
             list_widget := list_widget g; order_list := order_list g;
             label := label g; style_sheet := style_sheet g;
             created := created g |} in
      (g1, save_all_state g1 cwd)
  end.

(** Lines 378-381, inside their [try]: [taskkill] is run ([returns]
    tells whether the call came back or raised); [os.path.join] needs a
    string; the executable is started when it exists. The installation
    is looked up in [disk] as the installer does, a path that is empty in
    the working directory. *)
Definition restart_steam (s : dict) (cwd disk : node) (returns : bool)
  : list effect :=
  TaskKill ::
  (if returns then
     match get s "steam_path" (PStr "") with
     | PStr sp =>
         if (if (sp =? "")%string then exists_ cwd ["steam.exe"]
             else exists_ disk [sp; "steam.exe"])
         then [StartFile sp] else []
     | _ => []
     end
   else []).

(** [on_worker_finished(message)]. *)
Definition on_worker_finished (message : string) (g : gui)
    (cwd disk : node) (returns : bool) : node * list effect :=
  let s := settings_values g in
  (save_all_state g cwd,
   [Information "Info" message]
   ++ (if truthy (get s "win_notify" (PBool false)) && HAS_TOAST
       then [ShowToast (if exists_ cwd NOTIFICATION_PICTURE
                        then Some NOTIFICATION_PICTURE else None)]
       else [])
   ++ (if truthy (get s "restart_steam" (PBool false))
       then restart_steam s cwd disk returns else [])).

(** The window as [__init__] makes it: the state is loaded, the theme
    applied, the catalogue fetched. [populate_added], which ends
    [__init__], only fills [added_list] from [added]; when it raises, no
    window is made. *)
Definition init (cwd : node) : gui * list effect :=
  let st := State.load_state loads cwd in
  fetch_files
    (apply_theme
       {| settings_values := State.settings st; added := State.added st;
          files := []; filtered_files := [];
          order := []; workers := [];
          list_widget := []; order_list := [];
          label := FETCHING; style_sheet := NoSheet; created := 0 |}).

(** What happens to the window: the user's actions, with what the
    widgets hold then, and the signals of the workers, with the
    installation as it is then. The click on "Insert Online-Fix" is not
    among them: its handler reads and assigns no attribute of the window
    and acts on the directory chosen in its dialog, see
    [Overlay.insert_online_fix]. *)
Inductive event : Type :=
| TextChanged (text : string)
| AddClicked (selected : option string)
| AddToOrderClicked (selected : option string)
| StartOrderClicked
| SettingsClicked (dialog : option Worker.settings)
| Finished (w : worker) (message : string) (disk : node) (returns : bool)
| Failed (w : worker) (message : string).

(** The handlers connected to them; for a signal of a worker they run
    in the order they were connected in. *)
Definition handle (e : event) (g : gui) (cwd : node)
  : gui * node * list effect :=
  match e with
  | TextChanged text => (filter_list text g, cwd, [])
  | AddClicked selected =>
      let (g1, out) := add_now selected g in (g1, cwd, out)
  | AddToOrderClicked selected =>
      let (g1, out) := add_to_order selected g in (g1, cwd, out)
  | StartOrderClicked =>
      let (g1, out) := start_order g in (g1, cwd, out)
  | SettingsClicked dialog =>
      let (g1, cwd1) := open_settings dialog g cwd in (g1, cwd1, [])
  | Finished w message disk returns =>
      let (cwd1, out1) := on_worker_finished message g cwd disk returns in
      let (g1, out2) := cleanup_worker w g in
      (g1, cwd1, out1 ++ out2)
  | Failed w message =>
      let (g1, out2) := cleanup_worker w g in
      (g1, cwd, on_worker_error message ++ out2)
  end.

Fixpoint handle_all (events : list event) (g : gui) (cwd : node)
  : gui * node * list effect :=
  match events with
  | [] => (g, cwd, [])
  | e :: rest =>
      match handle e g cwd with
      | (g1, cwd1, out1) =>
          match handle_all rest g1 cwd1 with
          | (g2, cwd2, out2) => (g2, cwd2, out1 ++ out2)
          end
      end
  end.

(** The user picks what the list shows: the text of
    [list_widget.currentItem()] is one of the names in the widget. *)
Definition picks_shown (e : event) (g : gui) : Prop :=
  match e with
  | AddClicked (Some name) | AddToOrderClicked (Some name) =>
      In name (list_widget g)
  | _ => True
  end.

Fixpoint all_picks_shown (events : list event) (g : gui) (cwd : node) : Prop :=
  match events with
  | [] => True
  | e :: rest =>
      picks_shown e g /\
      all_picks_shown rest (fst (fst (handle e g cwd))) (snd (fst (handle e g cwd)))
  end.

End Handlers.

End Gui.

(* ================================================================== *)
(** * A small window, state file and catalogue answer to run the model on *)
(* ================================================================== *)

Module Sample.
Import FS Py.

(** A catalogue answer of three entries, one of them no archive. *)
Definition entries : list pyval :=
  [PDict [(PStr "name", PStr "b.zip"); (PStr "size", PInt 10)];
   PDict [(PStr "name", PStr "README.md")];
   PDict [(PStr "name", PStr "A.zip")]].

Definition names : list string := ["b.zip"; "README.md"; "A.zip"].

Definition requests_get (url : string) : try Worker.response :=
  if (url =? Gui.API_URL)%string
  then Done (Worker.Build_response 200 "catalogue")
  else Raised RequestException.

(** A server that answers every request with 503. *)
Definition requests_down (url : string) : try Worker.response :=
  Done (Worker.Build_response 503 "").

Definition json_of (text : string) : option pyval :=
  if (text =? "catalogue")%string then Some (PList entries) else None.

(** The settings a dialog holds, and the state of a window that had the
    defaults when the dialog was accepted. *)
Definition dialog : Worker.settings :=
  Worker.Build_settings "C:/Steam" false true false false.

Definition state0 : State.state :=
  {| State.settings :=
       [(PStr "steam_path", PStr "C:/Steam");
        (PStr "dark_theme", PBool false);
        (PStr "delete_after", PBool true);
        (PStr "win_notify", PBool false);
        (PStr "restart_steam", PBool false)];
     State.added := PList [] |}.

(** Three state files: one written for [state0], one with a single
    setting, one whose settings are a list with an element that is no
    pair. The encoder writes the first text. *)
Definition loads (text : string) : option pyval :=
  if (text =? "state0")%string then Some (State.to_py state0)
  else if (text =? "partial")%string
  then Some (PDict [(PStr "settings", PDict [(PStr "dark_theme", PBool false)]);
                    (PStr "added", PList [PStr "a.zip"])])
  else if (text =? "pairs")%string
  then Some (PDict [(PStr "settings",
                     PList [PList [PStr "steam_path"; PStr "D:/Steam"];
                            PInt 3;
                            PList [PStr "dark_theme"; PBool false]]);
                    (PStr "added", PList [PStr "a.zip"])])
  else if (text =? "list")%string then Some (PList [])
  else None.

Definition dumps (v : pyval) : string := "state0".

(** Working directories: an empty one, and one for each state file. *)
Definition cwd0 : node := Dir [("Files", Dir [])].

Definition cwd_with (text : string) : node :=
  Dir [("Files", Dir []); ("app_state.json", File text)].

(** A window with the defaults and no catalogue yet, and one with a
    catalogue, an order and two workers. *)
Definition blank : Gui.gui :=
  {| Gui.settings_values := State.default_settings; Gui.added := PList [];
     Gui.files := []; Gui.filtered_files := [];
     Gui.order := []; Gui.workers := [];
     Gui.list_widget := []; Gui.order_list := [];
     Gui.label := Gui.FETCHING; Gui.style_sheet := Gui.DarkSheet;
     Gui.created := 0 |}.

Definition worker0 : Gui.worker :=
  {| Gui.wid := 0; Gui.items := ["A.zip"]; Gui.mark_added := true |}.

Definition worker1 : Gui.worker :=
  {| Gui.wid := 1; Gui.items := ["b.zip"; "A.zip"]; Gui.mark_added := true |}.

Definition busy : Gui.gui :=
  {| Gui.settings_values := State.default_settings; Gui.added := PList [];
     Gui.files := ["A.zip"; "b.zip"]; Gui.filtered_files := ["A.zip"; "b.zip"];
     Gui.order := ["b.zip"]; Gui.workers := [worker0; worker1];
     Gui.list_widget := ["A.zip"; "b.zip"]; Gui.order_list := ["b.zip"];
     Gui.label := Gui.found 2; Gui.style_sheet := Gui.DarkSheet;
     Gui.created := 2 |}.

(** A course of actions and signals. *)
Definition course : list Gui.event :=
  [Gui.TextChanged "a"; Gui.AddToOrderClicked (Some "A.zip");
   Gui.TextChanged ""; Gui.AddToOrderClicked (Some "b.zip");
   Gui.StartOrderClicked; Gui.SettingsClicked (Some dialog);
   Gui.AddClicked (Some "b.zip");
   Gui.Finished worker0 "All files processed!" (Dir []) true;
   Gui.Failed worker1 "Download failed"].

(** A catalogue in which "c.zip" is answered with bytes that are no
    archive, and "a.zip.zip" with an archive of one file. *)
Definition http_get (log : list string) (url : string)
  : result Worker.response :=
  if String.eqb url (Worker.RAW_URL ++ "c.zip")
  then Ok (Worker.Build_response 200 "C")
  else if String.eqb url (Worker.RAW_URL ++ "a.zip.zip")
  then Ok (Worker.Build_response 200 "Z")
  else Demo.http_get log url.

Definition unzip (bytes : string) : option (list member) :=
  if String.eqb bytes "Z" then Some [MFile ["x.manifest"] "m9"]
  else Demo.unzip bytes.

(** The game directory of [Demo] as the overlay routine leaves it,
    listed in the order of the names. *)
Definition game_patched_sorted : node :=
  Dir [("Game.exe", File "g");
       ("Game_Data",
        Dir [("Plugins", Dir [("old.dll", File "o"); ("x.dll", File "x")]);
             ("boot.config", File "b")]);
       ("MonoBleedingEdge_data", Dir []);
       ("UnityCrashHandler64.exe", File "u");
       ("extras", Dir [("readme", File "r")]);
       ("winmm.dll", File "w")].

End Sample.
(* ================================================================== *)
(** * Facts about the string methods *)
(* ================================================================== *)

Module StrFacts.
Import Str.

Section Sort.
Variable key : string -> string.

Local Abbreviation key_le := (Str.key_le key).

Lemma insert_by_perm x l : Permutation (x :: l) (insert_by key x l).
Proof.
  induction l as [|y l IH]; simpl; [reflexivity|].
  destruct (String.leb (key x) (key y)); [reflexivity|].
  etransitivity; [apply perm_swap|]. now constructor.
Qed.

Lemma sort_by_perm l : Permutation l (sort_by key l).
Proof.
  induction l as [|x l IH]; simpl; [constructor|].
  etransitivity; [|apply insert_by_perm]. now constructor.
Qed.

Lemma insert_by_hd x y l :
  key_le y x -> HdRel key_le y l -> HdRel key_le y (insert_by key x l).
Proof.
  intros Hyx Hl. destruct l as [|z l]; simpl; [now constructor|].
  destruct (String.leb (key x) (key z)); constructor; auto.
  now inversion Hl.
Qed.

Lemma insert_by_sorted x l : Sorted key_le l -> Sorted key_le (insert_by key x l).
Proof.
  induction 1 as [|y l Hs IH Hh]; simpl; [repeat constructor|].
  destruct (String.leb (key x) (key y)) eqn:E.
  - constructor; [now constructor|]. now constructor.
  - constructor; [assumption|]. apply insert_by_hd; [|assumption].
    unfold Str.key_le. destruct (String.leb_total (key x) (key y)); congruence.
Qed.

Lemma sort_by_sorted l : Sorted key_le (sort_by key l).
Proof.
  induction l; simpl; [constructor|]. now apply insert_by_sorted.
Qed.

Lemma leb_refl (s : string) : String.leb s s = true.
Proof. now destruct (String.leb_total s s). Qed.

(** Stability: inserting keeps the order among the names of one key. *)
Lemma insert_by_stable (k x : string) (l : list string) :
  filter (fun y => String.eqb (key y) k) (insert_by key x l) =
  filter (fun y => String.eqb (key y) k) (x :: l).
Proof.
  induction l as [|y l IH]; [reflexivity|].
  cbn [insert_by]. destruct (String.leb (key x) (key y)) eqn:E; [reflexivity|].
  cbn [filter] in *. rewrite IH.
  destruct (String.eqb (key x) k) eqn:Ex, (String.eqb (key y) k) eqn:Ey;
    try reflexivity.
  apply String.eqb_eq in Ex, Ey. rewrite Ex, Ey, leb_refl in E. discriminate.
Qed.

Lemma sort_by_stable (k : string) (l : list string) :
  filter (fun y => String.eqb (key y) k) (sort_by key l) =
  filter (fun y => String.eqb (key y) k) l.
Proof.
  induction l as [|x l IH]; [reflexivity|].
  cbn [sort_by]. rewrite insert_by_stable. cbn [filter]. now rewrite IH.
Qed.

End Sort.

(** What [endswith] decides. *)
Lemma endswith_unfold s suffix :
  endswith s suffix =
  String.eqb s suffix ||
  match s with EmptyString => false | String _ s' => endswith s' suffix end.
Proof. destruct s; reflexivity. Qed.

Lemma endswith_spec s suffix :
  endswith s suffix = true <-> exists pre, s = (pre ++ suffix)%string.
Proof.
  split.
  - induction s as [|c s IH]; rewrite endswith_unfold; intros H.
    + rewrite orb_false_r in H. apply String.eqb_eq in H. subst.
      now exists "".
    + apply orb_true_iff in H as [H|H].
      * apply String.eqb_eq in H. exists "". now rewrite H.
      * destruct (IH H) as [pre ->]. now exists (String c pre).
  - intros [pre ->]. induction pre as [|c pre IH]; rewrite endswith_unfold.
    + simpl. now rewrite String.eqb_refl.
    + cbn [String.append]. rewrite IH. apply orb_true_r.
Qed.

End StrFacts.

(* ================================================================== *)
(** * The catalogue listing and the scratch name *)
(* ================================================================== *)

(** The listing of the spec's example: the test on the extension is
    case-sensitive, so "A.ZIP" is not listed. *)
Lemma fetch_files_example_differs :
  fetch_files ["b.zip"; "A.ZIP"; "c.txt"] <> ["A.ZIP"; "b.zip"].
Proof. vm_compute. discriminate. Qed.

(** C6 (amended): for a response whose names are ASCII text, the
    listing holds exactly the names that end in ".zip" as written (lower
    case), each as often as the response has it; it is sorted by the
    lower-cased name, names with the same lower-cased form keeping the
    order of the response; on ["b.zip"; "A.ZIP"; "c.txt"] it is
    ["b.zip"]. *)
Theorem fetch_files_filters_and_sorts (data : list string) :
  Forall (fun name => Str.is_ascii name = true) data ->
  Permutation (filter (fun name => Str.endswith name ZIP_EXT) data)
              (fetch_files data)
  /\ (forall name,
        In name (fetch_files data) <->
        In name data /\ exists pre, name = (pre ++ ZIP_EXT)%string)
  /\ Sorted (Str.key_le Str.lower) (fetch_files data)
  /\ (forall k,
        filter (fun y => String.eqb (Str.lower y) k) (fetch_files data) =
        filter (fun y => String.eqb (Str.lower y) k)
               (filter (fun name => Str.endswith name ZIP_EXT) data))
  /\ fetch_files ["b.zip"; "A.ZIP"; "c.txt"] = ["b.zip"].
Proof.
  intros _. unfold fetch_files.
  split; [apply StrFacts.sort_by_perm|].
  split; [|split; [apply StrFacts.sort_by_sorted|split; [|reflexivity]]].
  - intros name. rewrite <- StrFacts.endswith_spec.
    rewrite <- (filter_In (fun name => Str.endswith name ZIP_EXT)).
    split; apply Permutation_in;
      [apply Permutation_sym|]; apply StrFacts.sort_by_perm.
  - intros k. apply StrFacts.sort_by_stable.
Qed.

(** C7: [name.replace('.zip','')] takes out every ".zip" of the name,
    not only the extension at its end: the item "archive.zip.zip" is
    extracted into "archive", where stripping the extension gives
    "archive.zip". *)
Theorem extract_dir_name_drops_inner_zip :
  Str.endswith "archive.zip.zip" ZIP_EXT = true
  /\ extract_dir_name "archive.zip.zip" = "archive"
  /\ Str.strip_suffix ZIP_EXT "archive.zip.zip" = Some "archive.zip"
  /\ extract_dir_name "archive.zip" = extract_dir_name "archive.zip.zip".
Proof. repeat split. Qed.

(* ================================================================== *)
(** * Facts about directory trees *)
(* ================================================================== *)

Module FSFacts.
Import FS.

Lemma assoc_set_entry_same k v es : assoc k (set_entry k v es) = Some v.
Proof.
  induction es as [|[k' v'] es IH]; simpl.
  - now rewrite String.eqb_refl.
  - destruct (String.eqb k k') eqn:E; simpl; rewrite ?String.eqb_refl, ?E; auto.
Qed.

Lemma assoc_set_entry_other k k' v es :
  k' <> k -> assoc k' (set_entry k v es) = assoc k' es.
Proof.
  intros Hne. induction es as [|[k0 v0] es IH]; simpl.
  - apply String.eqb_neq in Hne. now rewrite Hne.
  - destruct (String.eqb k k0) eqn:E; simpl.
    + apply String.eqb_eq in E. subst k0.
      apply String.eqb_neq in Hne. now rewrite Hne.
    + now rewrite IH.
Qed.

Lemma assoc_del_entry_same k es : assoc k (del_entry k es) = None.
Proof.
  induction es as [|[k' v'] es IH]; simpl; [reflexivity|].
  destruct (String.eqb k k') eqn:E; simpl; rewrite ?E; auto.
Qed.

Lemma assoc_del_entry_other k k' es :
  k' <> k -> assoc k' (del_entry k es) = assoc k' es.
Proof.
  intros Hne. induction es as [|[k0 v0] es IH]; simpl; [reflexivity|].
  destruct (String.eqb k k0) eqn:E; simpl.
  - apply String.eqb_eq in E. subst k0.
    apply String.eqb_neq in Hne. now rewrite Hne.
  - now rewrite IH.
Qed.

Lemma set_entry_same_value k v es :
  assoc k es = Some v -> set_entry k v es = es.
Proof.
  induction es as [|[k' v'] es IH]; simpl; [discriminate|].
  destruct (String.eqb k k') eqn:E.
  - apply String.eqb_eq in E. now intros [= ->]; subst.
  - intros H. now rewrite IH.
Qed.

Lemma set_entry_twice k v v' es :
  set_entry k v (set_entry k v' es) = set_entry k v es.
Proof.
  induction es as [|[k' v0] es IH]; simpl.
  - now rewrite String.eqb_refl.
  - destruct (String.eqb k k') eqn:E; simpl; rewrite ?String.eqb_refl, ?E;
      [reflexivity|]. now rewrite IH.
Qed.

Lemma lookup_app n p q :
  lookup n (p ++ q) =
  match lookup n p with Some m => lookup m q | None => None end.
Proof.
  revert n. induction p as [|c p IH]; intros n; simpl; [reflexivity|].
  destruct n as [|es]; [reflexivity|].
  destruct (assoc c es); [apply IH|reflexivity].
Qed.

Lemma lookup_cons_dir es c p :
  lookup (Dir es) (c :: p) =
  match assoc c es with Some child => lookup child p | None => None end.
Proof. reflexivity. Qed.

(** [modify] unfolded at a directory. *)
Lemma modify_last c f es :
  modify [c] f (Dir es) =
  (r <- f (assoc c es) ;;
   Ok (Dir (match r with
            | Some v => set_entry c v es
            | None => del_entry c es
            end))).
Proof. reflexivity. Qed.

Lemma modify_deeper c c' p f es :
  modify (c :: c' :: p) f (Dir es) =
  match assoc c es with
  | None => Raise FileNotFoundError
  | Some child =>
      child' <- modify (c' :: p) f child ;; Ok (Dir (set_entry c child' es))
  end.
Proof. reflexivity. Qed.

(** A change at [c :: p] leaves every other entry of the root alone. *)
Lemma modify_frame_top c p f n n' k q :
  modify (c :: p) f n = Ok n' -> k <> c ->
  lookup n' (k :: q) = lookup n (k :: q).
Proof.
  intros H Hne. destruct n as [|es]; [discriminate|].
  destruct p as [|c' p].
  - rewrite modify_last in H. destruct (f (assoc c es)) as [r|]; [|discriminate].
    injection H as <-. rewrite !lookup_cons_dir.
    destruct r; [now rewrite assoc_set_entry_other|now rewrite assoc_del_entry_other].
  - rewrite modify_deeper in H. destruct (assoc c es) as [child|]; [|discriminate].
    destruct (modify (c' :: p) f child) as [child'|]; [|discriminate].
    injection H as <-. rewrite !lookup_cons_dir.
    now rewrite assoc_set_entry_other.
Qed.


Lemma diverge_sym p q : diverge p q -> diverge q p.
Proof.
  revert q. induction p as [|c p IH]; intros [|k q]; simpl; try tauto.
  intros [H|[-> H]]; [left; congruence|right; auto].
Qed.

Lemma diverge_app_r p q r : diverge p q -> diverge p (q ++ r).
Proof.
  revert q. induction p as [|c p IH]; intros [|k q]; simpl; try tauto.
  intros [H|[-> H]]; [now left|right; auto].
Qed.

(** A change at [p] is not seen at a path that parts ways with [p]. *)
Lemma modify_frame p f n n' q :
  modify p f n = Ok n' -> diverge p q -> lookup n' q = lookup n q.
Proof.
  revert n n' q. induction p as [|c p IH]; intros n n' q H Hd; [destruct Hd|].
  destruct q as [|k q]; [destruct Hd|].
  destruct Hd as [Hne|[<- Hd]].
  - eapply modify_frame_top; eauto.
  - destruct n as [|es]; [discriminate|].
    destruct p as [|c' p]; [destruct Hd|].
    rewrite modify_deeper in H. destruct (assoc c es) as [child|] eqn:Ea; [|discriminate].
    destruct (modify (c' :: p) f child) as [child'|] eqn:Em; [|discriminate].
    injection H as <-. rewrite !lookup_cons_dir, assoc_set_entry_same, Ea.
    eapply IH; eauto.
Qed.

(** A change is made in a directory and leaves a directory. *)
Lemma modify_is_dir p f n n' :
  modify p f n = Ok n' -> is_dir_node n = true /\ is_dir_node n' = true.
Proof.
  intros H. destruct n as [|es]; [destruct p; discriminate|].
  destruct p as [|c [|c' p]]; [discriminate| |].
  - rewrite modify_last in H. destruct (f (assoc c es)); [|discriminate].
    inversion H. auto.
  - rewrite modify_deeper in H. destruct (assoc c es); [|discriminate].
    destruct (modify (c' :: p) f n); [|discriminate]. inversion H. auto.
Qed.

(** What a successful change leaves at [p] is what [f] answered. *)
Lemma modify_lookup_at p f n n' :
  modify p f n = Ok n' -> p <> [] -> f (lookup n p) = Ok (lookup n' p).
Proof.
  revert n n'. induction p as [|c p IH]; intros n n' H Hp; [congruence|].
  destruct n as [|es]; [discriminate|].
  destruct p as [|c' p].
  - rewrite modify_last in H. rewrite !lookup_cons_dir.
    replace (match assoc c es with Some child => lookup child [] | None => None end)
      with (assoc c es) by (destruct (assoc c es); reflexivity).
    destruct (f (assoc c es)) as [r|]; [|discriminate].
    injection H as <-. rewrite lookup_cons_dir.
    destruct r; [now rewrite assoc_set_entry_same|now rewrite assoc_del_entry_same].
  - rewrite modify_deeper in H. destruct (assoc c es) as [child|] eqn:Ea; [|discriminate].
    destruct (modify (c' :: p) f child) as [child'|] eqn:Em; [|discriminate].
    injection H as <-. rewrite !lookup_cons_dir, assoc_set_entry_same, Ea.
    apply IH; [assumption|discriminate].
Qed.


Lemma modify_keeps_isdir p f n n' q :
  keeps_dirs f -> modify p f n = Ok n' -> isdir n q = true -> isdir n' q = true.
Proof.
  intros Hf. unfold isdir.
  revert n n' q. induction p as [|c p IH]; intros n n' q H Hq.
  - destruct n; discriminate.
  - destruct n as [|es]; [discriminate|].
    destruct q as [|k q].
    { destruct p as [|c' p].
      - rewrite modify_last in H. destruct (f (assoc c es)); [|discriminate].
        now injection H as <-.
      - rewrite modify_deeper in H. destruct (assoc c es); [|discriminate].
        destruct (modify (c' :: p) f n); [|discriminate]. now injection H as <-. }
    destruct (String.eqb k c) eqn:Ekc.
    2:{ apply String.eqb_neq in Ekc.
        now rewrite (modify_frame_top _ _ _ _ _ _ _ H Ekc). }
    apply String.eqb_eq in Ekc. subst k.
    rewrite lookup_cons_dir in Hq.
    destruct (assoc c es) as [child|] eqn:Ea; [|discriminate].
    destruct p as [|c' p].
    + rewrite modify_last, Ea in H.
      assert (exists es', child = Dir es') as [es' ->].
      { destruct q; simpl in Hq; destruct child; try discriminate; eauto. }
      destruct (f (Some (Dir es'))) eqn:Ef; [|discriminate].
      now apply Hf in Ef.
    + rewrite modify_deeper, Ea in H.
      destruct (modify (c' :: p) f child) as [child'|] eqn:Em; [|discriminate].
      injection H as <-. rewrite lookup_cons_dir, assoc_set_entry_same.
      eapply IH; eauto.
Qed.



Lemma lookup_below_nondir o q :
  is_dir_opt o = false ->
  is_dir_opt (match o with Some v => lookup v q | None => None end) = false.
Proof.
  destruct o as [[d|es]|]; intros H; try discriminate; [|reflexivity].
  destruct q; reflexivity.
Qed.

Lemma modify_isdir_eq p f n n' q :
  no_dirs f -> modify p f n = Ok n' -> isdir n' q = isdir n q.
Proof.
  intros Hf. unfold isdir.
  revert n n' q. induction p as [|c p IH]; intros n n' q H.
  - destruct n; discriminate.
  - destruct n as [|es]; [discriminate|].
    destruct q as [|k q].
    { destruct p as [|c' p].
      - rewrite modify_last in H. destruct (f (assoc c es)); [|discriminate].
        now injection H as <-.
      - rewrite modify_deeper in H. destruct (assoc c es); [|discriminate].
        destruct (modify (c' :: p) f n); [|discriminate]. now injection H as <-. }
    destruct (String.eqb k c) eqn:Ekc.
    2:{ apply String.eqb_neq in Ekc.
        now rewrite (modify_frame_top _ _ _ _ _ _ _ H Ekc). }
    apply String.eqb_eq in Ekc. subst k.
    destruct p as [|c' p].
    + rewrite modify_last in H.
      destruct (f (assoc c es)) as [r|] eqn:Ef; [|discriminate].
      destruct (Hf _ _ Ef) as [Ho Hr]. injection H as <-.
      rewrite !lookup_cons_dir.
      fold (is_dir_opt (match assoc c es with Some child => lookup child q | None => None end)).
      rewrite (lookup_below_nondir _ q Ho).
      destruct r as [v|].
      * rewrite assoc_set_entry_same.
        apply (lookup_below_nondir (Some v) q Hr).
      * now rewrite assoc_del_entry_same.
    + rewrite modify_deeper in H.
      destruct (assoc c es) as [child|] eqn:Ea; [|discriminate].
      destruct (modify (c' :: p) f child) as [child'|] eqn:Em; [|discriminate].
      injection H as <-. rewrite !lookup_cons_dir, assoc_set_entry_same, Ea.
      eapply IH; eauto.
Qed.

(** When the parent of [p] is a directory, the change is made as soon
    as [f] allows it. *)
Lemma modify_succeeds p f n r :
  p <> [] -> isdir n (dirname p) = true -> f (lookup n p) = Ok r ->
  exists n', modify p f n = Ok n'.
Proof.
  unfold isdir, dirname.
  revert n. induction p as [|c p IH]; intros n Hp Hd Hf; [congruence|].
  destruct p as [|c' p].
  - simpl in Hd. destruct n as [|es]; [discriminate|].
    rewrite modify_last. rewrite lookup_cons_dir in Hf.
    replace (match assoc c es with Some child => lookup child [] | None => None end)
      with (assoc c es) in Hf by (destruct (assoc c es); reflexivity).
    rewrite Hf. simpl. eauto.
  - change (removelast (c :: c' :: p)) with (c :: removelast (c' :: p)) in Hd.
    destruct n as [|es]; [discriminate|].
    rewrite lookup_cons_dir in Hd, Hf. rewrite modify_deeper.
    destruct (assoc c es) as [child|]; [|discriminate].
    destruct (IH child) as [child' ->]; [discriminate|assumption|assumption|].
    simpl. eauto.
Qed.

(** ** The single calls *)

Lemma write_file_no_dirs data :
  no_dirs (fun old => match old with
                      | Some (Dir _) => Raise IsADirectoryError
                      | _ => Ok (Some (File data))
                      end).
Proof. intros [[d|es]|] r H; inversion H; auto. Qed.

Lemma write_file_isdir p data n n' q :
  write_file p data n = Ok n' -> isdir n' q = isdir n q.
Proof. apply modify_isdir_eq, write_file_no_dirs. Qed.

Lemma write_file_frame p data n n' q :
  write_file p data n = Ok n' -> diverge p q -> lookup n' q = lookup n q.
Proof. apply modify_frame. Qed.

Lemma write_file_at p data n n' :
  write_file p data n = Ok n' -> lookup n' p = Some (File data).
Proof.
  intros H. destruct p as [|c p].
  - destruct n; discriminate.
  - apply modify_lookup_at in H; [|discriminate].
    destruct (lookup n (c :: p)) as [[d|es]|]; inversion H; auto.
Qed.

Lemma write_file_succeeds p data n :
  p <> [] -> isdir n (dirname p) = true -> isdir n p = false ->
  exists n', write_file p data n = Ok n'.
Proof.
  intros Hp Hd Hn. eapply modify_succeeds; eauto.
  unfold isdir in Hn. destruct (lookup n p) as [[d|es]|]; try reflexivity.
  discriminate.
Qed.

Lemma remove_no_dirs :
  no_dirs (fun old => match old with
                      | Some (File _) => Ok None
                      | Some (Dir _) => Raise IsADirectoryError
                      | None => Raise FileNotFoundError
                      end).
Proof. intros [[d|es]|] r H; inversion H; auto. Qed.

Lemma remove_isdir p n n' q :
  remove p n = Ok n' -> isdir n' q = isdir n q.
Proof. apply modify_isdir_eq, remove_no_dirs. Qed.

Lemma remove_frame p n n' q :
  remove p n = Ok n' -> diverge p q -> lookup n' q = lookup n q.
Proof. apply modify_frame. Qed.

Lemma remove_at p n n' : remove p n = Ok n' -> lookup n' p = None.
Proof.
  intros H. destruct p as [|c p].
  - destruct n; discriminate.
  - apply modify_lookup_at in H; [|discriminate].
    destruct (lookup n (c :: p)) as [[d|es]|]; inversion H; auto.
Qed.

Lemma rmtree_frame p n n' q :
  rmtree p n = Ok n' -> diverge p q -> lookup n' q = lookup n q.
Proof. apply modify_frame. Qed.

Lemma rmtree_at p n n' : rmtree p n = Ok n' -> lookup n' p = None.
Proof.
  intros H. destruct p as [|c p].
  - destruct n; discriminate.
  - apply modify_lookup_at in H; [|discriminate].
    destruct (lookup n (c :: p)) as [[d|es]|]; inversion H; auto.
Qed.

Lemma rmtree_succeeds p n :
  p <> [] -> isdir n p = true -> exists n', rmtree p n = Ok n'.
Proof.
  intros Hp Hd. eapply modify_succeeds with (r := None); eauto.
  - unfold isdir in *. unfold dirname.
    destruct p as [|c p]; [congruence|].
    clear Hp. revert n c Hd. induction p as [|c' p IH]; intros n c Hd.
    + destruct n; [discriminate|reflexivity].
    + change (removelast (c :: c' :: p)) with (c :: removelast (c' :: p)).
      destruct n as [|es]; [discriminate|].
      rewrite lookup_cons_dir in *. destruct (assoc c es); [|discriminate].
      now apply IH.
  - unfold isdir in Hd. destruct (lookup n p) as [[d|es]|]; try discriminate.
    reflexivity.
Qed.

Lemma mkdir_keeps_isdir p n n' q :
  mkdir p n = Ok n' -> isdir n q = true -> isdir n' q = true.
Proof. apply modify_keeps_isdir. intros es r H. discriminate. Qed.

Lemma mkdir_frame p n n' q :
  mkdir p n = Ok n' -> diverge p q -> lookup n' q = lookup n q.
Proof. apply modify_frame. Qed.


(** ** [makedirs] *)

Lemma makedirs_cons c p es :
  makedirs (c :: p) (Dir es) =
  (child' <- makedirs p (match assoc c es with
                         | Some child => child
                         | None => Dir []
                         end) ;;
   Ok (Dir (set_entry c child' es))).
Proof. reflexivity. Qed.

Lemma makedirs_isdir_at p n n' : makedirs p n = Ok n' -> isdir n' p = true.
Proof.
  unfold isdir. revert n n'. induction p as [|c p IH]; intros n n' H.
  - destruct n; inversion H; reflexivity.
  - destruct n as [|es]; [discriminate|]. rewrite makedirs_cons in H.
    destruct (makedirs p _) as [child'|] eqn:E; [|discriminate].
    injection H as <-. rewrite lookup_cons_dir, assoc_set_entry_same. eauto.
Qed.

Lemma makedirs_frame p n n' q :
  makedirs p n = Ok n' -> diverge p q -> lookup n' q = lookup n q.
Proof.
  revert n n' q. induction p as [|c p IH]; intros n n' q H Hd; [destruct Hd|].
  destruct q as [|k q]; [destruct Hd|].
  destruct n as [|es]; [discriminate|]. rewrite makedirs_cons in H.
  destruct (makedirs p _) as [child'|] eqn:E; [|discriminate].
  injection H as <-. rewrite !lookup_cons_dir.
  destruct Hd as [Hne|[<- Hd]].
  - rewrite assoc_set_entry_other; congruence.
  - rewrite assoc_set_entry_same. rewrite (IH _ _ _ E Hd).
    destruct (assoc c es); [reflexivity|]. destruct q; [destruct p; destruct Hd|reflexivity].
Qed.

Lemma makedirs_frame_top c p n n' k q :
  makedirs (c :: p) n = Ok n' -> k <> c ->
  lookup n' (k :: q) = lookup n (k :: q).
Proof. intros H Hne. eapply makedirs_frame; eauto. simpl. left. congruence. Qed.

(** [makedirs] never touches what is there: whatever a path led to, it
    still leads to, unless it was a directory that got new entries. *)
Lemma makedirs_keeps p n n' q :
  makedirs p n = Ok n' ->
  match lookup n q with
  | Some (File d) => lookup n' q = Some (File d)
  | Some (Dir _) => isdir n' q = true
  | None => True
  end.
Proof.
  unfold isdir. revert n n' q. induction p as [|c p IH]; intros n n' q H.
  - destruct n; inversion H; subst. destruct (lookup _ q) as [[d|es]|]; auto.
  - destruct n as [|es]; [discriminate|]. rewrite makedirs_cons in H.
    destruct (makedirs p _) as [child'|] eqn:E; [|discriminate].
    injection H as <-. destruct q as [|k q]; [reflexivity|].
    rewrite !lookup_cons_dir.
    destruct (String.eqb k c) eqn:Ekc.
    + apply String.eqb_eq in Ekc. subst k. rewrite assoc_set_entry_same.
      destruct (assoc c es) as [child|]; [|exact I].
      apply (IH _ _ q E).
    + apply String.eqb_neq in Ekc. rewrite assoc_set_entry_other by assumption.
      destruct (assoc k es) as [child|]; [|exact I].
      destruct (lookup child q) as [[d|es']|]; auto.
Qed.

Lemma makedirs_keeps_isdir p n n' q :
  makedirs p n = Ok n' -> isdir n q = true -> isdir n' q = true.
Proof.
  intros H Hq. pose proof (makedirs_keeps p n n' q H) as K.
  unfold isdir in *. destruct (lookup n q) as [[d|es]|]; try discriminate.
  exact K.
Qed.

Lemma makedirs_keeps_file p n n' q d :
  makedirs p n = Ok n' -> file_at n q = Some d -> file_at n' q = Some d.
Proof.
  intros H Hq. pose proof (makedirs_keeps p n n' q H) as K.
  unfold file_at in *. destruct (lookup n q) as [[d'|es]|]; try discriminate.
  now rewrite K.
Qed.

(** The directories [makedirs] adds lie on the way to [p]. *)
Lemma makedirs_isdir_new p n n' q :
  makedirs p n = Ok n' -> isdir n' q = true ->
  isdir n q = true \/ exists r, p = q ++ r.
Proof.
  unfold isdir. revert n n' q. induction p as [|c p IH]; intros n n' q H Hq.
  - destruct n; inversion H; subst. now left.
  - destruct n as [|es]; [discriminate|]. rewrite makedirs_cons in H.
    destruct (makedirs p _) as [child'|] eqn:E; [|discriminate].
    injection H as <-. destruct q as [|k q]; [now left|].
    rewrite lookup_cons_dir in Hq |- *.
    destruct (String.eqb_spec k c) as [->|Hne].
    + rewrite assoc_set_entry_same in Hq.
      destruct (IH _ _ _ E Hq) as [Hold|[r ->]].
      * destruct (assoc c es) as [child|]; [now left|].
        destruct q; [|discriminate]. right. now exists p.
      * right. now exists r.
    + rewrite assoc_set_entry_other in Hq by assumption. now left.
Qed.

(** On a directory that is there, [makedirs] changes nothing. *)
Lemma makedirs_existing p n : isdir n p = true -> makedirs p n = Ok n.
Proof.
  unfold isdir. revert n. induction p as [|c p IH]; intros n H.
  - destruct n; [discriminate|reflexivity].
  - destruct n as [|es]; [discriminate|]. rewrite makedirs_cons.
    rewrite lookup_cons_dir in H.
    destruct (assoc c es) as [child|] eqn:Ea; [|discriminate].
    rewrite (IH _ H). simpl. now rewrite set_entry_same_value.
Qed.

(** ** [copy2] *)

Lemma diverge_app_l p q r : diverge p q -> diverge (p ++ r) q.
Proof. intros H. apply diverge_sym, diverge_app_r, diverge_sym, H. Qed.

Lemma copy2_isdir from src dst n n' q :
  copy2 from src dst n = Ok n' -> isdir n' q = isdir n q.
Proof.
  unfold copy2. destruct (read_file from src); [|discriminate]. simpl.
  apply write_file_isdir.
Qed.

Lemma copy2_frame from src dst n n' q :
  copy2 from src dst n = Ok n' -> diverge dst q -> lookup n' q = lookup n q.
Proof.
  unfold copy2. destruct (read_file from src); [|discriminate]. simpl.
  intros H Hd. eapply write_file_frame; eauto.
  destruct (isdir n dst); [now apply diverge_app_l|assumption].
Qed.


(** ** Extraction *)

Lemma dirname_cons c q :
  dirname (c :: q) = match q with [] => [] | _ :: _ => c :: dirname q end.
Proof. destruct q; reflexivity. Qed.

Lemma extract_member_keeps_isdir base m n n' q :
  extract_member base m n = Ok n' -> isdir n q = true -> isdir n' q = true.
Proof.
  unfold extract_member. intros H Hq.
  set (target := base ++ _) in H.
  destruct (exists_ n (dirname target)).
  - cbn [bind] in H. destruct m.
    + now rewrite (write_file_isdir _ _ _ _ q H).
    + destruct (isdir n target); [now inversion H; subst|].
      eapply mkdir_keeps_isdir; eauto.
  - destruct (makedirs (dirname target) n) as [n1|] eqn:E; [|discriminate].
    cbn [bind] in H. pose proof (makedirs_keeps_isdir _ _ _ _ E Hq) as Hq1.
    destruct m.
    + now rewrite (write_file_isdir _ _ _ _ q H).
    + destruct (isdir n1 target); [now inversion H; subst|].
      eapply mkdir_keeps_isdir; eauto.
Qed.

Lemma extract_member_frame_top c b m n n' k q :
  extract_member (c :: b) m n = Ok n' -> k <> c ->
  lookup n' (k :: q) = lookup n (k :: q).
Proof.
  unfold extract_member. intros H Hne.
  set (p := match m with MFile p _ => p | MDir p => p end) in H.
  change ((c :: b) ++ p) with (c :: (b ++ p)) in H.
  assert (Hup : forall n0 n1,
             (if exists_ n0 (dirname (c :: b ++ p)) then Ok n0
              else makedirs (dirname (c :: b ++ p)) n0) = Ok n1 ->
             lookup n1 (k :: q) = lookup n0 (k :: q)).
  { intros n0 n1 E. destruct (exists_ n0 _); [now inversion E|].
    rewrite dirname_cons in E. destruct (b ++ p).
    - destruct n0; inversion E; reflexivity.
    - eapply makedirs_frame_top; eauto. }
  destruct (if exists_ n _ then _ else _) as [n1|] eqn:E; [|discriminate].
  cbn [bind] in H. rewrite <- (Hup _ _ E).
  assert (Hd : diverge (c :: b ++ p) (k :: q)) by (simpl; left; congruence).
  destruct m.
  - eapply write_file_frame; eauto.
  - destruct (isdir n1 _); [now inversion H|]. eapply mkdir_frame; eauto.
Qed.


(** ** Paths above, below and beside a path *)


Lemma path_trichotomy (p q : path) :
  diverge p q \/ prefix_of p q \/ (exists r, r <> [] /\ p = q ++ r).
Proof.
  revert q. induction p as [|c p IH]; intros q.
  - right. left. now exists q.
  - destruct q as [|k q].
    + right. right. exists (c :: p). split; [discriminate|reflexivity].
    + destruct (String.eqb_spec c k) as [->|Hne].
      * destruct (IH q) as [H|[[r ->]|(r & Hr & ->)]].
        -- left. simpl. now right.
        -- right. left. now exists r.
        -- right. right. exists r. now split.
      * left. simpl. now left.
Qed.

(** A change below [q] needs [q] to be a directory. *)
Lemma modify_ancestor_isdir q r f n n' :
  modify (q ++ r) f n = Ok n' -> r <> [] -> isdir n q = true.
Proof.
  unfold isdir. revert n n'. induction q as [|c q IH]; intros n n' H Hr.
  - destruct n; [|reflexivity]. destruct r; discriminate.
  - destruct n as [|es]; [discriminate|].
    change ((c :: q) ++ r) with (c :: (q ++ r)) in H.
    destruct (q ++ r) as [|c' p] eqn:E.
    { apply app_eq_nil in E as [_ ->]. congruence. }
    rewrite modify_deeper in H. rewrite lookup_cons_dir.
    destruct (assoc c es) as [child|]; [|discriminate].
    destruct (modify (c' :: p) f child) as [child'|] eqn:Em; [|discriminate].
    eapply IH; eauto.
Qed.

Lemma file_at_of_isdir n q : isdir n q = true -> file_at n q = None.
Proof.
  unfold isdir, file_at. now destruct (lookup n q) as [[d|es]|].
Qed.

(** Writing a file changes the content of no file that is not at or
    below the path written. *)
Lemma write_file_file_at p data n n' q :
  write_file p data n = Ok n' -> ~ prefix_of p q ->
  file_at n' q = file_at n q.
Proof.
  intros H Hq. destruct (path_trichotomy p q) as [Hd|[Hp|(r & Hr & ->)]].
  - unfold file_at. now rewrite (write_file_frame _ _ _ _ _ H Hd).
  - contradiction.
  - pose proof (modify_ancestor_isdir _ _ _ _ _ H Hr) as Hdir.
    rewrite (file_at_of_isdir _ _ Hdir). apply file_at_of_isdir.
    now rewrite (write_file_isdir _ _ _ _ q H).
Qed.

Lemma prefix_of_app p r q : prefix_of (p ++ r) q -> prefix_of p q.
Proof. intros [t ->]. exists (r ++ t). now rewrite app_assoc. Qed.

Lemma copy2_file_at from src dst n n' q :
  copy2 from src dst n = Ok n' -> ~ prefix_of dst q ->
  file_at n' q = file_at n q.
Proof.
  unfold copy2. destruct (read_file from src); [|discriminate]. simpl.
  intros H Hq. eapply write_file_file_at; eauto.
  destruct (isdir n dst); [|assumption].
  intros Hp. apply Hq. eapply prefix_of_app; eauto.
Qed.

(** [makedirs] makes directories only. *)
Lemma makedirs_file_at p n n' q :
  makedirs p n = Ok n' -> file_at n' q = file_at n q.
Proof.
  unfold file_at. revert n n' q. induction p as [|c p IH]; intros n n' q H.
  - destruct n; inversion H; reflexivity.
  - destruct n as [|es]; [discriminate|]. rewrite makedirs_cons in H.
    destruct (makedirs p _) as [child'|] eqn:E; [|discriminate].
    injection H as <-. destruct q as [|k q]; [reflexivity|].
    rewrite !lookup_cons_dir.
    destruct (String.eqb_spec k c) as [->|Hne].
    + rewrite assoc_set_entry_same. rewrite (IH _ _ q E).
      destruct (assoc c es); [reflexivity|]. now destruct q.
    + now rewrite assoc_set_entry_other.
Qed.

(** ** Well-formed trees and the walk *)

Lemma node_induction (P : node -> Prop) :
  (forall d, P (File d)) ->
  (forall es, Forall (fun e => P (snd e)) es -> P (Dir es)) ->
  forall n, P n.
Proof.
  intros HF HD. fix IH 1. intros [d|es]; [apply HF|apply HD].
  induction es as [|e es IHes]; constructor; [apply IH|exact IHes].
Qed.

Lemma wf_dir es :
  wf (Dir es) <-> NoDup (names es) /\ Forall (fun e => wf (snd e)) es.
Proof.
  cbn [wf]. split; intros [H1 H2]; (split; [assumption|]).
  - induction es as [|e es IH]; constructor; [apply H2|].
    apply IH; [now inversion H1|apply H2].
  - induction H2 as [|e es He Hes IH]; [exact I|].
    split; [assumption|]. apply IH. now inversion H1.
Qed.

Lemma assoc_in k v es : assoc k es = Some v -> In (k, v) es.
Proof.
  induction es as [|[k' v'] es IH]; simpl; [discriminate|].
  destruct (String.eqb_spec k k') as [->|Hne].
  - intros [= ->]. now left.
  - intros H. right. auto.
Qed.

Lemma assoc_nodup k v es :
  NoDup (names es) -> In (k, v) es -> assoc k es = Some v.
Proof.
  induction es as [|[k' v'] es IH]; simpl; [contradiction|].
  intros Hnd [Hin|Hin].
  - inversion Hin; subst. now rewrite String.eqb_refl.
  - inversion Hnd as [|? ? Hnotin Hnd']; subst.
    destruct (String.eqb_spec k k') as [->|Hne]; [|now apply IH].
    exfalso. apply Hnotin. change k' with (fst (k', v)). now apply in_map.
Qed.

Lemma wf_lookup n p sub : wf n -> lookup n p = Some sub -> wf sub.
Proof.
  revert n. induction p as [|c p IH]; intros n Hwf H; simpl in H.
  - now inversion H; subst.
  - destruct n as [|es]; [discriminate|].
    destruct (assoc c es) as [child|] eqn:Ea; [|discriminate].
    apply wf_dir in Hwf as [_ Hall]. rewrite Forall_forall in Hall.
    apply (IH child); [|assumption]. apply (Hall (c, child)).
    now apply assoc_in.
Qed.

Lemma in_filenames f es :
  In f (filenames es) -> exists d, In (f, File d) es.
Proof.
  unfold filenames, names. rewrite in_map_iff.
  intros ([k v] & <- & Hin). apply filter_In in Hin as [Hin Hv].
  destruct v as [d|]; [|discriminate]. now exists d.
Qed.

(** In a well-formed tree every file name the walk reports names a
    regular file below the directory it is reported for. *)
Lemma walk_node_files n :
  wf n -> forall root r ds fs f,
  In (r, ds, fs) (walk_node root n) -> In f fs ->
  exists suffix d, r = root ++ suffix /\
                   lookup n (suffix ++ [f]) = Some (File d).
Proof.
  induction n as [d|es IH] using node_induction; intros Hwf root r ds fs f Hin Hf.
  - destruct Hin.
  - apply wf_dir in Hwf as [Hnd Hall].
    cbn [walk_node] in Hin. destruct Hin as [Hin|Hin].
    + inversion Hin; subst. apply in_filenames in Hf as [d Hd].
      exists [], d. rewrite app_nil_r. split; [reflexivity|].
      cbn [app]. rewrite lookup_cons_dir, (assoc_nodup _ _ _ Hnd Hd).
      reflexivity.
    + apply in_flat_map in Hin as ([k child] & Hk & Hin). cbn [fst snd] in Hin.
      rewrite Forall_forall in IH, Hall.
      destruct (IH _ Hk (Hall _ Hk) _ _ _ _ _ Hin Hf) as (suffix & d & -> & Hl).
      exists (k :: suffix), d. rewrite <- app_assoc. split; [reflexivity|].
      cbn [app]. rewrite lookup_cons_dir, (assoc_nodup _ _ _ Hnd Hk).
      exact Hl.
Qed.

Lemma walk_files_readable n top r ds fs f :
  wf n -> In (r, ds, fs) (walk n top) -> In f fs ->
  exists d, read_file n (r ++ [f]) = Ok d.
Proof.
  unfold walk, read_file. intros Hwf Hin Hf.
  destruct (lookup n top) as [sub|] eqn:E; [|destruct Hin].
  destruct (walk_node_files sub (wf_lookup _ _ _ Hwf E) _ _ _ _ _ Hin Hf)
    as (suffix & d & -> & Hl).
  exists d. now rewrite <- app_assoc, lookup_app, E, Hl.
Qed.

(** Every regular file below a directory is reported by the walk, for
    the directory it lies in. *)
Lemma walk_node_complete rel : forall n root f d,
  lookup n (rel ++ [f]) = Some (File d) ->
  exists ds fs, In (root ++ rel, ds, fs) (walk_node root n) /\ In f fs.
Proof.
  induction rel as [|c rel IH]; intros n root f d H; cbn [app] in H;
    destruct n as [|es]; try discriminate; rewrite lookup_cons_dir in H;
    destruct (assoc c es) as [child|] eqn:Ea ||
    destruct (assoc f es) as [child|] eqn:Ea; try discriminate.
  - cbn [lookup] in H. inversion H; subst.
    exists (dirnames es), (filenames es). rewrite app_nil_r. split.
    + cbn [walk_node]. now left.
    + unfold filenames, names. apply in_map_iff. exists (f, File d).
      split; [reflexivity|]. apply filter_In. split; [|reflexivity].
      now apply assoc_in.
  - destruct (IH child (root ++ [c]) f d H) as (ds & fs & Hin & Hf).
    exists ds, fs. split; [|assumption]. cbn [walk_node]. right.
    apply in_flat_map. exists (c, child). split; [now apply assoc_in|].
    cbn [fst snd]. now rewrite <- app_assoc in Hin.
Qed.

Lemma walk_complete n top rel f d :
  file_at n (top ++ rel ++ [f]) = Some d ->
  exists ds fs, In (top ++ rel, ds, fs) (walk n top) /\ In f fs.
Proof.
  unfold file_at, walk. rewrite lookup_app.
  destruct (lookup n top) as [sub|]; [|discriminate]. intros H.
  apply (walk_node_complete rel sub top f d).
  destruct (lookup sub (rel ++ [f])) as [[x|es]|]; inversion H; reflexivity.
Qed.


End FSFacts.

(* ================================================================== *)
(** * The batch installer: order, failures, scratch directories *)
(* ================================================================== *)

Module WorkerFacts.
Import FS FSFacts Worker.

Section Run.
Variable http_get : list string -> string -> result response.
Variable unzip : string -> option (list member).

Local Abbreviation fetch_and_extract := (fetch_and_extract http_get unzip).
Local Abbreviation fetch_and_distribute := (fetch_and_distribute http_get unzip).
Local Abbreviation process_item := (process_item http_get unzip).
Local Abbreviation run_items := (run_items http_get unzip).
Local Abbreviation run := (run http_get unzip).

Lemma install_files_cache sp name w w1 :
  install_files sp name w = Next w1 ->
  cache w1 = cache w /\ requests w1 = requests w.
Proof.
  unfold install_files. intros H.
  destruct (makedirs (depotcache sp) (disk w)); [|discriminate].
  destruct (makedirs (stplugin sp) a); [|discriminate].
  now inversion H.
Qed.

Lemma fetch_and_extract_requests name w w1 :
  fetch_and_extract name w = Next w1 ->
  requests w1 = requests w ++ [url_of name] /\ disk w1 = disk w.
Proof.
  unfold Worker.fetch_and_extract. intros H.
  destruct (http_get _ _); [|discriminate].
  destruct (negb _); [discriminate|].
  destruct (write_file _ _ _); [|discriminate].
  destruct (makedirs _ _); [|discriminate].
  destruct (extract_archive _ _ _) as [c3 [e|]]; [discriminate|].
  now inversion H.
Qed.

Lemma cleanup_requests st name w :
  requests (cleanup st name w) = requests w /\ disk (cleanup st name w) = disk w.
Proof. unfold cleanup. destruct (delete_after st); auto. Qed.

Lemma process_item_inv sp st name w w2 :
  process_item sp st name w = Next w2 ->
  exists w0 w1,
    fetch_and_extract name w = Next w0 /\
    install_files sp name w0 = Next w1 /\
    w2 = cleanup st name w1.
Proof.
  unfold Worker.process_item, Worker.fetch_and_distribute. intros H.
  destruct (fetch_and_extract name w) as [w0|] eqn:E0; [|discriminate].
  destruct (install_files sp name w0) as [w1|] eqn:E1; [|discriminate].
  inversion H. eauto.
Qed.

(** The loop is left early only with an error signal. *)
Lemma process_item_stop sp st name w o w1 :
  process_item sp st name w = Stop o w1 -> o <> Success.
Proof.
  unfold Worker.process_item, Worker.fetch_and_distribute,
    Worker.fetch_and_extract, install_files.
  intros H.
  destruct (http_get _ _); [|inversion H; discriminate].
  destruct (negb _); [inversion H; discriminate|].
  destruct (write_file _ _ _); [|inversion H; discriminate].
  destruct (makedirs _ _); [|inversion H; discriminate].
  destruct (extract_archive _ _ _) as [c3 [e|]]; [inversion H; discriminate|].
  cbn [disk] in H.
  destruct (makedirs _ _); [|inversion H; discriminate].
  destruct (makedirs _ _); [|inversion H; discriminate].
  discriminate.
Qed.

Lemma process_item_requests sp st name w w2 :
  process_item sp st name w = Next w2 ->
  requests w2 = requests w ++ [url_of name].
Proof.
  intros H. apply process_item_inv in H as (w0 & w1 & H0 & H1 & ->).
  apply fetch_and_extract_requests in H0 as [H0 _].
  apply install_files_cache in H1 as [_ H1].
  destruct (cleanup_requests st name w1) as [-> _]. congruence.
Qed.

Lemma run_items_app sp st pre rest w w1 :
  run_items sp st pre w = (Success, w1) ->
  run_items sp st (pre ++ rest) w = run_items sp st rest w1.
Proof.
  revert w. induction pre as [|name pre IH]; intros w H; simpl in *.
  - now inversion H.
  - destruct (process_item sp st name w) eqn:E; [now apply IH|].
    inversion H; subst. now apply process_item_stop in E.
Qed.


Lemma run_items_requests sp st items w w1 :
  run_items sp st items w = (Success, w1) ->
  requests w1 = requests w ++ map url_of items.
Proof.
  revert w. induction items as [|name items IH]; intros w H; simpl in *.
  - inversion H. now rewrite app_nil_r.
  - destruct (process_item sp st name w) as [w0|] eqn:E.
    + rewrite (IH _ H), (process_item_requests _ _ _ _ _ E), <- app_assoc.
      reflexivity.
    + inversion H; subst. now apply process_item_stop in E.
Qed.

Lemma run_success st items w w1 :
  run st items w = (Success, w1) ->
  steam_path st <> "" /\
  exists_ (disk w) [steam_path st; "steam.exe"] = true /\
  run_items (steam_path st) st items w = (Success, w1).
Proof.
  unfold Worker.run. destruct (String.eqb_spec (steam_path st) "") as [E|E];
    simpl; [discriminate|].
  destruct (exists_ _ _); simpl; [auto|discriminate].
Qed.

Lemma run_valid st items w :
  steam_path st <> "" ->
  exists_ (disk w) [steam_path st; "steam.exe"] = true ->
  run st items w = run_items (steam_path st) st items w.
Proof.
  intros H1 H2. unfold Worker.run. rewrite H2.
  apply String.eqb_neq in H1. now rewrite H1.
Qed.

(** ** What one item does to the cache *)

Lemma extract_members_cache s b ms c c' oe :
  extract_members (s :: b) ms c = (c', oe) ->
  (forall q, isdir c q = true -> isdir c' q = true) /\
  (forall k q, k <> s -> lookup c' (k :: q) = lookup c (k :: q)).
Proof.
  revert c. induction ms as [|m ms IH]; intros c H; simpl in H.
  - inversion H; subst. auto.
  - destruct (extract_member (s :: b) m c) as [c1|e] eqn:E.
    + destruct (IH _ H) as [K F]. split.
      * intros q Hq. apply K. eapply extract_member_keeps_isdir; eauto.
      * intros k q Hk. rewrite F by assumption.
        eapply extract_member_frame_top; eauto.
    + inversion H; subst. auto.
Qed.

Lemma extract_archive_cache name c c' oe :
  extract_archive unzip name c = (c', oe) ->
  (forall q, isdir c q = true -> isdir c' q = true) /\
  (forall k q, k <> extract_dir_name name ->
               lookup c' (k :: q) = lookup c (k :: q)).
Proof.
  unfold extract_archive. intros H.
  destruct (read_file c (dest_path name)); [|inversion H; subst; auto].
  destruct (unzip a); [|inversion H; subst; auto].
  eapply extract_members_cache; eauto.
Qed.

Lemma makedirs_not_file p n n' d :
  makedirs p n = Ok n' -> lookup n p <> Some (File d).
Proof.
  intros H Hf. pose proof (makedirs_keeps _ _ _ p H) as K.
  rewrite Hf in K. apply makedirs_isdir_at in H. unfold isdir in H.
  now rewrite K in H.
Qed.

Lemma top_diverge (k c : string) (p q : path) : k <> c -> diverge (c :: p) (k :: q).
Proof. intros H. simpl. left. congruence. Qed.

(** After the first half of the loop body: the archive file is gone
    again, the scratch directory is there, no other entry of the cache
    was touched and no directory of the cache was lost. *)
Lemma fetch_and_extract_cache name w w1 :
  fetch_and_extract name w = Next w1 ->
  (forall q, isdir (cache w) q = true -> isdir (cache w1) q = true) /\
  (forall k q, k <> name -> k <> extract_dir_name name ->
               lookup (cache w1) (k :: q) = lookup (cache w) (k :: q)) /\
  isdir (cache w1) (extract_dir name) = true /\
  lookup (cache w1) (dest_path name) = None /\
  isdir (cache w) (dest_path name) = false.
Proof.
  unfold Worker.fetch_and_extract, dest_path, extract_dir. intros H.
  destruct (http_get _ _); [|discriminate].
  destruct (negb _); [discriminate|].
  destruct (write_file [name] _ (cache w)) as [c1|] eqn:E1; [|discriminate].
  destruct (makedirs [extract_dir_name name] c1) as [c2|] eqn:E2; [|discriminate].
  destruct (extract_archive unzip name c2) as [c3 [e|]] eqn:E3; [discriminate|].
  inversion H; subst; clear H. cbn [cache].
  destruct (extract_archive_cache _ _ _ _ E3) as [K3 F3].
  pose proof (write_file_at _ _ _ _ E1) as A1.
  assert (Hne : name <> extract_dir_name name).
  { intros Heq. rewrite <- Heq in E2.
    now apply (makedirs_not_file _ _ _ _ E2) in A1. }
  assert (A3 : lookup c3 [name] = Some (File (content a))).
  { rewrite F3 by assumption.
    pose proof (makedirs_keeps _ _ _ [name] E2) as K. now rewrite A1 in K. }
  destruct (modify_succeeds [name]
              (fun old => match old with
                          | Some (File _) => Ok None
                          | Some (Dir _) => Raise IsADirectoryError
                          | None => Raise FileNotFoundError
                          end) c3 None) as [c4 E4].
  { discriminate. }
  { unfold isdir, dirname. simpl. destruct c3; [discriminate|reflexivity]. }
  { now rewrite A3. }
  fold (remove [name] c3) in E4. rewrite E4. cbn [swallow].
  repeat split.
  - intros q Hq. rewrite (remove_isdir _ _ _ q E4). apply K3.
    eapply makedirs_keeps_isdir; eauto.
    now rewrite (write_file_isdir _ _ _ _ q E1).
  - intros k q Hk1 Hk2.
    rewrite (remove_frame _ _ _ (k :: q) E4) by now apply top_diverge.
    rewrite F3 by assumption.
    rewrite (makedirs_frame_top _ _ _ _ k q E2) by assumption.
    apply (write_file_frame _ _ _ _ (k :: q) E1). now apply top_diverge.
  - rewrite (remove_isdir _ _ _ _ E4). apply K3.
    eapply makedirs_isdir_at; eauto.
  - eapply remove_at; eauto.
  - rewrite <- (write_file_isdir _ _ _ _ [name] E1). unfold isdir.
    now rewrite A1.
Qed.

Lemma process_item_cache sp st name w w2 :
  process_item sp st name w = Next w2 ->
  (forall k q, k <> name -> k <> extract_dir_name name ->
               lookup (cache w2) (k :: q) = lookup (cache w) (k :: q)) /\
  lookup (cache w2) (dest_path name) = None /\
  isdir (cache w) (dest_path name) = false /\
  (delete_after st = true -> lookup (cache w2) (extract_dir name) = None) /\
  (delete_after st = false ->
     (forall q, isdir (cache w) q = true -> isdir (cache w2) q = true) /\
     exists w0, fetch_and_extract name w = Next w0 /\ cache w2 = cache w0 /\
                isdir (cache w0) (extract_dir name) = true).
Proof.
  intros H. apply process_item_inv in H as (w0 & w1 & H0 & H1 & ->).
  destruct (fetch_and_extract_cache _ _ _ H0) as (K & F & D & A & B).
  apply install_files_cache in H1 as [Hc _].
  assert (Hne : name <> extract_dir_name name).
  { intros Heq. unfold extract_dir in D. rewrite <- Heq in D.
    unfold isdir in D. unfold dest_path in A. now rewrite A in D. }
  unfold cleanup. destruct (delete_after st) eqn:Ed; cbn [cache].
  - rewrite Hc.
    destruct (rmtree_succeeds (extract_dir name) (cache w0)) as [c5 E5];
      [discriminate|assumption|].
    rewrite E5. cbn [swallow]. repeat split; try discriminate.
    + intros k q Hk1 Hk2.
      rewrite (rmtree_frame _ _ _ (k :: q) E5) by now apply top_diverge.
      now apply F.
    + rewrite (rmtree_frame _ _ _ _ E5); [assumption|].
      apply top_diverge. congruence.
    + assumption.
    + intros _. eapply rmtree_at; eauto.
  - rewrite Hc. repeat split; try discriminate; try assumption.
    exists w0. auto.
Qed.

(** C3: with an empty installation path, or one without [steam.exe],
    [run] ends with the invalid-installation signal in the state it
    started in: nothing was requested ([requests] is unchanged) and no
    file was written, whatever the batch is. *)
Theorem run_rejects_invalid_root st items w :
  steam_path st = "" \/
  exists_ (disk w) [steam_path st; "steam.exe"] = false ->
  run st items w = (InvalidInstallationRoot, w).
Proof.
  intros [H|H]; unfold Worker.run; rewrite H; [reflexivity|].
  now rewrite orb_true_r.
Qed.

(** C2: when the items before [name] went through (the run on them
    alone succeeds and ends in [w1]) and the request for [name] is
    answered with a status other than 200, the run on the whole batch
    ends with the failed-download signal; the cache and the
    installation are those the earlier items left ([w1]: what they
    distributed stays), and the requests made are those for the items up
    to [name], in the order of the batch: none of the later items was
    requested. *)
Theorem run_stops_at_failed_download st pre name post w w1 resp :
  run st pre w = (Success, w1) ->
  http_get (requests w1) (url_of name) = Ok resp ->
  status_code resp <> 200 ->
  run st (pre ++ name :: post) w =
  (DownloadFailed,
   Build_world (cache w1) (disk w1)
               (requests w ++ map url_of (pre ++ [name]))).
Proof.
  intros Hpre Hget Hstatus.
  apply run_success in Hpre as (Hpath & Hexe & Hpre).
  rewrite run_valid by assumption.
  rewrite (run_items_app _ _ _ _ _ _ Hpre).
  cbn [Worker.run_items]. unfold Worker.process_item, Worker.fetch_and_distribute,
    Worker.fetch_and_extract.
  fold (url_of name). rewrite Hget.
  apply Nat.eqb_neq in Hstatus. rewrite Hstatus. cbn [negb].
  rewrite (run_items_requests _ _ _ _ _ Hpre), map_app, app_assoc.
  reflexivity.
Qed.





End Run.

End WorkerFacts.

(* ================================================================== *)
(** * The distribution of the extracted files *)
(* ================================================================== *)

Module DistributeFacts.
Import FS FSFacts Worker.

Lemma copy_classified_unfold sp c root f d :
  copy_classified sp c root f d =
  let d1 := if Str.endswith f (suffix_of Manifest)
            then copy_into (dir_of sp Manifest) c root f d else d in
  if Str.endswith f (suffix_of Plugin)
  then copy_into (dir_of sp Plugin) c root f d1 else d1.
Proof. reflexivity. Qed.

Lemma fold_left_flat_map {A B C : Type} (g : A -> C -> A) (h : B -> list C)
    (l : list B) (a : A) :
  fold_left g (flat_map h l) a = fold_left (fun a1 x => fold_left g (h x) a1) l a.
Proof.
  revert a. induction l as [|x l IH]; intros a; simpl; [reflexivity|].
  now rewrite fold_left_app, IH.
Qed.

Lemma fold_left_map {A B C : Type} (g : A -> C -> A) (k : B -> C)
    (l : list B) (a : A) :
  fold_left g (map k l) a = fold_left (fun a1 x => g a1 (k x)) l a.
Proof. revert a. induction l as [|x l IH]; intros a; simpl; auto. Qed.

Lemma distribute_flat sp c top d :
  distribute sp c top d = distribute_list sp c (walk_files c top) d.
Proof.
  unfold distribute, distribute_list, walk_files.
  rewrite fold_left_flat_map. revert d.
  induction (walk c top) as [|t l IH]; intros d; simpl; [reflexivity|].
  now rewrite fold_left_map, IH.
Qed.


Lemma distribute_list_cons sp c r f files d :
  distribute_list sp c ((r, f) :: files) d =
  distribute_list sp c files (copy_classified sp c r f d).
Proof. reflexivity. Qed.

(** ** One copy *)

Lemma copy_into_isdir dir c root f d q :
  isdir (copy_into dir c root f d) q = isdir d q.
Proof.
  unfold copy_into. destruct (copy2 _ _ _ d) eqn:E; [|reflexivity].
  eapply copy2_isdir; eauto.
Qed.

Lemma copy_into_file_at dir c root f d q :
  ~ prefix_of (dir ++ [f]) q ->
  file_at (copy_into dir c root f d) q = file_at d q.
Proof.
  unfold copy_into. intros Hq. destruct (copy2 _ _ _ d) eqn:E; [|reflexivity].
  eapply copy2_file_at; eauto.
Qed.



(** ** The loop body on one file *)



Lemma copy_classified_isdir sp c root f d q :
  isdir (copy_classified sp c root f d) q = isdir d q.
Proof.
  rewrite copy_classified_unfold. cbv zeta.
  destruct (Str.endswith f (suffix_of Plugin));
    destruct (Str.endswith f (suffix_of Manifest));
    now rewrite ?copy_into_isdir.
Qed.

(** Nothing is written except at or below the file's place in the
    directory of its kind. *)
Lemma copy_classified_file_at sp c root f d q :
  (forall k, Str.endswith f (suffix_of k) = true ->
             ~ prefix_of (dir_of sp k ++ [f]) q) ->
  file_at (copy_classified sp c root f d) q = file_at d q.
Proof.
  intros H. rewrite copy_classified_unfold. cbv zeta.
  pose proof (H Manifest) as HM. pose proof (H Plugin) as HP.
  destruct (Str.endswith f (suffix_of Plugin));
    destruct (Str.endswith f (suffix_of Manifest));
    rewrite ?copy_into_file_at; auto.
Qed.


(** ** The loop *)

Lemma distribute_list_isdir sp c files d q :
  isdir (distribute_list sp c files d) q = isdir d q.
Proof.
  revert d. induction files as [|[r f] files IH]; intros d; [reflexivity|].
  now rewrite distribute_list_cons, IH, copy_classified_isdir.
Qed.

Lemma distribute_list_file_at sp c files d q :
  (forall r f k, In (r, f) files -> Str.endswith f (suffix_of k) = true ->
                 ~ prefix_of (dir_of sp k ++ [f]) q) ->
  file_at (distribute_list sp c files d) q = file_at d q.
Proof.
  revert d. induction files as [|[r f] files IH]; intros d H; [reflexivity|].
  rewrite distribute_list_cons, IH.
  - apply copy_classified_file_at. intros k. apply (H r). now left.
  - intros r' f' k Hin. apply (H r'). now right.
Qed.











End DistributeFacts.

(* ================================================================== *)
(** * A running batch and the settings dialog *)
(* ================================================================== *)

Module AppFacts.
Import FS Worker App.

Section Run.
Variable http_get : list string -> string -> result response.
Variable unzip : string -> option (list member).

Local Abbreviation tick := (tick http_get unzip).
Local Abbreviation step := (step http_get unzip).
Local Abbreviation exec := (exec http_get unzip).
Local Abbreviation run_items := (run_items http_get unzip).
Local Abbreviation run := (run http_get unzip).

Lemma exec_cons a wk e events s :
  exec a wk (e :: events) s = exec a wk events (step a wk s e).
Proof. reflexivity. Qed.

Lemma exec_emitted a wk n h o w :
  exec a wk (repeat Tick n) {| sys_heap := h; sys_thread := Emitted o; sys_world := w |}
  = {| sys_heap := h; sys_thread := Emitted o; sys_world := w |}.
Proof. induction n as [|n IH]; [reflexivity|]. cbn [repeat]. now rewrite exec_cons. Qed.

(** Left alone, the thread at the head of the loop ends as [run_items]
    says. *)
Lemma exec_loop a wk h sp rest w n :
  2 * List.length rest + 1 <= n ->
  exec a wk (repeat Tick n)
       {| sys_heap := h; sys_thread := AtLoop sp rest; sys_world := w |}
  = {| sys_heap := h;
       sys_thread := Emitted (fst (run_items sp (deref h (settings_of wk)) rest w));
       sys_world := snd (run_items sp (deref h (settings_of wk)) rest w) |}.
Proof.
  revert w n. induction rest as [|name rest IH]; intros w n Hn.
  - destruct n as [|n]; [simpl in Hn; lia|].
    cbn [repeat]. rewrite exec_cons. cbn. apply exec_emitted.
  - destruct n as [|[|n]]; try (simpl in Hn; lia).
    cbn [repeat]. rewrite exec_cons.
    cbn [step App.step App.tick sys_thread sys_heap sys_world fst snd Worker.run_items].
    unfold Worker.process_item.
    destruct (fetch_and_distribute http_get unzip sp name w) as [w1|o w1].
    + cbn [fst snd]. rewrite exec_cons.
      cbn [step App.step App.tick sys_thread sys_heap sys_world fst snd].
      apply IH. simpl in Hn. lia.
    + cbn [fst snd]. rewrite exec_cons. cbn. apply exec_emitted.
Qed.

Lemma exec_created a wk h w n :
  2 * List.length (items wk) + 2 <= n ->
  exec a wk (repeat Tick n)
       {| sys_heap := h; sys_thread := Created; sys_world := w |}
  = {| sys_heap := h;
       sys_thread := Emitted (fst (run (deref h (settings_of wk)) (items wk) w));
       sys_world := snd (run (deref h (settings_of wk)) (items wk) w) |}.
Proof.
  intros Hn. destruct n as [|n]; [lia|].
  cbn [repeat]. rewrite exec_cons.
  cbn [step App.step App.tick sys_thread sys_heap sys_world]. unfold Worker.run.
  destruct (_ || _).
  - cbn [fst snd]. apply exec_emitted.
  - cbn [fst snd]. apply exec_loop. lia.
Qed.

(** Once begun, a step of the thread looks at nothing of the settings
    object but [delete_after]. *)
Lemma tick_same_flag wk h1 h2 t w :
  t <> Created ->
  delete_after (deref h1 (settings_of wk)) =
  delete_after (deref h2 (settings_of wk)) ->
  tick wk h1 t w = tick wk h2 t w /\ fst (tick wk h1 t w) <> Created.
Proof.
  intros Ht Hf. destruct t as [|sp [|name rest]|sp name rest|o];
    try congruence; cbn [App.tick].
  - split; [reflexivity|discriminate].
  - destruct (fetch_and_distribute _ _ _ _ _); split;
      try reflexivity; discriminate.
  - unfold cleanup. rewrite Hf. split; [reflexivity|discriminate].
  - split; [reflexivity|discriminate].
Qed.

Lemma exec_same_flag a wk events1 events2 :
  Forall2 same_flag events1 events2 ->
  forall h1 h2 t w,
  t <> Created ->
  delete_after (deref h1 (settings_of wk)) =
  delete_after (deref h2 (settings_of wk)) ->
  sys_thread (exec a wk events1 {| sys_heap := h1; sys_thread := t; sys_world := w |})
  = sys_thread (exec a wk events2 {| sys_heap := h2; sys_thread := t; sys_world := w |})
  /\ sys_world (exec a wk events1 {| sys_heap := h1; sys_thread := t; sys_world := w |})
  = sys_world (exec a wk events2 {| sys_heap := h2; sys_thread := t; sys_world := w |}).
Proof.
  induction 1 as [|e1 e2 events1 events2 He Hrest IH]; intros h1 h2 t w Ht Hf.
  - split; reflexivity.
  - rewrite !exec_cons. destruct He as [|d1 d2 Hd].
    + cbn [step App.step sys_heap sys_thread sys_world].
      destruct (tick_same_flag wk h1 h2 t w Ht Hf) as [E Hc].
      rewrite <- E. now apply IH.
    + cbn [step App.step sys_heap sys_thread sys_world].
      apply IH; [assumption|].
      unfold open_settings, assign, deref.
      now destruct (Nat.eqb _ _).
Qed.

(** C9 (amended): the worker holds the application's settings object
    itself, not a copy, and the list of items it was given. A run nobody
    disturbs ends as [run] says for the settings as they are. Once the
    thread has begun (it has read the installation path), two courses of
    events that agree on [delete_after] -- in the object at the start
    and in every dialog saved -- leave the thread and the world in the
    same state: the path and the other settings can change with no
    effect on the running batch, [delete_after] cannot. *)
Theorem batch_reads_live_settings a batch :
  settings_of (start_processing a batch) = settings_values a
  /\ items (start_processing a batch) = batch
  /\ (forall h w n,
        2 * List.length batch + 2 <= n ->
        exec a (start_processing a batch) (repeat Tick n)
             (snd (submit a batch h w))
        = {| sys_heap := h;
             sys_thread :=
               Emitted (fst (run (deref h (settings_values a)) batch w));
             sys_world := snd (run (deref h (settings_values a)) batch w) |})
  /\ (forall events1 events2 h1 h2 t w,
        Forall2 same_flag events1 events2 ->
        t <> Created ->
        delete_after (deref h1 (settings_values a)) =
        delete_after (deref h2 (settings_values a)) ->
        sys_thread (exec a (start_processing a batch) events1
                      {| sys_heap := h1; sys_thread := t; sys_world := w |})
        = sys_thread (exec a (start_processing a batch) events2
                        {| sys_heap := h2; sys_thread := t; sys_world := w |})
        /\ sys_world (exec a (start_processing a batch) events1
                        {| sys_heap := h1; sys_thread := t; sys_world := w |})
        = sys_world (exec a (start_processing a batch) events2
                       {| sys_heap := h2; sys_thread := t; sys_world := w |})).
Proof.
  split; [reflexivity|]. split; [reflexivity|]. split.
  - intros h w n Hn. apply (exec_created a (start_processing a batch)).
    exact Hn.
  - intros events1 events2 h1 h2 t w Hev Ht Hf.
    now apply exec_same_flag.
Qed.

End Run.

End AppFacts.

(* ================================================================== *)
(** * The overlay routine: what is checked before anything is written *)
(* ================================================================== *)

Module OverlayFacts.
Import FS FSFacts Overlay.

Lemma first_data_dir_some t listing name :
  first_data_dir t listing = Some name <->
  exists l1 l2, listing = l1 ++ name :: l2 /\
                is_data_dir t name = true /\
                forall x, In x l1 -> is_data_dir t x = false.
Proof.
  induction listing as [|y listing IH]; cbn [first_data_dir].
  - split; [discriminate|]. intros (l1 & l2 & H & _). now destruct l1.
  - fold (is_data_dir t y). destruct (is_data_dir t y) eqn:E.
    + split.
      * intros [= ->]. exists [], listing. repeat split; [assumption|].
        intros x [].
      * intros (l1 & l2 & H & Hn & Hl1). destruct l1 as [|z l1].
        -- now inversion H.
        -- inversion H; subst. rewrite (Hl1 z) in E; [discriminate|now left].
    + rewrite IH. split.
      * intros (l1 & l2 & -> & Hn & Hl1). exists (y :: l1), l2.
        repeat split; [assumption|]. intros x [<-|Hx]; auto.
      * intros (l1 & l2 & H & Hn & Hl1). destruct l1 as [|z l1].
        -- inversion H; subst. congruence.
        -- inversion H; subst. exists l1, l2. repeat split; [assumption|].
           intros x Hx. apply Hl1. now right.
Qed.

Lemma first_data_dir_none t listing :
  first_data_dir t listing = None <->
  forall x, In x listing -> is_data_dir t x = false.
Proof.
  induction listing as [|y listing IH]; cbn [first_data_dir].
  - split; [intros _ x []|reflexivity].
  - fold (is_data_dir t y). destruct (is_data_dir t y) eqn:E.
    + split; [discriminate|]. intros H. rewrite (H y) in E; [discriminate|now left].
    + rewrite IH. split.
      * intros H x [<-|Hx]; auto.
      * intros H x Hx. apply H. now right.
Qed.

(** The routine ends without [Applied] or [OverlayApplyFailed] only
    before its first write. *)
Lemma insert_online_fix_refused files t o t' :
  insert_online_fix files t = (o, t') ->
  o = UnsupportedTarget \/ o = MissingOverlayAssets -> t' = t.
Proof.
  unfold insert_online_fix. intros H Ho.
  destruct (negb (exists_ t [MARKER])); [now inversion H|].
  destruct (find_data_folder t); [|now inversion H].
  destruct (negb (exists_ files ONLINE_FIX_DIR)); [now inversion H|].
  destruct (_ || _); [now inversion H|].
  destruct (listdir files ONLINE_FIX_DIR);
    [|inversion H; subst; destruct Ho; discriminate].
  destruct (copy_tops files a t) as [t1 [e|]];
    [inversion H; subst; destruct Ho; discriminate|].
  destruct (merge_walk _ _ _ _ t1) as [t2 [e|]];
    inversion H; subst; destruct Ho; discriminate.
Qed.

(** C5: without the marker file the routine ends with
    [UnsupportedTarget]; with it, but with no directory whose
    lower-cased name contains "data", again with [UnsupportedTarget];
    with both, but without the overlay directory or its "Data"
    directory, with [MissingOverlayAssets]; each time the chosen
    directory is returned as it was. The data directory found is the
    first name of the listing that passes the test, and none is found
    only when no name passes it. Whenever the routine ends with one of
    the two refusals, the directory is unchanged. *)
Theorem preconditions_before_writes files t :
  (exists_ t [MARKER] = false ->
   insert_online_fix files t = (UnsupportedTarget, t))
  /\ (exists_ t [MARKER] = true -> find_data_folder t = None ->
      insert_online_fix files t = (UnsupportedTarget, t))
  /\ (forall name,
        exists_ t [MARKER] = true -> find_data_folder t = Some name ->
        exists_ files ONLINE_FIX_DIR = false \/ isdir files SRC_DATA = false ->
        insert_online_fix files t = (MissingOverlayAssets, t))
  /\ (forall es, t = Dir es ->
        (forall name,
           find_data_folder t = Some name <->
           exists l1 l2, names es = l1 ++ name :: l2 /\
                         is_data_dir t name = true /\
                         forall x, In x l1 -> is_data_dir t x = false)
        /\ (find_data_folder t = None <->
            forall x, In x (names es) -> is_data_dir t x = false))
  /\ (forall o t',
        insert_online_fix files t = (o, t') ->
        o = UnsupportedTarget \/ o = MissingOverlayAssets -> t' = t).
Proof.
  split; [|split; [|split; [|split]]].
  - intros H. unfold insert_online_fix. now rewrite H.
  - intros Hm Hf. unfold insert_online_fix. now rewrite Hm, Hf.
  - intros name Hm Hf Hmiss. unfold insert_online_fix. rewrite Hm, Hf.
    cbn [negb]. destruct Hmiss as [H|H].
    + now rewrite H.
    + rewrite H. cbn [negb]. rewrite orb_true_r.
      now destruct (negb (exists_ files ONLINE_FIX_DIR)).
  - intros es ->. unfold find_data_folder, listdir. cbn [lookup]. split.
    + intros name. apply first_data_dir_some.
    + apply first_data_dir_none.
  - apply insert_online_fix_refused.
Qed.

End OverlayFacts.

(* ================================================================== *)
(** * The overlay routine: the merge of the "Data" directory *)
(* ================================================================== *)

Module MergeFacts.
Import FS FSFacts Overlay.

(** A change that puts back what is there changes nothing. *)
Lemma modify_noop p f n v :
  p <> [] -> lookup n p = Some v -> f (Some v) = Ok (Some v) ->
  modify p f n = Ok n.
Proof.
  revert n. induction p as [|c p IH]; intros n Hp Hl Hf; [congruence|].
  destruct n as [|es]; [discriminate|]. rewrite lookup_cons_dir in Hl.
  destruct (assoc c es) as [child|] eqn:Ea; [|discriminate].
  destruct p as [|c' p].
  - cbn [lookup] in Hl. inversion Hl; subst.
    rewrite modify_last, Ea, Hf. cbn [bind].
    now rewrite set_entry_same_value.
  - rewrite modify_deeper, Ea, (IH child); [|discriminate|assumption|assumption].
    cbn [bind]. now rewrite set_entry_same_value.
Qed.

Lemma write_file_noop p data n :
  p <> [] -> lookup n p = Some (File data) -> write_file p data n = Ok n.
Proof. intros Hp Hl. now apply modify_noop with (v := File data). Qed.

Lemma write_file_not_dir p data n n' :
  write_file p data n = Ok n' -> isdir n p = false.
Proof.
  intros H. rewrite <- (write_file_isdir _ _ _ _ p H). unfold isdir.
  now rewrite (write_file_at _ _ _ _ H).
Qed.

Lemma write_file_nonempty p data n n' : write_file p data n = Ok n' -> p <> [].
Proof. intros H ->. destruct n; discriminate. Qed.

Lemma dirname_last (p : path) (c : string) : dirname (p ++ [c]) = p.
Proof. unfold dirname. apply removelast_last. Qed.

Lemma basename_last (p : path) (c : string) : basename (p ++ [c]) = c.
Proof. unfold basename. apply last_last. Qed.

Lemma isdir_agree n m p :
  lookup n p = lookup m p -> forall q, lookup n (p ++ q) = lookup m (p ++ q).
Proof. intros H q. now rewrite !lookup_app, H. Qed.

(** One guarded copy again: when the tree agrees, at and below the
    destination, with what the copy left there, the copy changes
    nothing. *)
Lemma write_file_replay p data x z :
  isdir x (dirname p) = true ->
  lookup z p = lookup (swallow (write_file p data x) x) p ->
  swallow (write_file p data z) z = z.
Proof.
  intros Hparent Hagree.
  destruct (write_file p data z) as [z1|e] eqn:Ez; [|reflexivity].
  cbn [swallow].
  assert (Hne : p <> []) by (eapply write_file_nonempty; eauto).
  assert (Hfile : lookup z p = Some (File data)).
  { rewrite Hagree.
    destruct (write_file p data x) as [x1|e] eqn:Ex; cbn [swallow] in *.
    - eapply write_file_at; eauto.
    - exfalso.
      destruct (write_file_succeeds p data x Hne Hparent) as [x1 Hx1];
        [|congruence].
      pose proof (write_file_not_dir _ _ _ _ Ez) as Hnd.
      unfold isdir in *. now rewrite <- Hagree. }
  rewrite write_file_noop in Ez by assumption. congruence.
Qed.

Lemma copy2_replay files s dst f x z :
  isdir x dst = true ->
  lookup z (dst ++ [f]) = lookup (swallow (copy2 files s (dst ++ [f]) x) x) (dst ++ [f]) ->
  swallow (copy2 files s (dst ++ [f]) z) z = z.
Proof.
  intros Hx Hagree. unfold copy2 in *.
  destruct (read_file files s) as [data|e]; [|reflexivity]. cbn [bind] in *.
  assert (Hdir : isdir z (dst ++ [f]) = isdir x (dst ++ [f])).
  { unfold isdir at 1. rewrite Hagree.
    destruct (write_file _ data x) eqn:E; [|reflexivity]. cbn [swallow].
    eapply write_file_isdir; eauto. }
  rewrite Hdir. destruct (isdir x (dst ++ [f])) eqn:Eb.
  - apply write_file_replay with (x := x).
    + now rewrite dirname_last.
    + now apply isdir_agree.
  - apply write_file_replay with (x := x).
    + now rewrite dirname_last.
    + assumption.
Qed.

(** The same for a copy that is not guarded and went through. *)
Lemma copy2_again files s dst x x' z :
  copy2 files s dst x = Ok x' -> dst <> [] ->
  lookup z dst = lookup x' dst ->
  copy2 files s dst z = Ok z.
Proof.
  unfold copy2. intros H Hne Hagree.
  destruct (read_file files s) as [data|e]; [|discriminate]. cbn [bind] in *.
  assert (Hdir : isdir z dst = isdir x dst).
  { rewrite <- (write_file_isdir _ _ _ _ dst H). unfold isdir. now rewrite Hagree. }
  rewrite Hdir. apply write_file_noop.
  - eapply write_file_nonempty; eauto.
  - pose proof (write_file_at _ _ _ _ H) as Hat.
    destruct (isdir x dst).
    + now rewrite (isdir_agree _ _ _ Hagree).
    + congruence.
Qed.


(** Writing a file twice at one place is writing it once. *)
Lemma write_file_twice p d1 d2 n n1 :
  write_file p d1 n = Ok n1 -> write_file p d2 n1 = write_file p d2 n.
Proof.
  unfold write_file.
  set (f1 := fun old : option node =>
               match old with
               | Some (Dir _) => Raise IsADirectoryError
               | _ => Ok (Some (File d1))
               end).
  set (f2 := fun old : option node =>
               match old with
               | Some (Dir _) => Raise IsADirectoryError
               | _ => Ok (Some (File d2))
               end).
  revert n n1.
  induction p as [|c p IH]; intros n n1 H; destruct n as [|es]; try discriminate.
  destruct p as [|c' p].
  - rewrite modify_last in H. rewrite modify_last.
    destruct (assoc c es) as [[x|ex]|] eqn:Ea; cbn [bind f1] in H;
      try discriminate; inversion H; subst;
      rewrite modify_last, assoc_set_entry_same; cbn [bind f2];
      now rewrite set_entry_twice.
  - rewrite modify_deeper in H. rewrite (modify_deeper c c' p f2 es).
    destruct (assoc c es) as [child|] eqn:Ea; [|discriminate].
    destruct (modify (c' :: p) f1 child) as [child'|] eqn:Ec; [|discriminate].
    cbn [bind] in H. inversion H; subst.
    rewrite modify_deeper, assoc_set_entry_same, (IH _ _ Ec).
    destruct (modify (c' :: p) f2 child) as [child''|]; [|reflexivity].
    cbn [bind]. now rewrite set_entry_twice.
Qed.

(** A write keeps a regular file a regular file. *)
Lemma write_file_keeps_file p c n n' q d :
  write_file p c n = Ok n' -> file_at n q = Some d ->
  exists d', file_at n' q = Some d'.
Proof.
  intros H Hq. destruct (path_trichotomy p q) as [Hd|[[r ->]|(r & Hr & ->)]].
  - exists d. unfold file_at in *. now rewrite (write_file_frame _ _ _ _ _ H Hd).
  - destruct r as [|k r].
    + exists c. rewrite app_nil_r. unfold file_at.
      now rewrite (write_file_at _ _ _ _ H).
    + pose proof (write_file_not_dir _ _ _ _ H) as Hn.
      unfold file_at in Hq. unfold isdir in Hn. rewrite lookup_app in Hq.
      destruct (lookup n p) as [[x|ex]|]; try discriminate.
  - pose proof (modify_ancestor_isdir _ _ _ _ _ H Hr) as Hdir.
    now rewrite (file_at_of_isdir _ _ Hdir) in Hq.
Qed.

(** Whether a write goes through depends on the directories only. *)
Lemma write_file_raises p c a b e :
  (forall q, isdir b q = isdir a q) ->
  write_file p c a = Raise e -> exists e', write_file p c b = Raise e'.
Proof.
  intros Hiso Ha. destruct (write_file p c b) as [b'|e'] eqn:Eb; [|eauto].
  exfalso.
  assert (Hp : p <> []) by (eapply write_file_nonempty; eauto).
  destruct (write_file_succeeds p c a) as [a' Ea]; [assumption| | |congruence].
  - rewrite <- Hiso. destruct (exists_last Hp) as (q & k & ->).
    rewrite dirname_last. eapply modify_ancestor_isdir; eauto. discriminate.
  - rewrite <- Hiso. eapply write_file_not_dir; eauto.
Qed.

Section Merge.
Variable files : node.
Variables sd df : path.

Local Abbreviation dest := (dest sd df).
Local Abbreviation copy_step := (copy_step files sd df).
Local Abbreviation copy_files := (copy_files files sd df).
Local Abbreviation settled := (settled files sd df).
Local Abbreviation saturated := (saturated files sd df).
Local Abbreviation settles := (settles files sd df).


Lemma copy_files_cons root f fs t :
  copy_files root (f :: fs) t = copy_files root fs (copy_step root f t).
Proof. reflexivity. Qed.

Lemma merge_dir_unfold root ds fs t :
  merge_dir files sd df (root, ds, fs) t =
  (t1 <- makedirs (dest root) t ;; Ok (copy_files root fs t1)).
Proof. reflexivity. Qed.

Lemma dest_app rel : dest (sd ++ rel) = df ++ rel.
Proof.
  unfold dest. rewrite skipn_app, skipn_all, Nat.sub_diag. reflexivity.
Qed.

Lemma copy_step_isdir root f t q : isdir (copy_step root f t) q = isdir t q.
Proof.
  unfold copy_step. destruct (copy2 _ _ _ t) eqn:E; [|reflexivity].
  eapply copy2_isdir; eauto.
Qed.

Lemma copy_step_frame root f t q :
  diverge (dest root ++ [f]) q -> lookup (copy_step root f t) q = lookup t q.
Proof.
  unfold copy_step. intros Hd. destruct (copy2 _ _ _ t) eqn:E; [|reflexivity].
  eapply copy2_frame; eauto.
Qed.

Lemma copy_files_isdir root fs t q : isdir (copy_files root fs t) q = isdir t q.
Proof.
  revert t. induction fs as [|f fs IH]; intros t; [reflexivity|].
  cbn [copy_files fold_left]. fold (copy_files root fs (copy_step root f t)).
  now rewrite IH, copy_step_isdir.
Qed.

Lemma copy_files_frame root fs t q :
  (forall f, In f fs -> diverge (dest root ++ [f]) q) ->
  lookup (copy_files root fs t) q = lookup t q.
Proof.
  revert t. induction fs as [|f fs IH]; intros t H; [reflexivity|].
  cbn [copy_files fold_left]. fold (copy_files root fs (copy_step root f t)).
  rewrite IH, copy_step_frame; auto using in_eq, in_cons.
Qed.

Lemma merge_dir_isdir triple t t' q :
  merge_dir files sd df triple t = Ok t' ->
  isdir t q = true -> isdir t' q = true.
Proof.
  destruct triple as [[root ds] fs]. rewrite merge_dir_unfold. intros H Hq.
  destruct (makedirs (dest root) t) as [t1|] eqn:E; [|discriminate].
  inversion H; subst. rewrite copy_files_isdir.
  eapply makedirs_keeps_isdir; eauto.
Qed.

Lemma merge_dir_frame triple t t' q :
  merge_dir files sd df triple t = Ok t' ->
  diverge (dest (fst (fst triple))) q -> lookup t' q = lookup t q.
Proof.
  destruct triple as [[root ds] fs]. rewrite merge_dir_unfold. cbn [fst].
  intros H Hq.
  destruct (makedirs (dest root) t) as [t1|] eqn:E; [|discriminate].
  inversion H; subst. rewrite copy_files_frame.
  - eapply makedirs_frame; eauto.
  - intros f _. now apply diverge_app_l.
Qed.

Lemma merge_walk_app l1 l2 t :
  merge_walk files sd df (l1 ++ l2) t =
  match merge_walk files sd df l1 t with
  | (t1, None) => merge_walk files sd df l2 t1
  | (t1, Some e) => (t1, Some e)
  end.
Proof.
  revert t. induction l1 as [|x l1 IH]; intros t; [reflexivity|].
  cbn [merge_walk app]. destruct (merge_dir files sd df x t); [apply IH|reflexivity].
Qed.

Lemma merge_walk_isdir triples t t' oe q :
  merge_walk files sd df triples t = (t', oe) ->
  isdir t q = true -> isdir t' q = true.
Proof.
  revert t. induction triples as [|x l IH]; intros t H Hq; cbn [merge_walk] in H.
  - now inversion H; subst.
  - destruct (merge_dir files sd df x t) as [t1|] eqn:E.
    + eapply IH; eauto. eapply merge_dir_isdir; eauto.
    + now inversion H; subst.
Qed.

Lemma merge_walk_frame triples t t' oe q :
  merge_walk files sd df triples t = (t', oe) ->
  (forall x, In x triples -> diverge (dest (fst (fst x))) q) ->
  lookup t' q = lookup t q.
Proof.
  revert t. induction triples as [|x l IH]; intros t H Hq; cbn [merge_walk] in H.
  - now inversion H; subst.
  - destruct (merge_dir files sd df x t) as [t1|] eqn:E.
    + rewrite (IH _ H) by auto using in_cons.
      eapply merge_dir_frame; eauto using in_eq.
    + now inversion H; subst.
Qed.

(** ** The state a merge leaves is settled *)


Lemma copy_files_settled root fs z :
  (forall f, In f fs -> copy_step root f z = z) -> copy_files root fs z = z.
Proof.
  induction fs as [|f fs IH]; intros H; [reflexivity|].
  cbn [copy_files fold_left]. rewrite (H f) by apply in_eq.
  apply IH. auto using in_cons.
Qed.

Lemma saturated_merge_walk triples z :
  saturated triples z -> merge_walk files sd df triples z = (z, None).
Proof.
  induction 1 as [|[[root ds] fs] l [Hd Hf] _ IH]; [reflexivity|].
  cbn [merge_walk]. rewrite merge_dir_unfold. cbn [fst snd] in *.
  rewrite (makedirs_existing _ _ Hd). cbn [bind].
  now rewrite copy_files_settled.
Qed.

Lemma copy_files_app root l1 l2 t :
  copy_files root (l1 ++ l2) t = copy_files root l2 (copy_files root l1 t).
Proof. apply fold_left_app. Qed.

Lemma diverge_prefix p a b : diverge a b -> diverge (p ++ a) (p ++ b).
Proof. induction p as [|c p IH]; intros H; [assumption|]. simpl. right. auto. Qed.

Lemma diverge_extend (a b c s q : path) :
  diverge (a ++ b ++ c) q -> diverge (a ++ b ++ c ++ s) q.
Proof.
  intros H. replace (a ++ b ++ c ++ s) with ((a ++ b ++ c) ++ s)
    by now rewrite <- !app_assoc.
  now apply diverge_app_l.
Qed.

Ltac siblings := repeat apply diverge_prefix; simpl; left.

Lemma nodup_names_filter (pr : string * node -> bool) es :
  NoDup (names es) -> NoDup (names (filter pr es)).
Proof.
  unfold names. induction es as [|e es IH]; intros H; [constructor|].
  inversion H as [|? ? Hn Hes]; subst. cbn [filter].
  destruct (pr e); [|now apply IH]. cbn [map]. constructor; [|now apply IH].
  intros Hin. apply Hn. apply in_map_iff in Hin as (e' & He' & Hin).
  apply filter_In in Hin as [Hin _]. rewrite <- He'. now apply in_map.
Qed.

Lemma walk_node_roots n root r ds fs :
  In (r, ds, fs) (walk_node root n) -> exists suffix, r = root ++ suffix.
Proof.
  revert root. induction n as [d|es IH] using node_induction; intros root Hin.
  - destruct Hin.
  - cbn [walk_node] in Hin. destruct Hin as [Hin|Hin].
    + inversion Hin; subst. exists []. now rewrite app_nil_r.
    + apply in_flat_map in Hin as (e & He & Hin).
      rewrite Forall_forall in IH.
      destruct (IH e He _ Hin) as [suffix ->].
      exists (fst e :: suffix). now rewrite <- app_assoc.
Qed.

(** The triples of the walk below an entry are those of a directory. *)
Lemma walk_node_nonempty_dir n root t :
  In t (walk_node root n) -> is_dir_node n = true.
Proof. destruct n; [intros []|reflexivity]. Qed.

Lemma file_dir_names es f k child :
  NoDup (names es) -> In f (filenames es) -> In (k, child) es ->
  is_dir_node child = true -> k <> f.
Proof.
  intros Hnd Hf Hk Hd ->. apply in_filenames in Hf as [d Hf].
  pose proof (assoc_nodup _ _ _ Hnd Hf) as E.
  rewrite (assoc_nodup _ _ _ Hnd Hk) in E. inversion E; subst. discriminate.
Qed.


Lemma children_settle rel (l : listing) :
  NoDup (names l) ->
  Forall (fun e => wf (snd e)) l ->
  Forall (fun e => settles (snd e)) l ->
  forall y x',
    merge_walk files sd df
      (flat_map (fun e => walk_node ((sd ++ rel) ++ [fst e]) (snd e)) l) y
    = (x', None) ->
    forall z,
      (forall e, In e l ->
         lookup z (df ++ rel ++ [fst e]) = lookup x' (df ++ rel ++ [fst e])) ->
      saturated (flat_map (fun e => walk_node ((sd ++ rel) ++ [fst e]) (snd e)) l) z.
Proof.
  induction l as [|[k child] l IH]; intros Hnd Hwf Hset y x' Hrun z Hz.
  - constructor.
  - cbn [flat_map fst snd] in *. rewrite merge_walk_app in Hrun.
    destruct (merge_walk files sd df (walk_node ((sd ++ rel) ++ [k]) child) y)
      as [y1 [e|]] eqn:E1; [discriminate|].
    inversion Hnd as [|? ? Hk Hnd']; subst.
    inversion Hwf as [|? ? Hwfc Hwf']; subst.
    inversion Hset as [|? ? Hsc Hset']; subst. cbn [snd] in *.
    apply Forall_app. split.
    + rewrite <- app_assoc in E1 |- *.
      apply (Hsc Hwfc (rel ++ [k]) y y1 E1).
      pose proof (Hz (k, child) (in_eq _ _)) as Hzk. cbn [fst] in Hzk.
      rewrite Hzk. eapply merge_walk_frame; eauto.
      intros [[r ds] fs] Hin. cbn [fst].
      apply in_flat_map in Hin as ([k' child'] & Hin' & Hin). cbn [fst snd] in Hin.
      destruct (walk_node_roots _ _ _ _ _ Hin) as [suffix ->].
      rewrite <- !app_assoc, dest_app.
      siblings. intros ->. apply Hk.
      change k with (fst (k, child')). now apply in_map.
    + eapply IH; eauto. intros e He. apply Hz. now right.
Qed.

Lemma merge_settles src : settles src.
Proof.
  induction src as [d|des IH] using node_induction;
    intros Hwf rel x x' Hrun z Hz.
  - constructor.
  - apply wf_dir in Hwf as [Hnd Hwf].
    cbn [walk_node] in *. cbn [merge_walk] in Hrun.
    rewrite merge_dir_unfold, dest_app in Hrun.
    destruct (makedirs (df ++ rel) x) as [xa|] eqn:Ea; [|discriminate].
    cbn [bind] in Hrun.
    set (xb := copy_files (sd ++ rel) (filenames des) xa) in *.
    assert (Hxa : isdir xa (df ++ rel) = true) by (eapply makedirs_isdir_at; eauto).
    assert (Hxb : forall q,
               (forall e, In e des -> is_dir_node (snd e) = true ->
                          diverge (df ++ rel ++ [fst e]) q) ->
               lookup x' q = lookup xb q).
    { intros q Hq. eapply merge_walk_frame; eauto.
      intros [[r ds] fs] Hin. cbn [fst].
      apply in_flat_map in Hin as ([k child] & Hin' & Hin). cbn [fst snd] in Hin.
      pose proof (walk_node_nonempty_dir _ _ _ Hin) as Hd.
      destruct (walk_node_roots _ _ _ _ _ Hin) as [suffix ->].
      rewrite <- !app_assoc, dest_app.
      apply diverge_extend. apply (Hq (k, child)); assumption. }
    constructor.
    + split; cbn [fst snd]; [rewrite dest_app|].
      * unfold isdir. rewrite Hz. fold (isdir x' (df ++ rel)).
        eapply merge_walk_isdir; eauto. subst xb.
        now rewrite copy_files_isdir.
      * intros f Hf.
        destruct (in_split _ _ Hf) as (l1 & l2 & Hsplit).
        assert (Hl2 : ~ In f l2).
        { pose proof (nodup_names_filter
                        (fun e => negb (is_dir_node (snd e))) des Hnd) as Hn.
          fold (filenames des) in Hn. rewrite Hsplit in Hn.
          apply NoDup_remove_2 in Hn. intros Hin. apply Hn.
          apply in_or_app. now right. }
        unfold copy_step. rewrite dest_app.
        apply copy2_replay with (x := copy_files (sd ++ rel) l1 xa).
        -- now rewrite copy_files_isdir.
        -- rewrite (isdir_agree _ _ _ Hz [f]).
           rewrite Hxb.
           ++ subst xb. rewrite Hsplit.
              change (f :: l2) with ([f] ++ l2). rewrite !copy_files_app.
              rewrite copy_files_frame.
              ** cbn [copy_files fold_left]. unfold copy_step.
                 now rewrite dest_app.
              ** intros f' Hf'. rewrite dest_app, <- !app_assoc.
                 siblings. intros ->. contradiction.
           ++ intros [k child] Hin Hd. cbn [fst snd] in *.
              rewrite <- !app_assoc. siblings.
              eapply file_dir_names; eauto.
    + eapply children_settle; eauto.
      intros e He. rewrite !app_assoc. now apply isdir_agree.
Qed.

End Merge.

(** ** A merge into an entry of a directory sees that entry only *)

Section Focus.
Variable files : node.
Variable sd : path.
Variable D : string.

Lemma isdir_focus ex v q :
  assoc D ex = Some v -> isdir (Dir ex) (D :: q) = isdir v q.
Proof. intros H. unfold isdir. now rewrite lookup_cons_dir, H. Qed.

Lemma makedirs_focus ex v q :
  assoc D ex = Some v ->
  makedirs (D :: q) (Dir ex) =
  (v' <- makedirs q v ;; Ok (Dir (set_entry D v' ex))).
Proof. intros H. now rewrite makedirs_cons, H. Qed.

Lemma write_file_focus ex v q data :
  assoc D ex = Some v -> q <> [] ->
  write_file (D :: q) data (Dir ex) =
  (v' <- write_file q data v ;; Ok (Dir (set_entry D v' ex))).
Proof.
  intros H Hq. destruct q as [|c q]; [congruence|].
  unfold write_file. now rewrite modify_deeper, H.
Qed.

Lemma copy2_focus ex v s q :
  assoc D ex = Some v -> q <> [] ->
  copy2 files s (D :: q) (Dir ex) =
  (v' <- copy2 files s q v ;; Ok (Dir (set_entry D v' ex))).
Proof.
  intros H Hq. unfold copy2.
  destruct (read_file files s) as [data|e]; [|reflexivity]. cbn [bind].
  rewrite (isdir_focus _ _ _ H).
  destruct (isdir v q).
  - change ((D :: q) ++ [basename s]) with (D :: (q ++ [basename s])).
    apply write_file_focus; [assumption|]. now destruct q.
  - now apply write_file_focus.
Qed.

Lemma copy_files_focus ex root fs v :
  copy_files files sd [D] root fs (Dir (set_entry D v ex)) =
  Dir (set_entry D (copy_files files sd [] root fs v) ex).
Proof.
  revert v. induction fs as [|f fs IH]; intros v; [reflexivity|].
  rewrite !copy_files_cons, <- IH. f_equal. unfold copy_step, dest. cbn [app].
  rewrite (copy2_focus (set_entry D v ex) v);
    [|apply assoc_set_entry_same|now destruct (skipn _ root)].
  destruct (copy2 files (root ++ [f]) _ v); cbn [bind swallow];
    [now rewrite set_entry_twice|reflexivity].
Qed.

Lemma merge_dir_focus ex v triple :
  assoc D ex = Some v ->
  merge_dir files sd [D] triple (Dir ex) =
  (v' <- merge_dir files sd [] triple v ;; Ok (Dir (set_entry D v' ex))).
Proof.
  intros H. destruct triple as [[root ds] fs]. rewrite !merge_dir_unfold.
  unfold dest. cbn [app]. rewrite (makedirs_focus _ _ _ H).
  destruct (makedirs _ v) as [v1|e]; [|reflexivity]. cbn [bind].
  fold (dest sd [] root). now rewrite copy_files_focus.
Qed.

Lemma merge_walk_focus triples ex v :
  assoc D ex = Some v ->
  merge_walk files sd [D] triples (Dir ex) =
  (Dir (set_entry D (fst (merge_walk files sd [] triples v)) ex),
   snd (merge_walk files sd [] triples v)).
Proof.
  revert ex v. induction triples as [|t l IH]; intros ex v H; cbn [merge_walk].
  - cbn [fst snd]. now rewrite set_entry_same_value.
  - rewrite (merge_dir_focus _ _ _ H).
    destruct (merge_dir files sd [] t v) as [v1|e]; cbn [bind fst snd].
    + rewrite (IH (set_entry D v1 ex) v1) by apply assoc_set_entry_same.
      now rewrite set_entry_twice.
    + now rewrite set_entry_same_value.
Qed.

(** Two directories with the same entry [D]: the merge ends the same
    way and leaves the same entry [D]. *)
Lemma merge_walk_congruence triples x y x' oe :
  lookup x [D] = lookup y [D] -> isdir x [D] = true ->
  merge_walk files sd [D] triples x = (x', oe) ->
  exists y', merge_walk files sd [D] triples y = (y', oe) /\
             lookup y' [D] = lookup x' [D].
Proof.
  intros Hagree Hdir Hrun. unfold isdir in Hdir.
  destruct x as [|ex]; [discriminate|].
  destruct y as [|ey]; [rewrite Hagree in Hdir; discriminate|].
  rewrite !lookup_cons_dir in Hagree. rewrite lookup_cons_dir in Hdir.
  destruct (assoc D ex) as [v|] eqn:Ex; [|discriminate].
  destruct (assoc D ey) as [v'|] eqn:Ey; [|discriminate].
  cbn [lookup] in Hagree. inversion Hagree; subst v'.
  rewrite (merge_walk_focus _ _ _ Ex) in Hrun. inversion Hrun; subst.
  rewrite (merge_walk_focus _ _ _ Ey). eexists. split; [reflexivity|].
  now rewrite !lookup_cons_dir, !assoc_set_entry_same.
Qed.

End Focus.

Section MergeFiles.
Variable files : node.
Variables sd df : path.

Lemma copy_files_file_at root fs t q :
  (forall f, In f fs -> ~ prefix_of (dest sd df root ++ [f]) q) ->
  file_at (copy_files files sd df root fs t) q = file_at t q.
Proof.
  revert t. induction fs as [|f fs IH]; intros t H; [reflexivity|].
  rewrite copy_files_cons, IH by auto using in_cons.
  unfold copy_step. destruct (copy2 _ _ _ t) as [t1|] eqn:E; [|reflexivity].
  cbn [swallow]. eapply copy2_file_at; eauto using in_eq.
Qed.

(** The second loop changes the content of no file, and makes no file,
    except at or below the destination of a file of the walk. *)
Lemma merge_walk_file_at triples t t' oe q :
  merge_walk files sd df triples t = (t', oe) ->
  (forall root ds fs f, In (root, ds, fs) triples -> In f fs ->
                        ~ prefix_of (dest sd df root ++ [f]) q) ->
  file_at t' q = file_at t q.
Proof.
  revert t. induction triples as [|[[root ds] fs] l IH]; intros t H Hq;
    cbn [merge_walk] in H.
  - now inversion H.
  - destruct (merge_dir files sd df (root, ds, fs) t) as [t1|] eqn:E.
    + rewrite (IH _ H) by eauto using in_cons.
      rewrite merge_dir_unfold in E.
      destruct (makedirs (dest sd df root) t) as [t0|] eqn:E0; [|discriminate].
      inversion E; subst.
      rewrite copy_files_file_at by eauto using in_eq.
      eapply makedirs_file_at; eauto.
    + now inversion H.
Qed.

Lemma copy_files_keeps_file root fs t q d :
  file_at t q = Some d ->
  exists d', file_at (copy_files files sd df root fs t) q = Some d'.
Proof.
  revert t d. induction fs as [|f fs IH]; intros t d H; [eauto|].
  rewrite copy_files_cons. unfold copy_step.
  destruct (copy2 _ _ _ t) as [t1|] eqn:E; cbn [swallow]; [|eauto].
  unfold copy2 in E. destruct (read_file files _); [|discriminate].
  cbn [bind] in E. destruct (write_file_keeps_file _ _ _ _ _ _ E H) as [d' Hd'].
  eauto.
Qed.

Lemma merge_walk_keeps_file triples t t' oe q d :
  merge_walk files sd df triples t = (t', oe) ->
  file_at t q = Some d -> exists d', file_at t' q = Some d'.
Proof.
  revert t d. induction triples as [|[[root ds] fs] l IH]; intros t d H Hq;
    cbn [merge_walk] in H.
  - inversion H; subst. eauto.
  - destruct (merge_dir files sd df (root, ds, fs) t) as [t1|] eqn:E.
    + rewrite merge_dir_unfold in E.
      destruct (makedirs (dest sd df root) t) as [t0|] eqn:E0; [|discriminate].
      inversion E; subst.
      rewrite <- (makedirs_file_at _ _ _ q E0) in Hq.
      destruct (copy_files_keeps_file root fs t0 q d Hq) as [d' Hd']. eauto.
    + inversion H; subst. eauto.
Qed.

End MergeFiles.

End MergeFacts.

(* ================================================================== *)
(** * The overlay routine: what a successful run leaves *)
(* ================================================================== *)

Module ApplyFacts.
Import FS FSFacts Overlay MergeFacts.


Section Apply.
Variable files : node.

Local Abbreviation entry_done := (entry_done files).

Lemma copy_top_skipped item t :
  skipped item = true -> copy_top files item t = Ok t.
Proof. unfold copy_top, skipped. now intros ->. Qed.

Lemma copy_top_dir_unfold item t :
  skipped item = false -> isdir files (source item) = true ->
  copy_top files item t =
  (t1 <- (if exists_ t [item] then rmtree [item] t else Ok t) ;;
   match lookup files (source item) with
   | Some sub => copytree sub [item] t1
   | None => Raise FileNotFoundError
   end).
Proof. unfold copy_top, skipped, source. now intros -> ->. Qed.

Lemma copy_top_file_unfold item t :
  skipped item = false -> isdir files (source item) = false ->
  copy_top files item t = copy2 files (source item) [item] t.
Proof. unfold copy_top, skipped, source. now intros -> ->. Qed.

Lemma copy_top_frame item t t' k q :
  copy_top files item t = Ok t' -> k <> item ->
  lookup t' (k :: q) = lookup t (k :: q).
Proof.
  intros H Hk. destruct (skipped item) eqn:Es.
  - rewrite copy_top_skipped in H by assumption. now inversion H.
  - destruct (isdir files (source item)) eqn:Ed.
    + rewrite copy_top_dir_unfold in H by assumption.
      destruct (if exists_ t [item] then _ else _) as [t1|] eqn:E1; [|discriminate].
      cbn [bind] in H.
      destruct (lookup files (source item)) as [sub|]; [|discriminate].
      rewrite (modify_frame _ _ _ _ (k :: q) H) by (simpl; left; congruence).
      destruct (exists_ t [item]); [|now inversion E1].
      apply (rmtree_frame _ _ _ (k :: q) E1). simpl. left. congruence.
    + rewrite copy_top_file_unfold in H by assumption.
      apply (copy2_frame _ _ _ _ _ (k :: q) H). simpl. left. congruence.
Qed.

Lemma copy_top_dir item t t' sub :
  skipped item = false -> lookup files (source item) = Some (Dir sub) ->
  copy_top files item t = Ok t' -> lookup t' [item] = Some (Dir sub).
Proof.
  intros Hs Hl H.
  assert (Hd : isdir files (source item) = true) by (unfold isdir; now rewrite Hl).
  rewrite copy_top_dir_unfold, Hl in H by assumption.
  destruct (if exists_ t [item] then _ else _) as [t1|]; [|discriminate].
  cbn [bind] in H. unfold copytree in H.
  apply modify_lookup_at in H; [|discriminate].
  destruct (lookup t1 [item]); inversion H; auto.
Qed.

Lemma copy_top_dir_again item z sub :
  skipped item = false -> lookup files (source item) = Some (Dir sub) ->
  isdir z [item] = true ->
  exists z', copy_top files item z = Ok z' /\ lookup z' [item] = Some (Dir sub).
Proof.
  intros Hs Hl Hz.
  assert (Hd : isdir files (source item) = true) by (unfold isdir; now rewrite Hl).
  rewrite copy_top_dir_unfold, Hl by assumption.
  assert (He : exists_ z [item] = true).
  { unfold isdir in Hz. unfold exists_. now destruct (lookup z [item]). }
  rewrite He. destruct (rmtree_succeeds [item] z) as [z1 E1];
    [discriminate|assumption|].
  rewrite E1. cbn [bind].
  pose proof (rmtree_at _ _ _ E1) as Hgone.
  destruct (modify_succeeds [item]
              (fun old => match old with
                          | None => Ok (Some (Dir sub))
                          | Some _ => Raise FileExistsError
                          end) z1 (Some (Dir sub))) as [z' E2].
  - discriminate.
  - destruct (modify_is_dir _ _ _ _ E1) as [_ Hz1].
    unfold dirname, isdir. cbn. now destruct z1.
  - now rewrite Hgone.
  - exists z'. split; [exact E2|].
    apply modify_lookup_at in E2; [|discriminate].
    rewrite Hgone in E2. now inversion E2.
Qed.

Lemma copy_tops_frame items t t' oe k q :
  copy_tops files items t = (t', oe) -> ~ In k items ->
  lookup t' (k :: q) = lookup t (k :: q).
Proof.
  revert t. induction items as [|i l IH]; intros t H Hk; cbn [copy_tops] in H.
  - now inversion H.
  - destruct (copy_top files i t) as [t1|] eqn:E.
    + rewrite (IH _ H) by (intros Hin; apply Hk; now right).
      eapply copy_top_frame; eauto. intros ->. apply Hk. now left.
    + now inversion H.
Qed.


Lemma copy_tops_done_from items t0 t ta :
  NoDup items ->
  (forall i, In i items -> lookup t [i] = lookup t0 [i]) ->
  copy_tops files items t = (ta, None) ->
  forall i, In i items -> entry_done t0 ta i.
Proof.
  revert t. induction items as [|j l IH]; intros t Hnd Hsame H i Hi;
    [destruct Hi|].
  cbn [copy_tops] in H.
  destruct (copy_top files j t) as [t1|] eqn:E; [|discriminate].
  inversion Hnd as [|? ? Hj Hnd']; subst.
  destruct Hi as [<-|Hi].
  - pose proof (copy_tops_frame _ _ _ _ j [] H Hj) as Hta.
    destruct (skipped j) eqn:Es.
    + apply done_skipped; [assumption|].
      rewrite copy_top_skipped in E by assumption. inversion E; subst.
      rewrite Hta. apply Hsame. now left.
    + destruct (isdir files (source j)) eqn:Ed.
      * unfold isdir in Ed.
        destruct (lookup files (source j)) as [[d|sub]|] eqn:El; try discriminate.
        apply (done_dir _ _ _ _ sub); try assumption.
        rewrite Hta. eapply copy_top_dir; eauto.
      * rewrite copy_top_file_unfold in E by assumption.
        apply (done_file _ _ _ _ t t1); try assumption.
        apply Hsame. now left.
  - apply (IH t1); try assumption.
    intros k Hk. rewrite <- (Hsame k) by now right.
    eapply copy_top_frame; eauto. intros ->. contradiction.
Qed.

Lemma copy_tops_done items t ta :
  NoDup items -> copy_tops files items t = (ta, None) ->
  forall i, In i items -> entry_done t ta i.
Proof. intros Hnd H. eapply copy_tops_done_from; eauto. Qed.

(** The first loop again, on a directory [z] in which the directories
    of the overlay are directories and the files of the overlay are as
    the first run left them: it goes through, puts the directories
    back and changes nothing else. *)
Lemma copy_tops_again t ta items z :
  NoDup items ->
  (forall i, In i items -> entry_done t ta i) ->
  (forall i, In i items -> skipped i = false ->
             isdir files (source i) = true -> isdir z [i] = true) ->
  (forall i, In i items -> skipped i = false ->
             isdir files (source i) = false -> lookup z [i] = lookup ta [i]) ->
  exists za,
    copy_tops files items z = (za, None) /\
    (forall k, ~ In k items -> lookup za [k] = lookup z [k]) /\
    (forall i, In i items ->
       lookup za [i] =
       if skipped i || negb (isdir files (source i))
       then lookup z [i] else lookup ta [i]).
Proof.
  revert z. induction items as [|j l IH]; intros z Hnd Hdone Hdirs Hfiles.
  - exists z. repeat split; auto. intros i [].
  - inversion Hnd as [|? ? Hj Hnd']; subst.
    assert (Hstep : exists z1,
               copy_top files j z = Ok z1 /\
               lookup z1 [j] =
               if skipped j || negb (isdir files (source j))
               then lookup z [j] else lookup ta [j]).
    { destruct (Hdone j (in_eq _ _)) as [Hs Ht|sub Hs Hl Hta|x x' Hs Hd Hc Hx Hta].
      - exists z. rewrite copy_top_skipped, Hs by assumption. auto.
      - assert (Hd : isdir files (source j) = true)
          by (unfold isdir; now rewrite Hl).
        destruct (copy_top_dir_again j z sub Hs Hl) as (z1 & E & Hz1).
        + apply Hdirs; auto using in_eq.
        + exists z1. rewrite Hs, Hd. cbn [orb negb]. split; congruence.
      - exists z. rewrite Hs, Hd. cbn [orb negb]. split; [|reflexivity].
        rewrite copy_top_file_unfold by assumption.
        eapply copy2_again; eauto; [discriminate|].
        rewrite <- Hta. apply Hfiles; auto using in_eq. }
    destruct Hstep as (z1 & E1 & Hz1).
    assert (Hfr : forall k, k <> j -> lookup z1 [k] = lookup z [k]).
    { intros k Hk. eapply copy_top_frame; eauto. }
    destruct (IH z1) as (za & Ea & Hout & Hin); try assumption.
    + intros i Hi. apply Hdone. now right.
    + intros i Hi Hs Hd. unfold isdir. rewrite Hfr.
      * apply Hdirs; auto using in_cons.
      * intros ->. contradiction.
    + intros i Hi Hs Hd. rewrite Hfr.
      * apply Hfiles; auto using in_cons.
      * intros ->. contradiction.
    + exists za. cbn [copy_tops]. rewrite E1. split; [assumption|]. split.
      * intros k Hk. rewrite Hout by (intros Hi; apply Hk; now right).
        apply Hfr. intros ->. apply Hk. now left.
      * intros i [<-|Hi].
        -- rewrite Hout by assumption. exact Hz1.
        -- rewrite Hin by assumption.
           rewrite Hfr; [reflexivity|]. intros ->. contradiction.
Qed.

(** ** The whole routine *)

Lemma applied_inv t t1 :
  insert_online_fix files t = (Applied, t1) ->
  exists D items ta,
    exists_ t [MARKER] = true /\
    find_data_folder t = Some D /\
    exists_ files ONLINE_FIX_DIR = true /\
    isdir files SRC_DATA = true /\
    listdir files ONLINE_FIX_DIR = Ok items /\
    copy_tops files items t = (ta, None) /\
    merge_walk files SRC_DATA [D] (walk files SRC_DATA) ta = (t1, None).
Proof.
  unfold insert_online_fix. intros H.
  destruct (exists_ t [MARKER]) eqn:E1; [|discriminate]. cbn [negb] in H.
  destruct (find_data_folder t) as [D|] eqn:E2; [|discriminate].
  destruct (exists_ files ONLINE_FIX_DIR) eqn:E3; [|discriminate].
  cbn [negb] in H.
  destruct (isdir files SRC_DATA) eqn:E4;
    [|rewrite orb_true_r in H; discriminate].
  destruct (negb (exists_ files SRC_DATA)); [discriminate|]. cbn [negb orb] in H.
  destruct (listdir files ONLINE_FIX_DIR) as [items|] eqn:E5; [|discriminate].
  destruct (copy_tops files items t) as [ta [e|]] eqn:E6; [discriminate|].
  destruct (merge_walk _ _ _ _ ta) as [t2 [e|]] eqn:E7; [discriminate|].
  inversion H; subst. exists D, items, ta. repeat split; assumption.
Qed.

Lemma applied_intro t D items ta t1 :
  exists_ t [MARKER] = true ->
  find_data_folder t = Some D ->
  isdir files SRC_DATA = true ->
  listdir files ONLINE_FIX_DIR = Ok items ->
  copy_tops files items t = (ta, None) ->
  merge_walk files SRC_DATA [D] (walk files SRC_DATA) ta = (t1, None) ->
  insert_online_fix files t = (Applied, t1).
Proof.
  intros Hm Hf Hd Hl Hc Hw. unfold insert_online_fix.
  rewrite Hm, Hf, Hd, Hl, Hc, Hw. cbn [negb].
  assert (He : exists_ files SRC_DATA = true).
  { unfold isdir in Hd. unfold exists_. now destruct (lookup files SRC_DATA). }
  rewrite He. cbn [negb orb].
  assert (Ho : exists_ files ONLINE_FIX_DIR = true).
  { unfold exists_ in *. unfold SRC_DATA in He. rewrite lookup_app in He.
    now destruct (lookup files ONLINE_FIX_DIR). }
  now rewrite Ho.
Qed.

Lemma items_nodup items :
  wf files -> listdir files ONLINE_FIX_DIR = Ok items -> NoDup items.
Proof.
  unfold listdir. intros Hwf H.
  destruct (lookup files ONLINE_FIX_DIR) as [[d|es]|] eqn:E; try discriminate.
  inversion H; subst. apply (wf_lookup _ _ _ Hwf) in E.
  now apply wf_dir in E.
Qed.

Lemma items_in items item v :
  listdir files ONLINE_FIX_DIR = Ok items ->
  lookup files (source item) = Some v -> In item items.
Proof.
  unfold listdir, source. rewrite lookup_app. intros H Hv.
  destruct (lookup files ONLINE_FIX_DIR) as [[d|es]|]; try discriminate.
  inversion H; subst. rewrite lookup_cons_dir in Hv.
  destruct (assoc item es) as [child|] eqn:Ea; [|discriminate].
  apply assoc_in in Ea. change item with (fst (item, child)). now apply in_map.
Qed.

Lemma found_is_dir t D : find_data_folder t = Some D -> isdir t [D] = true.
Proof.
  unfold find_data_folder. destruct (listdir t []); [|discriminate].
  intros H. apply OverlayFacts.first_data_dir_some in H as (_ & _ & _ & H & _).
  unfold Overlay.is_data_dir in H. now apply andb_true_iff in H.
Qed.

(** The merge changes nothing outside the data directory. *)
Lemma merge_frame_top D triples ta t1 oe k q :
  merge_walk files SRC_DATA [D] triples ta = (t1, oe) -> k <> D ->
  lookup t1 (k :: q) = lookup ta (k :: q).
Proof.
  intros H Hk. eapply merge_walk_frame; eauto.
  intros x _. unfold dest. simpl. left. congruence.
Qed.

Lemma top_saturated D x x' :
  wf files -> isdir files SRC_DATA = true ->
  merge_walk files SRC_DATA [D] (walk files SRC_DATA) x = (x', None) ->
  forall z, lookup z [D] = lookup x' [D] ->
            saturated files SRC_DATA [D] (walk files SRC_DATA) z.
Proof.
  unfold walk, isdir. intros Hwf Hd H z Hz.
  destruct (lookup files SRC_DATA) as [sub|] eqn:E; [|discriminate].
  pose proof (merge_settles files SRC_DATA [D] sub
                (wf_lookup _ _ _ Hwf E) []) as S.
  rewrite app_nil_r in S. eapply S; eauto.
Qed.

Lemma copy2_exists_dst s dst x x' :
  copy2 files s dst x = Ok x' -> exists_ x' dst = true.
Proof.
  unfold copy2. destruct (read_file files s); [|discriminate]. cbn [bind].
  intros H. apply write_file_at in H. unfold exists_.
  destruct (isdir x dst).
  - rewrite lookup_app in H. now destruct (lookup x' dst).
  - now rewrite H.
Qed.

Lemma entry_done_exists t ta item :
  entry_done t ta item -> exists_ t [item] = true -> exists_ ta [item] = true.
Proof.
  unfold exists_.
  intros [Hs Ht|sub Hs Hl Hta|x x' Hs Hd Hc Hx Hta] He.
  - now rewrite Ht.
  - now rewrite Hta.
  - rewrite Hta. now apply copy2_exists_dst in Hc.
Qed.

Lemma copy_tops_app l1 l2 t :
  copy_tops files (l1 ++ l2) t =
  match copy_tops files l1 t with
  | (t1, None) => copy_tops files l2 t1
  | (t1, Some e) => (t1, Some e)
  end.
Proof.
  revert t. induction l1 as [|i l1 IH]; intros t; cbn [app copy_tops];
    [reflexivity|].
  destruct (copy_top files i t) as [t1|e]; [apply IH|reflexivity].
Qed.

(** The walk of the reserved directory: the directory itself first,
    then what lies below its entries. *)
Lemma walk_data_head :
  isdir files SRC_DATA = true ->
  exists es,
    lookup files SRC_DATA = Some (Dir es) /\
    walk files SRC_DATA =
    (SRC_DATA, dirnames es, filenames es) ::
    flat_map (fun e => walk_node (SRC_DATA ++ [fst e]) (snd e)) es.
Proof.
  unfold isdir, walk. destruct (lookup files SRC_DATA) as [[d|es]|];
    try discriminate. intros _. exists es. split; reflexivity.
Qed.

Lemma walk_data_rest (es : listing) r ds fs :
  In (r, ds, fs)
     (flat_map (fun e => walk_node (SRC_DATA ++ [fst e]) (snd e)) es) ->
  exists k suffix, r = SRC_DATA ++ k :: suffix.
Proof.
  intros H. apply in_flat_map in H as ([k child] & _ & H). cbn [fst snd] in H.
  apply walk_node_roots in H as [suffix ->]. exists k, suffix.
  now rewrite <- app_assoc.
Qed.

Section Applied.
Variables t ta t1 : node.
Variable D : string.
Variable items : list string.
Hypothesis Hwf : wf files.
Hypothesis Hdata : isdir files SRC_DATA = true.
Hypothesis Hitems : listdir files ONLINE_FIX_DIR = Ok items.
Hypothesis Htops : copy_tops files items t = (ta, None).
Hypothesis Hmerge :
  merge_walk files SRC_DATA [D] (walk files SRC_DATA) ta = (t1, None).

Local Abbreviation copy_step := (copy_step files SRC_DATA [D]).
Local Abbreviation copy_files := (copy_files files SRC_DATA [D]).

Lemma done_all : forall i, In i items -> entry_done t ta i.
Proof. apply copy_tops_done; [now apply items_nodup|assumption]. Qed.

Lemma dir_entry_copied item sub :
  skipped item = false -> item <> D ->
  lookup files (source item) = Some (Dir sub) ->
  lookup t1 [item] = Some (Dir sub).
Proof.
  intros Hs Hne Hl.
  rewrite (merge_frame_top _ _ _ _ _ item [] Hmerge Hne).
  destruct (done_all item (items_in _ _ _ Hitems Hl))
    as [Hs' _|sub' _ Hl' Hta|x x' _ Hd _ _ _].
  - congruence.
  - congruence.
  - unfold isdir in Hd. now rewrite Hl in Hd.
Qed.

Lemma file_entry_copied item data :
  skipped item = false -> item <> D ->
  lookup files (source item) = Some (File data) ->
  file_at t1 (if isdir t [item] then [item; item] else [item]) = Some data.
Proof.
  intros Hs Hne Hl.
  destruct (done_all item (items_in _ _ _ Hitems Hl))
    as [Hs' _|sub' _ Hl' Hta|x x' _ Hd Hc Hx Hta]; try congruence.
  assert (Hdir : isdir x [item] = isdir t [item])
    by (unfold isdir; now rewrite Hx).
  unfold copy2, read_file in Hc. rewrite Hl in Hc. cbn [bind] in Hc.
  unfold source in Hc. rewrite basename_last, Hdir in Hc.
  apply write_file_at in Hc. unfold file_at.
  destruct (isdir t [item]).
  - change [item; item] with (item :: [item]).
    rewrite (merge_frame_top _ _ _ _ _ item [item] Hmerge Hne).
    change (item :: [item]) with ([item] ++ [item]).
    rewrite (isdir_agree _ _ _ Hta [item]). now rewrite Hc.
  - rewrite (merge_frame_top _ _ _ _ _ item [] Hmerge Hne).
    now rewrite Hta, Hc.
Qed.

Lemma data_file_copied root ds fs f :
  In (root, ds, fs) (walk files SRC_DATA) -> In f fs ->
  isdir t1 (dest SRC_DATA [D] root ++ [f]) = false ->
  exists data,
    read_file files (root ++ [f]) = Ok data /\
    file_at t1 (dest SRC_DATA [D] root ++ [f]) = Some data.
Proof.
  intros Hin Hf Hnd.
  destruct (walk_files_readable _ _ _ _ _ _ Hwf Hin Hf) as [data Hr].
  exists data. split; [assumption|].
  pose proof (top_saturated D ta t1 Hwf Hdata Hmerge t1 eq_refl) as S.
  unfold saturated in S. rewrite Forall_forall in S.
  destruct (S _ Hin) as [Hd Hcopy]. cbn [fst snd] in *.
  specialize (Hcopy f Hf). unfold copy_step, copy2 in Hcopy.
  rewrite Hr, Hnd in Hcopy. cbn [bind] in Hcopy.
  destruct (write_file_succeeds (dest SRC_DATA [D] root ++ [f]) data t1)
    as [x1 Hx1].
  - now destruct (dest SRC_DATA [D] root).
  - now rewrite dirname_last.
  - assumption.
  - rewrite Hx1 in Hcopy. cbn [swallow] in Hcopy. subst x1.
    unfold file_at. now rewrite (write_file_at _ _ _ _ Hx1).
Qed.

(** A file of the overlay named as the data directory is copied into
    the data directory, under that name. *)
Lemma data_named_file_copied data :
  isdir t [D] = true ->
  skipped D = false -> file_at files (source D) = Some data ->
  file_at ta [D; D] = Some data.
Proof.
  intros HD Hs Hf. unfold file_at in Hf.
  destruct (lookup files (source D)) as [[d|es]|] eqn:El; try discriminate.
  inversion Hf; subst d.
  destruct (done_all D (items_in _ _ _ Hitems El))
    as [Hs' _|sub' _ Hl' Hta|x x' _ Hd Hc Hx Hta]; try congruence.
  assert (Hdir : isdir x [D] = true) by (unfold isdir in *; now rewrite Hx).
  unfold copy2, read_file in Hc. rewrite El in Hc. cbn [bind] in Hc.
  unfold source in Hc. rewrite basename_last, Hdir in Hc.
  apply write_file_at in Hc. unfold file_at.
  change [D; D] with ([D] ++ [D]).
  rewrite (isdir_agree _ _ _ Hta [D]). now rewrite Hc.
Qed.

(** With no file of that name at the top of the reserved directory, the
    merge leaves it alone. *)
Lemma data_named_file_kept es :
  lookup files SRC_DATA = Some (Dir es) -> ~ In D (filenames es) ->
  file_at t1 [D; D] = file_at ta [D; D].
Proof.
  intros El Hno. apply (merge_walk_file_at _ _ _ _ _ _ _ _ Hmerge).
  intros root ds fs f Hin Hf [r E].
  destruct (walk_data_head Hdata) as (es' & El' & Hw).
  rewrite El in El'. inversion El'; subst es'. rewrite Hw in Hin.
  destruct Hin as [Hin|Hin].
  - inversion Hin; subst. cbn in E. inversion E; subst. contradiction.
  - apply walk_data_rest in Hin as (k & suffix & ->).
    rewrite dest_app in E. cbn [app] in E. inversion E as [[Hk E']].
    symmetry in E'. apply app_eq_nil in E' as [E' _].
    now apply app_eq_nil in E' as [_ E'].
Qed.


(** A copy of the merge that changes nothing in [z] changes nothing
    either when the file [D] of the data directory has been rewritten,
    unless it is the copy of that file. *)
Lemma copy_step_rewritten z u data f :
  write_file [D; D] data z = Ok u -> f <> D ->
  copy_step SRC_DATA f z = z -> copy_step SRC_DATA f u = u.
Proof.
  intros Hu Hf Hz. unfold Overlay.copy_step, copy2 in *.
  destruct (read_file files (SRC_DATA ++ [f])) as [c|]; [|reflexivity].
  cbn [bind] in *.
  rewrite (write_file_isdir _ _ _ _ _ Hu).
  set (p := if isdir z (dest SRC_DATA [D] SRC_DATA ++ [f])
            then (dest SRC_DATA [D] SRC_DATA ++ [f]) ++ [basename (SRC_DATA ++ [f])]
            else dest SRC_DATA [D] SRC_DATA ++ [f]) in *.
  change (swallow (write_file p c z) z = z) in Hz.
  change (swallow (write_file p c u) u = u).
  assert (Hdiv : diverge [D; D] p).
  { unfold p. rewrite basename_last.
    destruct (isdir z _); cbn; right; split; auto. }
  destruct (write_file p c z) as [z'|e] eqn:E; cbn [swallow] in Hz.
  - subst z'. pose proof (write_file_at _ _ _ _ E) as Hat.
    rewrite write_file_noop; [reflexivity| |].
    + eapply write_file_nonempty; eauto.
    + now rewrite (write_file_frame _ _ _ _ _ Hu Hdiv).
  - destruct (write_file_raises p c z u e) as [e' ->]; [|assumption|reflexivity].
    intros q. eapply write_file_isdir; eauto.
Qed.

(** The copy of that file puts back what the merge had left. *)
Lemma copy_step_restores z u data :
  write_file [D; D] data z = Ok u -> isdir z [D] = true ->
  In D (match lookup files SRC_DATA with
        | Some (Dir es) => filenames es
        | _ => []
        end) ->
  copy_step SRC_DATA D z = z -> copy_step SRC_DATA D u = z.
Proof.
  intros Hu HD Hin Hz. unfold Overlay.copy_step, copy2 in *.
  destruct (walk_data_head Hdata) as (es & El & Hw). rewrite El in Hin.
  destruct (walk_files_readable files SRC_DATA SRC_DATA (dirnames es)
              (filenames es) D Hwf) as [c Hc]; [rewrite Hw; now left|assumption|].
  rewrite Hc in *. cbn [bind] in *.
  rewrite (write_file_isdir _ _ _ _ _ Hu).
  pose proof (write_file_not_dir _ _ _ _ Hu) as Hn.
  change (dest SRC_DATA [D] SRC_DATA ++ [D]) with [D; D] in *.
  rewrite Hn in *.
  rewrite (write_file_twice _ _ _ _ _ Hu).
  destruct (write_file_succeeds [D; D] c z) as [z' E];
    [discriminate|exact HD|exact Hn|].
  rewrite E in *. cbn [swallow] in *. assumption.
Qed.

(** The merge run on what it left, with the file [D] of the data
    directory rewritten as the first loop writes it, leaves what it had
    left. *)
Lemma merge_absorbs data u :
  isdir t [D] = true ->
  skipped D = false -> file_at files (source D) = Some data ->
  write_file [D; D] data t1 = Ok u ->
  merge_walk files SRC_DATA [D] (walk files SRC_DATA) u = (t1, None).
Proof.
  intros HDt Hs Hf Hu.
  pose proof (top_saturated D ta t1 Hwf Hdata Hmerge t1 eq_refl) as S.
  destruct (walk_data_head Hdata) as (es & El & Hw). rewrite Hw in S.
  rewrite Hw. unfold saturated in S. inversion S as [|? ? [Hd Hsteps] Srest]; subst.
  cbn [fst snd] in Hd, Hsteps. change (dest SRC_DATA [D] SRC_DATA) with [D] in Hd.
  cbn [merge_walk]. rewrite merge_dir_unfold.
  change (dest SRC_DATA [D] SRC_DATA) with [D].
  rewrite makedirs_existing
    by (now rewrite (write_file_isdir _ _ _ _ _ Hu)).
  cbn [bind].
  assert (Hfiles : copy_files SRC_DATA (filenames es) u = t1).
  { destruct (in_dec string_dec D (filenames es)) as [Hin|Hno].
    - apply in_split in Hin as (l1 & l2 & Hsplit).
      assert (Hnd : NoDup (filenames es)).
      { apply nodup_names_filter.
        apply (wf_lookup _ _ _ Hwf) in El. now apply wf_dir in El. }
      rewrite Hsplit in Hnd, Hsteps. rewrite Hsplit.
      apply NoDup_remove_2 in Hnd.
      rewrite copy_files_app, copy_files_cons.
      rewrite (copy_files_settled files SRC_DATA [D] SRC_DATA l1 u).
      + rewrite (copy_step_restores t1 u data Hu Hd).
        * apply copy_files_settled. intros f Hf'. apply Hsteps.
          apply in_or_app. right. now right.
        * rewrite El, Hsplit. apply in_or_app. right. now left.
        * apply Hsteps. apply in_or_app. right. now left.
      + intros f Hf'. eapply copy_step_rewritten; eauto.
        * intros ->. apply Hnd. apply in_or_app. now left.
        * apply Hsteps. apply in_or_app. now left.
    - assert (Hat : file_at t1 [D; D] = Some data).
      { rewrite (data_named_file_kept es El Hno).
        now apply data_named_file_copied. }
      assert (u = t1).
      { unfold file_at in Hat.
        destruct (lookup t1 [D; D]) as [[d|ex]|] eqn:E; try discriminate.
        inversion Hat; subst d.
        rewrite write_file_noop in Hu; [now inversion Hu|discriminate|exact E]. }
      subst u. now apply copy_files_settled. }
  fold (Overlay.copy_files files SRC_DATA [D] SRC_DATA (filenames es) u).
  rewrite Hfiles. now apply saturated_merge_walk.
Qed.


(** ** The routine run again *)

(** The directory the second run acts on: [z] has the entries the first
    run left, listed in whatever order. *)
Section Again.
Variable z : node.
Hypothesis Hmarker : exists_ t [MARKER] = true.
Hypothesis Hfound : find_data_folder t = Some D.
Hypothesis Hz : forall k, lookup z [k] = lookup t1 [k].
Hypothesis Hfz : find_data_folder z = Some D.

Lemma rest_as_copied k : k <> D -> lookup t1 [k] = lookup ta [k].
Proof. intros Hk. eapply merge_frame_top; eauto. Qed.

Lemma marker_kept : exists_ z [MARKER] = true.
Proof.
  pose proof (found_is_dir _ _ Hfz) as HDz.
  destruct (String.eqb_spec MARKER D) as [E|Hne].
  - unfold isdir in HDz. unfold exists_. rewrite E.
    now destruct (lookup z [D]).
  - unfold exists_ in *. rewrite Hz, (rest_as_copied _ Hne).
    destruct (in_dec string_dec MARKER items) as [Hi|Hi].
    + apply (entry_done_exists t ta MARKER (done_all _ Hi)).
      exact Hmarker.
    + now rewrite (copy_tops_frame _ _ _ _ MARKER [] Htops Hi).
Qed.

(** The first loop over a part of the listing that has no file named
    [D]. *)
Lemma copy_tops_part l y :
  NoDup l -> incl l items ->
  (forall i, In i l -> skipped i = false ->
             isdir files (source i) = false -> i <> D) ->
  isdir y [D] = true ->
  (forall k, k <> D -> lookup y [k] = lookup t1 [k]) ->
  exists ya,
    copy_tops files l y = (ya, None) /\
    (forall k, k <> D -> lookup ya [k] = lookup t1 [k]) /\
    (lookup ya [D] = lookup y [D] \/
     (lookup ya [D] = lookup ta [D] /\ isdir ta [D] = true)).
Proof.
  intros Hnd Hincl Hnotfile HDy Hy.
  assert (Hdone : forall i, In i l -> entry_done t ta i).
  { intros i Hi. apply done_all.
    now apply Hincl. }
  destruct (copy_tops_again t ta l y Hnd Hdone) as (ya & Eya & Hout & Hin).
  { intros i Hi Hs Hd.
    destruct (String.eqb_spec i D) as [->|Hne]; [assumption|].
    unfold isdir. rewrite (Hy i Hne), (rest_as_copied i Hne).
    destruct (Hdone i Hi) as [Hs' _|sub _ Hl Hta|x x' _ Hd' _ _ _];
      try congruence. now rewrite Hta. }
  { intros i Hi Hs Hd. assert (Hne : i <> D) by now apply Hnotfile.
    now rewrite (Hy i Hne), (rest_as_copied i Hne). }
  exists ya. split; [assumption|]. split.
  - intros k Hk. destruct (in_dec string_dec k l) as [Hi|Hi].
    + rewrite (Hin k Hi).
      destruct (skipped k || negb (isdir files (source k))); [now apply Hy|].
      symmetry. now apply rest_as_copied.
    + rewrite (Hout k Hi). now apply Hy.
  - destruct (in_dec string_dec D l) as [Hi|Hi].
    + rewrite (Hin D Hi).
      destruct (skipped D || negb (isdir files (source D))) eqn:Eb; [now left|].
      right. split; [reflexivity|].
      apply orb_false_iff in Eb as [Es Ed]. apply negb_false_iff in Ed.
      destruct (Hdone D Hi) as [Hs' _|sub _ Hl Hta|x x' _ Hd' _ _ _];
        try congruence. unfold isdir. now rewrite Hta.
    + left. now apply Hout.
Qed.

Lemma rerun :
  exists t2,
    insert_online_fix files z = (Applied, t2) /\
    forall k, lookup t2 [k] = lookup z [k].
Proof.
  pose proof (items_nodup _ Hwf Hitems) as Hnd.
  pose proof (found_is_dir _ _ Hfz) as HDz.
  pose proof (found_is_dir _ _ Hfound) as HDt.
  pose proof marker_kept as Hmz.
  assert (Hz' : forall k, k <> D -> lookup z [k] = lookup t1 [k]) by auto.
  destruct (skipped D) eqn:Es;
    [|destruct (file_at files (source D)) as [data|] eqn:Ef].
  3: { (* no regular file named [D] at the top of the overlay *)
    destruct (copy_tops_part items z Hnd (incl_refl _)) as (za & Eza & Hza & Hcase);
      try assumption.
    { intros i Hi Hs Hd ->. unfold isdir, file_at in *.
      destruct (done_all D Hi)
        as [Hs' _|sub _ Hl _|x x' _ _ Hc _ _]; try congruence.
      - now rewrite Hl in Hd.
      - unfold copy2, read_file in Hc.
        destruct (lookup files (source D)) as [[d|es]|]; discriminate. }
    destruct Hcase as [Hsame|[Hsame Hdir]].
    - exists za. split.
      + eapply applied_intro; eauto.
        apply saturated_merge_walk. eapply top_saturated; eauto.
        now rewrite Hsame.
      + intros k. destruct (String.eqb_spec k D) as [->|Hne]; [assumption|].
        now rewrite Hza, Hz.
    - destruct (merge_walk_congruence files SRC_DATA D (walk files SRC_DATA)
                  ta za t1 None) as (t2 & Et2 & Ht2);
        try assumption; [now symmetry|].
      exists t2. split.
      + eapply applied_intro; eauto.
      + intros k. destruct (String.eqb_spec k D) as [->|Hne];
          [now rewrite Hz|].
        rewrite (merge_frame_top _ _ _ _ _ k [] Et2 Hne).
        now rewrite Hza, Hz. }
  1: { (* an entry named [D] is passed over *)
    destruct (copy_tops_part items z Hnd (incl_refl _)) as (za & Eza & Hza & Hcase);
      try assumption.
    { intros i Hi Hs Hd ->. congruence. }
    destruct Hcase as [Hsame|[Hsame Hdir]].
    - exists za. split.
      + eapply applied_intro; eauto.
        apply saturated_merge_walk. eapply top_saturated; eauto.
        now rewrite Hsame.
      + intros k. destruct (String.eqb_spec k D) as [->|Hne]; [assumption|].
        now rewrite Hza, Hz.
    - destruct (merge_walk_congruence files SRC_DATA D (walk files SRC_DATA)
                  ta za t1 None) as (t2 & Et2 & Ht2);
        try assumption; [now symmetry|].
      exists t2. split.
      + eapply applied_intro; eauto.
      + intros k. destruct (String.eqb_spec k D) as [->|Hne];
          [now rewrite Hz|].
        rewrite (merge_frame_top _ _ _ _ _ k [] Et2 Hne).
        now rewrite Hza, Hz. }
  (* a regular file named [D] at the top of the overlay *)
  assert (Hl : exists d, lookup files (source D) = Some (File d)).
  { unfold file_at in Ef.
    destruct (lookup files (source D)) as [[d|es]|]; try discriminate. eauto. }
  destruct Hl as [d Hl].
  assert (Hnotdir : isdir files (source D) = false)
    by (unfold isdir; now rewrite Hl).
  pose proof (items_in _ _ _ Hitems Hl) as HDin.
  apply in_split in HDin as (l1 & l2 & Hsplit).
  rewrite Hsplit in Hnd.
  pose proof (NoDup_remove_1 _ _ _ Hnd) as Hnd12.
  pose proof (NoDup_remove_2 _ _ _ Hnd) as HnoD.
  assert (Hnd1 : NoDup l1) by (eapply NoDup_app_remove_r; eauto).
  assert (Hnd2 : NoDup l2) by (eapply NoDup_app_remove_l; eauto).
  (* what the first run left at [D; D] is a regular file *)
  pose proof (data_named_file_copied data HDt Es Ef) as Hta.
  destruct (merge_walk_keeps_file _ _ _ _ _ _ _ _ _ Hmerge Hta) as [d1 Hd1].
  assert (Hn1 : isdir t1 [D; D] = false).
  { unfold file_at in Hd1. unfold isdir.
    now destruct (lookup t1 [D; D]) as [[x|ex]|]. }
  assert (HD1 : isdir t1 [D] = true) by (unfold isdir in *; now rewrite <- Hz).
  destruct (write_file_succeeds [D; D] data t1) as [u Hu];
    [discriminate|exact HD1|exact Hn1|].
  pose proof (merge_absorbs data u HDt Es Ef Hu) as Hmu.
  (* the first loop, up to the file [D] *)
  destruct (copy_tops_part l1 z Hnd1) as (za1 & Eza1 & Hza1 & Hcase1);
    try assumption.
  { intros i Hi. rewrite Hsplit. apply in_or_app. now left. }
  { intros i Hi _ _ ->. apply HnoD. apply in_or_app. now left. }
  assert (HDa1 : lookup za1 [D] = lookup z [D]).
  { destruct (copy_tops_frame l1 z za1 None D [] Eza1) as [];
      [|reflexivity].
    intros Hi. apply HnoD. apply in_or_app. now left. }
  (* the file [D] *)
  assert (Hagree : forall q, lookup za1 ([D] ++ q) = lookup t1 ([D] ++ q)).
  { apply isdir_agree. now rewrite HDa1, Hz. }
  destruct (write_file_succeeds [D; D] data za1) as [zb Hzb].
  { discriminate. }
  { change (isdir za1 [D] = true). unfold isdir. rewrite HDa1. exact HDz. }
  { pose proof (Hagree [D]) as Hq. cbn [app] in Hq.
    unfold isdir in *. now rewrite Hq. }
  assert (Etop : copy_top files D za1 = Ok zb).
  { rewrite copy_top_file_unfold by assumption.
    unfold copy2, read_file. rewrite Hl. cbn [bind].
    unfold source. rewrite basename_last.
    assert (Hd' : isdir za1 [D] = true) by (unfold isdir; now rewrite HDa1).
    rewrite Hd'. unfold file_at in Ef. rewrite Hl in Ef. inversion Ef; subst.
    exact Hzb. }
  assert (HDb : lookup zb [D] = lookup u [D]).
  { destruct za1 as [|ea]; [discriminate|]. destruct t1 as [|e1]; [discriminate|].
    pose proof (Hagree []) as Ha. cbn [app] in Ha.
    rewrite !lookup_cons_dir in Ha.
    destruct (assoc D ea) as [va|] eqn:Ea;
      [|unfold isdir in HD1; rewrite lookup_cons_dir in HD1;
        destruct (assoc D e1); discriminate].
    destruct (assoc D e1) as [v1|] eqn:E1; [|discriminate].
    cbn [lookup] in Ha. inversion Ha; subst v1.
    rewrite (write_file_focus D _ _ _ _ Ea) in Hzb by discriminate.
    rewrite (write_file_focus D _ _ _ _ E1) in Hu by discriminate.
    destruct (write_file [D] data va) as [v'|]; [|discriminate].
    cbn [bind] in *. inversion Hzb; inversion Hu; subst.
    now rewrite !lookup_cons_dir, !assoc_set_entry_same. }
  (* the rest of the first loop *)
  destruct (copy_tops_part l2 zb Hnd2) as (za & Eza & Hza & Hcase);
    try assumption.
  { intros i Hi. rewrite Hsplit. apply in_or_app. right. now right. }
  { intros i Hi _ _ ->. apply HnoD. apply in_or_app. now right. }
  { rewrite (write_file_isdir _ _ _ _ [D] Hzb). unfold isdir.
    rewrite HDa1. exact HDz. }
  { intros k Hk. rewrite <- (Hza1 k Hk).
    apply (write_file_frame _ _ _ _ [k] Hzb). cbn. left. congruence. }
  assert (HDa : lookup za [D] = lookup zb [D]).
  { destruct (copy_tops_frame l2 zb za None D [] Eza) as [];
      [|reflexivity].
    intros Hi. apply HnoD. apply in_or_app. now right. }
  assert (Hall : copy_tops files items z = (za, None)).
  { rewrite Hsplit, copy_tops_app, Eza1. cbn [copy_tops]. now rewrite Etop. }
  (* the merge *)
  destruct (merge_walk_congruence files SRC_DATA D (walk files SRC_DATA)
              u za t1 None) as (t2 & Et2 & Ht2).
  { now rewrite HDa, HDb. }
  { now rewrite (write_file_isdir _ _ _ _ [D] Hu). }
  { exact Hmu. }
  exists t2. split.
  - eapply applied_intro; eauto.
  - intros k. destruct (String.eqb_spec k D) as [->|Hne]; [now rewrite Hz|].
    rewrite (merge_frame_top _ _ _ _ _ k [] Et2 Hne).
    now rewrite Hza, Hz.
Qed.

End Again.

End Applied.

End Apply.

(** C4 (amended): when the routine ends with [Applied] on a directory
    whose data directory is [D]: every directory at the top of the
    overlay (other than the entries named "data" in any case, which are
    passed over, and an entry named [D]) is found at its name in the
    chosen directory, as a copy of the whole subtree, whatever was
    there; every file at the top of the overlay is found at its name,
    or inside the directory of that name when the chosen directory had
    one; every regular file below "Data", at any depth, is found at the
    same relative path below [D], unless a directory of that name is in
    the way. Run again on a directory [z] that has the entries the
    first run left, in whatever order it lists them, the routine ends
    with [Applied] again and every entry of the directory is what it
    was, provided the data directory it finds is again [D]. *)
Theorem overlay_applied files t t1 D :
  wf files ->
  find_data_folder t = Some D ->
  insert_online_fix files t = (Applied, t1) ->
  (forall item sub,
      skipped item = false -> item <> D ->
      lookup files (source item) = Some (Dir sub) ->
      lookup t1 [item] = Some (Dir sub))
  /\ (forall item data,
        skipped item = false -> item <> D ->
        lookup files (source item) = Some (File data) ->
        file_at t1 (if isdir t [item] then [item; item] else [item])
        = Some data)
  /\ (forall rel f data,
        file_at files (SRC_DATA ++ rel ++ [f]) = Some data ->
        isdir t1 (D :: rel ++ [f]) = false ->
        file_at t1 (D :: rel ++ [f]) = Some data)
  /\ (forall z,
        (forall k, lookup z [k] = lookup t1 [k]) ->
        find_data_folder z = Some D ->
        exists t2,
          insert_online_fix files z = (Applied, t2) /\
          forall k, lookup t2 [k] = lookup z [k]).
Proof.
  intros Hwf Hfound Hrun.
  destruct (applied_inv _ _ _ Hrun)
    as (D' & items & ta & Hmarker & Hfound' & _ & Hdata & Hitems & Htops & Hmerge).
  assert (D' = D) by congruence. subst D'.
  split; [|split; [|split]].
  - intros item sub. eapply dir_entry_copied; eauto.
  - intros item data. eapply file_entry_copied; eauto.
  - intros rel f data Hfile Hnd.
    destruct (walk_complete _ _ _ _ _ Hfile) as (ds & fs & Hin & Hf).
    destruct (data_file_copied files ta t1 D Hwf Hdata Hmerge
                (SRC_DATA ++ rel) ds fs f Hin Hf) as (data' & Hr & Hat).
    + rewrite dest_app. exact Hnd.
    + rewrite dest_app in Hat. transitivity (Some data'); [exact Hat|].
      f_equal. rewrite <- app_assoc in Hr. unfold read_file in Hr. unfold file_at in Hfile.
      destruct (lookup files (SRC_DATA ++ rel ++ [f])) as [[d|es]|];
        inversion Hr; inversion Hfile; congruence.
  - intros z Hz Hfz. eapply rerun; eauto.
Qed.

End ApplyFacts.

(* ================================================================== *)
(** * The theorems at work on the small catalogue *)
(* ================================================================== *)

Lemma fetch_files_filters_and_sorts_witness :
  Sorted (Str.key_le Str.lower)
         (fetch_files ["b.zip"; "A.ZIP"; "c.txt"; "B.zip"; "a.zip"]) /\
  fetch_files ["b.zip"; "A.ZIP"; "c.txt"; "B.zip"; "a.zip"] =
  ["a.zip"; "b.zip"; "B.zip"].
Proof.
  split; [|reflexivity].
  apply (fetch_files_filters_and_sorts
           ["b.zip"; "A.ZIP"; "c.txt"; "B.zip"; "a.zip"]).
  repeat constructor.
Defined.

Lemma run_rejects_invalid_root_witness :
  Worker.run Demo.http_get Demo.unzip
    (Worker.Build_settings "D:/Games" true false false false)
    ["a.zip"; "b.zip"] Demo.world0
  = (Worker.InvalidInstallationRoot, Demo.world0).
Proof.
  apply (WorkerFacts.run_rejects_invalid_root Demo.http_get Demo.unzip).
  right. reflexivity.
Defined.

Lemma run_stops_at_failed_download_witness :
  Worker.run Demo.http_get Demo.unzip (Demo.settings0 false)
    (["a.zip"] ++ "c.zip" :: ["b.zip"]) Demo.world0
  = (Worker.DownloadFailed,
     snd (Worker.run Demo.http_get Demo.unzip (Demo.settings0 false)
            ["a.zip"; "c.zip"] Demo.world0)).
Proof.
  apply (WorkerFacts.run_stops_at_failed_download Demo.http_get Demo.unzip
           (Demo.settings0 false) ["a.zip"] "c.zip" ["b.zip"] Demo.world0
           (snd (Worker.run Demo.http_get Demo.unzip (Demo.settings0 false)
                   ["a.zip"] Demo.world0))
           (Worker.Build_response 404 "")).
  - vm_compute. reflexivity.
  - vm_compute. reflexivity.
  - vm_compute. discriminate.
Defined.







(** The claim of a snapshot fails: the batch was submitted with
    [delete_after] off; the dialog saved while it runs makes it delete
    the scratch directory of the second item, which the run on the
    settings as submitted keeps. *)
Lemma saved_dialog_reaches_running_batch :
  App.sys_thread
    (App.exec Demo.http_get Demo.unzip Demo.app0
       (App.start_processing Demo.app0 Demo.batch0) Demo.disturbed
       (snd (App.submit Demo.app0 Demo.batch0 Demo.heap0 Demo.world0)))
  = App.Emitted Worker.Success
  /\ FS.isdir
       (Worker.cache
          (App.sys_world
             (App.exec Demo.http_get Demo.unzip Demo.app0
                (App.start_processing Demo.app0 Demo.batch0) Demo.disturbed
                (snd (App.submit Demo.app0 Demo.batch0 Demo.heap0 Demo.world0)))))
       (Worker.extract_dir "b.zip") = false
  /\ FS.isdir
       (Worker.cache
          (snd (Worker.run Demo.http_get Demo.unzip
                  (App.deref Demo.heap0 (App.settings_values Demo.app0))
                  Demo.batch0 Demo.world0)))
       (Worker.extract_dir "b.zip") = true.
Proof. vm_compute. repeat split. Qed.

Lemma batch_reads_live_settings_witness :
  App.sys_world
    (App.exec Demo.http_get Demo.unzip Demo.app0
       (App.start_processing Demo.app0 Demo.batch0)
       [App.SaveSettings (Worker.Build_settings "D:/Other" false false true true);
        App.Tick; App.Tick]
       {| App.sys_heap := Demo.heap0;
          App.sys_thread := App.AtLoop "C:/Steam" ["a.zip"];
          App.sys_world := Demo.world0 |})
  = App.sys_world
      (App.exec Demo.http_get Demo.unzip Demo.app0
         (App.start_processing Demo.app0 Demo.batch0)
         [App.SaveSettings (Demo.settings0 false); App.Tick; App.Tick]
         {| App.sys_heap := Demo.heap0;
            App.sys_thread := App.AtLoop "C:/Steam" ["a.zip"];
            App.sys_world := Demo.world0 |}).
Proof.
  refine (proj2 (proj2 (proj2 (proj2
            (AppFacts.batch_reads_live_settings Demo.http_get Demo.unzip
               Demo.app0 Demo.batch0)))
            _ _ Demo.heap0 Demo.heap0 _ _ _ _ _)).
  - repeat constructor.
  - discriminate.
  - reflexivity.
Defined.

Lemma preconditions_before_writes_witness :
  Overlay.insert_online_fix Demo.overlay_files Demo.not_a_game
  = (Overlay.UnsupportedTarget, Demo.not_a_game)
  /\ Overlay.find_data_folder Demo.game = Some "Game_Data".
Proof.
  split.
  - apply (proj1 (OverlayFacts.preconditions_before_writes
                    Demo.overlay_files Demo.not_a_game)).
    reflexivity.
  - apply (proj1 (proj2 (proj2 (proj2
             (OverlayFacts.preconditions_before_writes
                Demo.overlay_files Demo.game))))
             _ eq_refl).
    exists ["UnityCrashHandler64.exe"; "Game.exe"],
           ["MonoBleedingEdge_data"; "extras"].
    split; [reflexivity|]. split; [reflexivity|].
    intros x [<-|[<-|[]]]; reflexivity.
Defined.

(** The claim fails: on a chosen directory that passes all three
    checks, the routine ends with "Online-Fix failed" as soon as a
    directory of the overlay meets a regular file of its name
    ([shutil.rmtree] raises); that entry is not copied, and nothing of
    the reserved directory is merged. *)
Lemma overlay_stops_at_blocked_entry :
  FS.exists_ Demo.blocked_game [Overlay.MARKER] = true
  /\ Overlay.find_data_folder Demo.blocked_game = Some "Game_Data"
  /\ FS.isdir Demo.overlay_files Overlay.SRC_DATA = true
  /\ FS.isdir Demo.overlay_files (Overlay.source "extras") = true
  /\ fst (Overlay.insert_online_fix Demo.overlay_files Demo.blocked_game)
     = Overlay.OverlayApplyFailed FS.NotADirectoryError
  /\ FS.lookup
       (snd (Overlay.insert_online_fix Demo.overlay_files Demo.blocked_game))
       ["extras"] = Some (FS.File "g")
  /\ FS.file_at Demo.overlay_files (Overlay.SRC_DATA ++ ["boot.config"])
     = Some "b"
  /\ FS.file_at
       (snd (Overlay.insert_online_fix Demo.overlay_files Demo.blocked_game))
       ["Game_Data"; "boot.config"] = None.
Proof. vm_compute. repeat split. Qed.

Lemma overlay_files_wf : FS.wf Demo.overlay_files.
Proof.
  cbn. repeat split; repeat constructor; cbn; intuition discriminate.
Qed.

Lemma overlay_applied_witness :
  FS.lookup (snd (Overlay.insert_online_fix Demo.overlay_files Demo.game))
            ["extras"]
  = Some (FS.Dir [("readme", FS.File "r")])
  /\ FS.file_at (snd (Overlay.insert_online_fix Demo.overlay_files Demo.game))
                ["Game_Data"; "Plugins"; "x.dll"] = Some "x"
  /\ exists t2,
       Overlay.insert_online_fix Demo.overlay_files Sample.game_patched_sorted
       = (Overlay.Applied, t2)
       /\ forall k,
            FS.lookup t2 [k] = FS.lookup Sample.game_patched_sorted [k].
Proof.
  assert (H := ApplyFacts.overlay_applied Demo.overlay_files Demo.game
                 (snd (Overlay.insert_online_fix Demo.overlay_files Demo.game))
                 "Game_Data" overlay_files_wf).
  destruct H as (Hdir & _ & Hdata & Hagain).
  - vm_compute. reflexivity.
  - vm_compute. reflexivity.
  - split; [|split].
    + apply Hdir.
      * vm_compute. reflexivity.
      * discriminate.
      * vm_compute. reflexivity.
    + apply (Hdata ["Plugins"] "x.dll" "x"); vm_compute; reflexivity.
    + apply Hagain.
      * intros k.
        assert (E : snd (Overlay.insert_online_fix Demo.overlay_files Demo.game)
                    = FS.Dir
                        [("UnityCrashHandler64.exe", FS.File "u");
                         ("Game.exe", FS.File "g");
                         ("Game_Data",
                          FS.Dir
                            [("Plugins",
                              FS.Dir [("old.dll", FS.File "o");
                                      ("x.dll", FS.File "x")]);
                             ("boot.config", FS.File "b")]);
                         ("MonoBleedingEdge_data", FS.Dir []);
                         ("winmm.dll", FS.File "w");
                         ("extras", FS.Dir [("readme", FS.File "r")])])
          by (vm_compute; reflexivity).
        rewrite E. unfold Sample.game_patched_sorted.
        rewrite !FSFacts.lookup_cons_dir. cbn [FS.assoc].
        repeat match goal with
               | |- context [String.eqb k ?s] =>
                   destruct (String.eqb_spec k s) as [->|?]; [reflexivity|]
               end.
        reflexivity.
      * vm_compute. reflexivity.
Defined.

(* ================================================================== *)
(** * The batch installer: what a run leaves alone *)
(* ================================================================== *)

Module RunFacts.
Import FS FSFacts Worker WorkerFacts DistributeFacts.

Section Run.
Variable http_get : list string -> string -> result response.
Variable unzip : string -> option (list member).

Local Abbreviation fetch_and_extract := (fetch_and_extract http_get unzip).
Local Abbreviation process_item := (process_item http_get unzip).
Local Abbreviation run_items := (run_items http_get unzip).
Local Abbreviation run := (run http_get unzip).

(** ** The installation *)

(** The first half of the loop body does not write to the installation,
    however it ends. *)
Lemma fetch_and_extract_disk name w :
  match fetch_and_extract name w with
  | Next w1 | Stop _ w1 => disk w1 = disk w
  end.
Proof.
  unfold Worker.fetch_and_extract.
  destruct (http_get _ _); [|reflexivity].
  destruct (negb _); [reflexivity|].
  destruct (write_file _ _ _); [|reflexivity].
  destruct (makedirs _ _); [|reflexivity].
  destruct (extract_archive _ _ _) as [c3 [e|]]; reflexivity.
Qed.

Lemma distribute_file_at sp c top d q :
  (forall k f, Str.endswith f (suffix_of k) = true ->
               ~ prefix_of (dir_of sp k ++ [f]) q) ->
  file_at (distribute sp c top d) q = file_at d q.
Proof.
  intros H. rewrite distribute_flat. apply distribute_list_file_at.
  intros r f k _. apply H.
Qed.

Lemma distribute_isdir sp c top d q :
  isdir (distribute sp c top d) q = isdir d q.
Proof. rewrite distribute_flat. apply distribute_list_isdir. Qed.

Lemma install_files_file_at sp name w q :
  (forall k f, Str.endswith f (suffix_of k) = true ->
               ~ prefix_of (dir_of sp k ++ [f]) q) ->
  match install_files sp name w with
  | Next w1 | Stop _ w1 => file_at (disk w1) q = file_at (disk w) q
  end.
Proof.
  intros H. unfold install_files.
  destruct (makedirs (depotcache sp) (disk w)) as [d1|] eqn:E1; [|reflexivity].
  destruct (makedirs (stplugin sp) d1) as [d2|] eqn:E2; cbn [disk].
  - rewrite distribute_file_at by assumption.
    now rewrite (makedirs_file_at _ _ _ q E2), (makedirs_file_at _ _ _ q E1).
  - apply (makedirs_file_at _ _ _ q E1).
Qed.

Lemma install_files_keeps_isdir sp name w q :
  isdir (disk w) q = true ->
  match install_files sp name w with
  | Next w1 | Stop _ w1 => isdir (disk w1) q = true
  end.
Proof.
  intros H. unfold install_files.
  destruct (makedirs (depotcache sp) (disk w)) as [d1|] eqn:E1; [|assumption].
  destruct (makedirs (stplugin sp) d1) as [d2|] eqn:E2; cbn [disk].
  - rewrite distribute_isdir. eauto using makedirs_keeps_isdir.
  - eauto using makedirs_keeps_isdir.
Qed.

Lemma install_files_new_isdir sp name w q :
  match install_files sp name w with
  | Next w1 | Stop _ w1 =>
      isdir (disk w1) q = true ->
      isdir (disk w) q = true \/ exists k r, dir_of sp k = q ++ r
  end.
Proof.
  unfold install_files.
  destruct (makedirs (depotcache sp) (disk w)) as [d1|] eqn:E1; [|intros; now left].
  assert (H1 : isdir d1 q = true ->
               isdir (disk w) q = true \/ exists k r, dir_of sp k = q ++ r).
  { intros H. destruct (makedirs_isdir_new _ _ _ _ E1 H) as [|[r Hr]];
      [now left|right]. now exists Manifest, r. }
  destruct (makedirs (stplugin sp) d1) as [d2|] eqn:E2; cbn [disk];
    [|assumption].
  rewrite distribute_isdir. intros H.
  destruct (makedirs_isdir_new _ _ _ _ E2 H) as [|[r Hr]]; [auto|right].
  now exists Plugin, r.
Qed.

(** A property of the installation before and after that holds across
    the second half of the loop body holds across a whole pass and
    across the loop. *)
Section Across.
Variable sp : string.
Variable R : node -> node -> Prop.
Hypothesis R_refl : forall d, R d d.
Hypothesis R_trans : forall d1 d2 d3, R d1 d2 -> R d2 d3 -> R d1 d3.
Hypothesis R_install :
  forall name w,
    match install_files sp name w with
    | Next w1 | Stop _ w1 => R (disk w) (disk w1)
    end.

Lemma process_item_across st name w :
  match process_item sp st name w with
  | Next w1 | Stop _ w1 => R (disk w) (disk w1)
  end.
Proof.
  unfold Worker.process_item, Worker.fetch_and_distribute.
  pose proof (fetch_and_extract_disk name w) as H0.
  destruct (fetch_and_extract name w) as [w0|o w0]; [|rewrite H0; apply R_refl].
  pose proof (R_install name w0) as H1. rewrite H0 in H1.
  destruct (install_files sp name w0) as [w1|o w1]; [|assumption].
  now destruct (cleanup_requests st name w1) as [_ ->].
Qed.

Lemma run_items_across st items w :
  R (disk w) (disk (snd (run_items sp st items w))).
Proof.
  revert w. induction items as [|name items IH]; intros w; cbn [Worker.run_items].
  - apply R_refl.
  - pose proof (process_item_across st name w) as H.
    destruct (process_item sp st name w) as [w1|o w1]; [|assumption].
    eapply R_trans; [exact H|apply IH].
Qed.

End Across.

Lemma run_across (R : string -> node -> node -> Prop) :
  (forall sp d, R sp d d) ->
  (forall sp d1 d2 d3, R sp d1 d2 -> R sp d2 d3 -> R sp d1 d3) ->
  (forall sp name w,
      match install_files sp name w with
      | Next w1 | Stop _ w1 => R sp (disk w) (disk w1)
      end) ->
  forall st items w, R (steam_path st) (disk w) (disk (snd (run st items w))).
Proof.
  intros Hr Ht Hi st items w. unfold Worker.run. cbv zeta.
  destruct (_ || _); [apply Hr|].
  apply run_items_across; [apply Hr|apply Ht|apply Hi].
Qed.

(** X1: with the cache directory and the installation not lying inside
    one another (the two trees of a [world]) and for a batch of plain
    items: however the run ends, in the installation the content of a
    file changes, or a file appears, only at (or, where a directory has
    that name, below) a name ending in ".manifest" in
    [config/depotcache] or a name ending in ".lua" in
    [config/stplug-in]; no directory is lost; and the only directories
    that can be new are the two destination directories and the
    directories on the way to them. *)
Theorem run_confined_to_destinations st items w q :
  Forall (fun name => plain name = true) items ->
  ((forall k f, Str.endswith f (suffix_of k) = true ->
                ~ prefix_of (dir_of (steam_path st) k ++ [f]) q) ->
   file_at (disk (snd (run st items w))) q = file_at (disk w) q) /\
  (isdir (disk w) q = true -> isdir (disk (snd (run st items w))) q = true) /\
  (isdir (disk (snd (run st items w))) q = true ->
   isdir (disk w) q = true \/ exists k r, dir_of (steam_path st) k = q ++ r).
Proof.
  intros _. split; [|split].
  - intros H.
    apply (run_across
             (fun sp d d' =>
                (forall k f, Str.endswith f (suffix_of k) = true ->
                             ~ prefix_of (dir_of sp k ++ [f]) q) ->
                file_at d' q = file_at d q)); [| | |exact H].
    + reflexivity.
    + intros sp d1 d2 d3 H1 H2 Hq. now rewrite H2, H1.
    + intros sp name w0.
      pose proof (fun Hq => install_files_file_at sp name w0 q Hq) as Hi.
      destruct (install_files sp name w0); exact Hi.
  - apply (run_across (fun _ d d' => isdir d q = true -> isdir d' q = true)).
    + auto.
    + auto.
    + intros sp name w0.
      pose proof (fun Hq => install_files_keeps_isdir sp name w0 q Hq) as Hi.
      destruct (install_files sp name w0); exact Hi.
  - apply (run_across
             (fun sp d d' =>
                isdir d' q = true ->
                isdir d q = true \/ exists k r, dir_of sp k = q ++ r)).
    + auto.
    + intros sp d1 d2 d3 H1 H2 H3. destruct (H2 H3); auto.
    + intros sp name w0. apply install_files_new_isdir.
Qed.

(** ** The requests *)

Lemma process_item_requests_any sp st name w :
  match process_item sp st name w with
  | Next w1 => requests w1 = requests w ++ [url_of name]
  | Stop _ w1 => requests w1 = requests w ++ [url_of name]
  end.
Proof.
  destruct (process_item sp st name w) as [w1|o w1] eqn:E;
    [eapply process_item_requests; eauto|].
  revert E. unfold Worker.process_item, Worker.fetch_and_distribute,
    Worker.fetch_and_extract, install_files.
  fold (url_of name).
  destruct (http_get _ _); [|now intros [= _ <-]].
  destruct (negb _); [now intros [= _ <-]|].
  destruct (write_file _ _ _); [|now intros [= _ <-]].
  destruct (makedirs _ _); [|now intros [= _ <-]].
  destruct (extract_archive _ _ _) as [c3 [e|]]; [now intros [= _ <-]|].
  cbn [disk].
  destruct (makedirs _ _); [|now intros [= _ <-]].
  destruct (makedirs _ _); [discriminate|now intros [= _ <-]].
Qed.

Lemma process_item_not_refused sp st name w o w1 :
  process_item sp st name w = Stop o w1 -> o <> InvalidInstallationRoot.
Proof.
  unfold Worker.process_item, Worker.fetch_and_distribute,
    Worker.fetch_and_extract, install_files.
  intros H.
  destruct (http_get _ _); [|inversion H; discriminate].
  destruct (negb _); [inversion H; discriminate|].
  destruct (write_file _ _ _); [|inversion H; discriminate].
  destruct (makedirs _ _); [|inversion H; discriminate].
  destruct (extract_archive _ _ _) as [c3 [e|]]; [inversion H; discriminate|].
  cbn [disk] in H.
  destruct (makedirs _ _); [|inversion H; discriminate].
  destruct (makedirs _ _); [|inversion H; discriminate].
  discriminate.
Qed.

Lemma run_items_requests_prefix sp st items w :
  exists n,
    requests (snd (run_items sp st items w)) =
    requests w ++ map url_of (firstn n items) /\
    (fst (run_items sp st items w) = Success -> n = List.length items) /\
    fst (run_items sp st items w) <> InvalidInstallationRoot.
Proof.
  revert w. induction items as [|name items IH]; intros w; cbn [Worker.run_items].
  - exists 0. cbn. rewrite app_nil_r. repeat split. discriminate.
  - pose proof (process_item_requests_any sp st name w) as H.
    destruct (process_item sp st name w) as [w1|o w1] eqn:E.
    + destruct (IH w1) as (n & Hn & Hs & Hi). exists (S n).
      cbn [firstn map List.length]. rewrite Hn, H, <- app_assoc.
      repeat split; auto.
    + exists 1. cbn [firstn map fst snd]. repeat split; [assumption| |].
      * intros ->. now apply process_item_stop in E.
      * eapply process_item_not_refused; eauto.
Qed.

(** X2: whatever the batch and however the run ends, the addresses
    requested are [RAW_URL] followed by an item's name, for the items of
    the batch in their order, one request an item, up to the item the
    run ended at; a run that ends with [finished] has requested every
    item, a run that is refused has requested none. *)
Theorem run_requests_batch_prefix st items w :
  exists n,
    requests (snd (run st items w)) =
    requests w ++ map url_of (firstn n items) /\
    (fst (run st items w) = Success -> n = List.length items) /\
    (fst (run st items w) = InvalidInstallationRoot -> n = 0).
Proof.
  unfold Worker.run. cbv zeta. destruct (_ || _).
  { exists 0. cbn. rewrite app_nil_r. repeat split. discriminate. }
  destruct (run_items_requests_prefix (steam_path st) st items w)
    as (n & Hn & Hs & Hi).
  exists n. repeat split; [assumption..|]. intros H. now apply Hi in H.
Qed.

(** ** The cache *)

Lemma process_item_no_archive sp st item w w1 name :
  process_item sp st item w = Next w1 ->
  name = item \/ file_at (cache w) (dest_path name) = None ->
  file_at (cache w1) (dest_path name) = None.
Proof.
  intros H Hname.
  destruct (process_item_cache http_get unzip _ _ _ _ _ H)
    as (F & A & _ & Dt & Df).
  unfold file_at, dest_path in *.
  destruct (String.eqb_spec name item) as [->|Hne]; [now rewrite A|].
  destruct Hname as [|Hname]; [contradiction|].
  destruct (String.eqb_spec name (extract_dir_name item)) as [->|Hne'].
  - fold (extract_dir item). destruct (delete_after st) eqn:Ed.
    + now rewrite Dt.
    + destruct (Df eq_refl) as (_ & w0 & _ & -> & Hd). unfold isdir in Hd.
      now destruct (lookup (cache w0) (extract_dir item)) as [[d|es]|].
  - now rewrite F.
Qed.

Lemma run_items_no_archive sp st items w w' name :
  run_items sp st items w = (Success, w') ->
  In name items \/ file_at (cache w) (dest_path name) = None ->
  file_at (cache w') (dest_path name) = None.
Proof.
  revert w. induction items as [|item items IH]; intros w H Hname;
    cbn [Worker.run_items] in H.
  - inversion H; subst. now destruct Hname.
  - destruct (process_item sp st item w) as [w1|o w1] eqn:E.
    + apply (IH w1 H).
      destruct Hname as [[->|Hin]|Hnone]; [right|now left|right];
        eapply process_item_no_archive; eauto.
    + inversion H; subst. now apply process_item_stop in E.
Qed.

(** X3: after a run of plain items that ends with [finished], the
    cache holds no regular file under the name of an item of the batch:
    each archive was deleted when it had been extracted, and nothing a
    later item does writes a file at that name again without deleting
    it. *)
Theorem archives_removed_after_run st items w w' name :
  Forall (fun name => plain name = true) items ->
  run st items w = (Success, w') ->
  In name items ->
  file_at (cache w') (dest_path name) = None.
Proof.
  intros _ H Hin. apply run_success in H as (_ & _ & H).
  eapply run_items_no_archive; eauto.
Qed.

Lemma makedirs_top_succeeds c n :
  isdir n [] = true -> file_at n [c] = None ->
  exists n', makedirs [c] n = Ok n'.
Proof.
  unfold isdir, file_at. cbn [lookup].
  destruct n as [|es]; [discriminate|]. intros _ H. cbn [makedirs].
  destruct (assoc c es) as [[d|sub]|]; [discriminate|cbn; eauto..].
Qed.

(** X4: when the items before [name] went through and the request for
    [name] is answered with status 200 by bytes that are no archive, the
    run ends with the error signal for [BadZipFile]; the downloaded file
    stays in the cache under the item's name, beside its (made) scratch
    directory; nothing else in the cache and nothing in the installation
    is touched, and no later item is requested. The cache is a
    directory with no directory of the item's name and no regular file
    of the scratch name, which differs from the item's name. *)
Theorem not_an_archive_stops_run st pre name post w w1 resp :
  run st pre w = (Success, w1) ->
  http_get (requests w1) (url_of name) = Ok resp ->
  status_code resp = 200 ->
  unzip (content resp) = None ->
  isdir (cache w1) [] = true ->
  isdir (cache w1) (dest_path name) = false ->
  file_at (cache w1) (extract_dir name) = None ->
  extract_dir_name name <> name ->
  exists c,
    run st (pre ++ name :: post) w =
    (ProcessingError BadZipFile,
     Build_world c (disk w1) (requests w1 ++ [url_of name])) /\
    file_at c (dest_path name) = Some (content resp) /\
    isdir c (extract_dir name) = true /\
    forall k q, k <> name -> k <> extract_dir_name name ->
                lookup c (k :: q) = lookup (cache w1) (k :: q).
Proof.
  intros Hpre Hget Hstatus Hzip Hroot Hnodir Hnofile Hne.
  apply run_success in Hpre as (Hpath & Hexe & Hpre).
  rewrite run_valid by assumption.
  rewrite (run_items_app _ _ _ _ _ _ _ _ Hpre).
  cbn [Worker.run_items]. unfold Worker.process_item, Worker.fetch_and_distribute,
    Worker.fetch_and_extract.
  fold (url_of name). rewrite Hget, Hstatus. cbn [Nat.eqb negb].
  destruct (write_file_succeeds (dest_path name) (content resp) (cache w1))
    as [c1 E1]; [discriminate|exact Hroot|exact Hnodir|].
  rewrite E1.
  pose proof (write_file_at _ _ _ _ E1) as A1.
  assert (Hdiv : diverge (dest_path name) (extract_dir name))
    by (apply top_diverge; congruence).
  destruct (makedirs_top_succeeds (extract_dir_name name) c1) as [c2 E2].
  { now rewrite (write_file_isdir _ _ _ _ [] E1). }
  { unfold file_at. fold (extract_dir name).
    now rewrite (write_file_frame _ _ _ _ _ E1 Hdiv). }
  fold (extract_dir name) in E2. rewrite E2.
  assert (A2 : lookup c2 (dest_path name) = Some (File (content resp))).
  { pose proof (makedirs_keeps _ _ _ (dest_path name) E2) as K.
    now rewrite A1 in K. }
  unfold extract_archive, read_file. rewrite A2, Hzip.
  exists c2. split; [reflexivity|]. split; [|split].
  - unfold file_at. now rewrite A2.
  - eapply makedirs_isdir_at; eauto.
  - intros k q Hk1 Hk2.
    rewrite (makedirs_frame_top _ _ _ _ k q E2) by assumption.
    apply (write_file_frame _ _ _ _ (k :: q) E1). now apply top_diverge.
Qed.

End Run.

End RunFacts.

(* ================================================================== *)
(** * The overlay routine: what it leaves alone *)
(* ================================================================== *)

Module OverlayFrame.
Import FS FSFacts Overlay MergeFacts ApplyFacts.

Lemma in_names_assoc k (es : listing) :
  In k (names es) -> exists v, assoc k es = Some v.
Proof.
  induction es as [|[k' v'] es IH]; cbn; [intros []|].
  destruct (String.eqb_spec k k') as [->|Hne]; [eauto|].
  intros [H|H]; [congruence|auto].
Qed.

Lemma listed_exists files items k :
  listdir files ONLINE_FIX_DIR = Ok items -> In k items ->
  exists_ files (source k) = true.
Proof.
  unfold listdir, exists_, source. rewrite lookup_app. intros H Hin.
  destruct (lookup files ONLINE_FIX_DIR) as [[d|es]|]; try discriminate.
  inversion H; subst. apply in_names_assoc in Hin as [v Hv].
  rewrite lookup_cons_dir, Hv. now destruct v.
Qed.

(** The first loop leaves alone what it has no entry for, and what it
    passes over. *)
Lemma copy_tops_frame_unless files items t t' oe k q :
  copy_tops files items t = (t', oe) ->
  (In k items -> skipped k = true) ->
  lookup t' (k :: q) = lookup t (k :: q).
Proof.
  revert t. induction items as [|i l IH]; intros t H Hk; cbn [copy_tops] in H.
  - now inversion H.
  - destruct (copy_top files i t) as [t1|] eqn:E.
    + rewrite (IH _ H) by auto using in_cons.
      destruct (String.eqb_spec k i) as [->|Hne].
      * rewrite copy_top_skipped in E by auto using in_eq. now inversion E.
      * eapply copy_top_frame; eauto.
    + now inversion H.
Qed.


(** X5: whatever the routine ends with, an entry of the chosen directory
    is as it was, with all below it, when it is not the data directory
    found and the overlay has no entry of its name, or only one the
    first loop passes over ("data" in any letter case). *)
Theorem overlay_leaves_other_entries files t k q :
  find_data_folder t <> Some k ->
  exists_ files (source k) = false \/ skipped k = true ->
  lookup (snd (insert_online_fix files t)) (k :: q) = lookup t (k :: q).
Proof.
  intros HD Hk. unfold insert_online_fix.
  destruct (negb (exists_ t [MARKER])); [reflexivity|].
  destruct (find_data_folder t) as [D|] eqn:ED; [|reflexivity].
  destruct (negb (exists_ files ONLINE_FIX_DIR)); [reflexivity|].
  destruct (_ || _); [reflexivity|].
  destruct (listdir files ONLINE_FIX_DIR) as [items|] eqn:El; [|reflexivity].
  destruct (copy_tops files items t) as [ta oe] eqn:Ec.
  assert (Hta : lookup ta (k :: q) = lookup t (k :: q)).
  { eapply copy_tops_frame_unless; eauto. intros Hin.
    destruct Hk as [Hk|Hk]; [|assumption].
    now rewrite (listed_exists _ _ _ El Hin) in Hk. }
  destruct oe as [e|]; [assumption|].
  destruct (merge_walk files SRC_DATA [D] (walk files SRC_DATA) ta)
    as [t1 oe] eqn:Em.
  assert (Ht1 : lookup t1 (k :: q) = lookup ta (k :: q)).
  { eapply merge_frame_top; eauto. congruence. }
  destruct oe; cbn [snd]; congruence.
Qed.

(** X6: when the overlay has no entry of the name of the data directory
    found (or only one the first loop passes over), the routine, whatever
    it ends with, removes nothing from the data directory: every
    directory below it is still a directory, and a file has the content
    it had, and no file is new, at a path that is not at or below the
    place of a file the walk of the overlay's [Data] reports. *)
Theorem overlay_merges_into_data_folder files t D q :
  find_data_folder t = Some D ->
  exists_ files (source D) = false \/ skipped D = true ->
  (isdir t (D :: q) = true ->
   isdir (snd (insert_online_fix files t)) (D :: q) = true) /\
  ((forall rel ds fs f,
       In (SRC_DATA ++ rel, ds, fs) (walk files SRC_DATA) -> In f fs ->
       ~ prefix_of (rel ++ [f]) q) ->
   file_at (snd (insert_online_fix files t)) (D :: q) = file_at t (D :: q)).
Proof.
  intros ED Hk. unfold insert_online_fix. rewrite ED.
  destruct (negb (exists_ t [MARKER])); [auto|].
  destruct (negb (exists_ files ONLINE_FIX_DIR)); [auto|].
  destruct (_ || _); [auto|].
  destruct (listdir files ONLINE_FIX_DIR) as [items|] eqn:El; [|auto].
  destruct (copy_tops files items t) as [ta oe] eqn:Ec.
  assert (Hta : lookup ta (D :: q) = lookup t (D :: q)).
  { eapply copy_tops_frame_unless; eauto. intros Hin.
    destruct Hk as [Hk|Hk]; [|assumption].
    now rewrite (listed_exists _ _ _ El Hin) in Hk. }
  assert (Hdir : isdir ta (D :: q) = isdir t (D :: q))
    by (unfold isdir; now rewrite Hta).
  assert (Hfile : file_at ta (D :: q) = file_at t (D :: q))
    by (unfold file_at; now rewrite Hta).
  destruct oe as [e|]; cbn [snd]; [split; congruence|].
  destruct (merge_walk files SRC_DATA [D] (walk files SRC_DATA) ta)
    as [t1 oe] eqn:Em.
  assert (H1 : isdir t (D :: q) = true -> isdir t1 (D :: q) = true).
  { intros H. eapply merge_walk_isdir; [eassumption|]. congruence. }
  assert (H2 : (forall rel ds fs f,
                   In (SRC_DATA ++ rel, ds, fs) (walk files SRC_DATA) ->
                   In f fs -> ~ prefix_of (rel ++ [f]) q) ->
               file_at t1 (D :: q) = file_at t (D :: q)).
  { intros H. rewrite <- Hfile. eapply merge_walk_file_at; eauto.
    intros root ds fs f Hin Hf [r Hr].
    assert (Hroot : exists rel, root = SRC_DATA ++ rel).
    { unfold walk in Hin. destruct (lookup files SRC_DATA); [|destruct Hin].
      eapply walk_node_roots; eauto. }
    destruct Hroot as [rel ->]. rewrite dest_app in Hr.
    apply (H rel ds fs f Hin Hf). exists r.
    cbn [app] in Hr. inversion Hr. now rewrite <- app_assoc. }
  destruct oe; cbn [snd]; auto.
Qed.

End OverlayFrame.

(* ================================================================== *)
(** * The search bar: [filter_list] *)
(* ================================================================== *)

Module SearchFacts.
Import Gui.

Lemma prefix_spec a s :
  String.prefix a s = true <-> exists post, s = (a ++ post)%string.
Proof.
  revert s. induction a as [|c a IH]; intros s.
  - split; [intros _; now exists s|intros _; now destruct s].
  - destruct s as [|c' s]; cbn;
      [split; [discriminate|intros [post H]; discriminate]|].
    destruct (Ascii.ascii_dec c c') as [->|Hne].
    + rewrite IH. split; intros [post H]; exists post; [now rewrite H|].
      now inversion H.
    + split; [discriminate|]. intros [post H]. inversion H. congruence.
Qed.

(** [sub in s]: [s] is some text, [sub], some text. *)
Lemma contains_spec sub s :
  Str.contains sub s = true <->
  exists pre post, s = (pre ++ sub ++ post)%string.
Proof.
  induction s as [|c s IH]; cbn [Str.contains].
  - rewrite orb_false_r, prefix_spec. split.
    + intros [post H]. now exists ""%string, post.
    + intros ([|c pre] & post & H); [eauto|discriminate].
  - rewrite orb_true_iff, prefix_spec, IH. split.
    + intros [[post H]|(pre & post & H)].
      * now exists ""%string, post.
      * exists (String c pre), post. cbn. now rewrite H.
    + intros ([|c' pre] & post & H).
      * left. now exists post.
      * right. inversion H. now exists pre, post.
Qed.

Lemma append_assoc (a b c : string) :
  ((a ++ b) ++ c = a ++ b ++ c)%string.
Proof. induction a as [|x a IH]; cbn; [reflexivity|now rewrite IH]. Qed.

Lemma contains_trans a b c :
  Str.contains a b = true -> Str.contains b c = true ->
  Str.contains a c = true.
Proof.
  rewrite !contains_spec. intros (p1 & q1 & ->) (p2 & q2 & ->).
  exists (p2 ++ p1)%string, (q1 ++ q2)%string.
  now rewrite !append_assoc.
Qed.

Lemma contains_empty s : Str.contains "" s = true.
Proof. destruct s; reflexivity. Qed.

Lemma matching_filter text all :
  matching text all =
  filter (fun f => Str.contains (Str.lower text) (Str.lower f)) all.
Proof.
  unfold matching. destruct (String.eqb_spec text "") as [->|_]; [|reflexivity].
  cbn [Str.lower]. induction all as [|f all IH]; [reflexivity|].
  cbn [filter]. now rewrite contains_empty, <- IH.
Qed.

(** X8: when the text [t1] occurs in the text [t2] (both in lower
    case), the list shown for [t2] is the list shown for [t1] with the
    names left out that do not contain [t2]: a longer text shows no
    name the shorter one did not show. *)
Theorem filter_list_narrows t1 t2 g :
  Str.contains (Str.lower t1) (Str.lower t2) = true ->
  filtered_files (filter_list t2 g) =
    matching t2 (filtered_files (filter_list t1 g)) /\
  incl (filtered_files (filter_list t2 g)) (filtered_files (filter_list t1 g)).
Proof.
  intros H. cbn [filter_list filtered_files].
  assert (E : matching t2 (files g) = matching t2 (matching t1 (files g))).
  { rewrite !matching_filter. induction (files g) as [|f l IH]; [reflexivity|].
    cbn [filter].
    destruct (Str.contains (Str.lower t2) (Str.lower f)) eqn:E2.
    - rewrite (contains_trans _ _ _ H E2). cbn [filter]. now rewrite E2, IH.
    - destruct (Str.contains (Str.lower t1) (Str.lower f)); [|assumption].
      cbn [filter]. now rewrite E2. }
  split; [assumption|]. rewrite E, (matching_filter t2).
  intros f Hf. now apply filter_In in Hf.
Qed.

End SearchFacts.

(* ================================================================== *)
(** * Dictionaries under string keys *)
(* ================================================================== *)

Module PyFacts.
Import Py.

(** A string equals, as a key, only itself. *)
Lemma key_eqb_str s k : key_eqb (PStr s) k = true <-> k = PStr s.
Proof.
  destruct k; cbn; try (split; [discriminate|congruence]).
  rewrite String.eqb_eq. split; congruence.
Qed.

Lemma key_eqb_str_r s k : key_eqb k (PStr s) = true <-> k = PStr s.
Proof.
  destruct k as [|b|z|f|s'|l|d]; cbn; try destruct f; cbn;
    try (split; [discriminate|congruence]).
  rewrite String.eqb_eq. split; congruence.
Qed.

Lemma key_eqb_str_refl s : key_eqb (PStr s) (PStr s) = true.
Proof. now apply key_eqb_str. Qed.

Lemma get_item_set_item d k v s :
  get_item (set_item d k v) (PStr s) =
  if key_eqb (PStr s) k then Some v else get_item d (PStr s).
Proof.
  induction d as [|[k' v'] d IH]; cbn [set_item get_item].
  - now destruct (key_eqb (PStr s) k).
  - destruct (key_eqb k k') eqn:E; cbn [get_item].
    + destruct (key_eqb (PStr s) k') eqn:E'.
      * apply key_eqb_str in E'. subst k'. apply key_eqb_str_r in E. subst k.
        now rewrite key_eqb_str_refl.
      * destruct (key_eqb (PStr s) k) eqn:E''; [|reflexivity].
        apply key_eqb_str in E''. subst k. congruence.
    + destruct (key_eqb (PStr s) k') eqn:E'; [|assumption].
      destruct (key_eqb (PStr s) k) eqn:E''; [|reflexivity].
      apply key_eqb_str in E''. subst k. congruence.
Qed.

Lemma get_item_in d s v :
  get_item d (PStr s) = Some v -> In (PStr s) (map fst d).
Proof.
  induction d as [|[k' v'] d IH]; cbn [get_item map fst In]; [discriminate|].
  destruct (key_eqb (PStr s) k') eqn:E; [|auto].
  apply key_eqb_str in E. intros _. now left.
Qed.

(** [d.update(o)] for a dictionary [o], seen through a string key. *)
Lemma get_item_update_dict o d s :
  NoDup (map fst o) ->
  get_item (fst (update (PDict o) d)) (PStr s) =
  match get_item o (PStr s) with
  | Some v => Some v
  | None => get_item d (PStr s)
  end.
Proof.
  cbn [update fst]. revert d.
  induction o as [|[k v] o IH]; intros d Hnd; [reflexivity|].
  cbn [fold_left fst snd get_item map] in *. inversion Hnd; subst.
  rewrite IH by assumption. rewrite get_item_set_item.
  destruct (key_eqb (PStr s) k) eqn:E; [|reflexivity].
  apply key_eqb_str in E. subst k.
  destruct (get_item o (PStr s)) eqn:G; [|reflexivity].
  now apply get_item_in in G.
Qed.

(** Storing an item removes no key. *)
Lemma get_item_set_item_kept d k v s :
  get_item d (PStr s) <> None -> get_item (set_item d k v) (PStr s) <> None.
Proof.
  rewrite get_item_set_item. now destruct (key_eqb (PStr s) k).
Qed.

Lemma update_pairs_kept items d s :
  get_item d (PStr s) <> None ->
  get_item (fst (update_pairs items d)) (PStr s) <> None.
Proof.
  revert d. induction items as [|item rest IH]; intros d H; [assumption|].
  cbn [update_pairs]. destruct (pair_of item) as [[k v]|e]; [|assumption].
  apply IH. now apply get_item_set_item_kept.
Qed.

Lemma update_kept other d s :
  get_item d (PStr s) <> None ->
  get_item (fst (update other d)) (PStr s) <> None.
Proof.
  intros H.
  assert (Hfold : forall o d0, get_item d0 (PStr s) <> None ->
            get_item (fold_left (fun d1 kv => set_item d1 (fst kv) (snd kv)) o d0)
                     (PStr s) <> None).
  { induction o as [|kv o IH]; intros d0 H0; [assumption|].
    apply IH. now apply get_item_set_item_kept. }
  destruct other; cbn [update iterate fst]; auto using update_pairs_kept.
Qed.

(** A new string key goes to the end; a key that is there keeps its
    place. *)
Lemma set_item_new d s v :
  ~ In (PStr s) (map fst d) -> set_item d (PStr s) v = d ++ [(PStr s, v)].
Proof.
  induction d as [|[k' v'] d IH]; cbn [set_item map fst In app]; [reflexivity|].
  intros H. destruct (key_eqb (PStr s) k') eqn:E.
  - apply key_eqb_str in E. subst k'. tauto.
  - rewrite IH by tauto. reflexivity.
Qed.

Lemma set_item_head s v v' d :
  set_item ((PStr s, v') :: d) (PStr s) v = (PStr s, v) :: d.
Proof. cbn [set_item]. now rewrite key_eqb_str_refl. Qed.

Lemma set_item_skip k' s v v' d :
  k' <> PStr s ->
  set_item ((k', v') :: d) (PStr s) v = (k', v') :: set_item d (PStr s) v.
Proof.
  intros H. cbn [set_item]. destruct (key_eqb (PStr s) k') eqn:E; [|reflexivity].
  apply key_eqb_str in E. congruence.
Qed.

(** Storing under a string key adds at most that key, and no key
    twice. *)
Lemma set_item_keys d s v k :
  In k (map fst (set_item d (PStr s) v)) -> In k (map fst d) \/ k = PStr s.
Proof.
  induction d as [|[k' v'] d IH]; cbn [set_item map fst In].
  - intros [<-|[]]. now right.
  - destruct (key_eqb (PStr s) k'); cbn [map fst In]; tauto.
Qed.

Lemma set_item_nodup d s v :
  NoDup (map fst d) -> NoDup (map fst (set_item d (PStr s) v)).
Proof.
  induction d as [|[k' v'] d IH]; cbn [set_item map fst]; intros H.
  - constructor; [intros []|constructor].
  - destruct (key_eqb (PStr s) k') eqn:E; cbn [map fst]; [assumption|].
    inversion H as [|? ? Hn Hd]; subst. constructor; [|auto].
    intros Hin. apply set_item_keys in Hin as [Hin| ->]; [auto|].
    now rewrite key_eqb_str_refl in E.
Qed.

End PyFacts.

(* ================================================================== *)
(** * The state file: what is loaded, what comes back *)
(* ================================================================== *)

Module StateFacts.
Import FS FSFacts Py PyFacts State.

Section Persist.
Variable loads : string -> option pyval.
Variable dumps : pyval -> string.

Local Abbreviation load_state := (load_state loads).
Local Abbreviation save_state := (save_state dumps).

Lemma read_state_file cwd text :
  file_at cwd STATE_FILE = Some text ->
  exists_ cwd STATE_FILE = true /\ read_file cwd STATE_FILE = Ok text.
Proof.
  unfold file_at, exists_, read_file.
  destruct (lookup cwd STATE_FILE) as [[d|es]|]; try discriminate.
  now intros [= ->].
Qed.

(** X9: [load_state] answers the defaults, unchanged, when there is no
    state file, when it is a directory, when its text cannot be decoded,
    and when the text decodes to anything but a dictionary. *)
Theorem load_state_falls_back cwd :
  exists_ cwd STATE_FILE = false \/
  isdir cwd STATE_FILE = true \/
  (exists text, file_at cwd STATE_FILE = Some text /\
                forall data, loads text <> Some (PDict data)) ->
  load_state cwd = default.
Proof.
  unfold State.load_state. intros [H|[H|(text & H & Hl)]].
  - now rewrite H.
  - unfold isdir in H. unfold exists_, read_file.
    now destruct (lookup cwd STATE_FILE) as [[d|es]|].
  - destruct (read_state_file _ _ H) as [-> ->].
    destruct (loads text) as [[]|]; try reflexivity. now destruct (Hl entries).
Qed.

(** X10: whatever the state file holds, the settings [load_state]
    answers have a value for each of the five keys of the defaults. *)
Theorem load_state_has_every_setting cwd :
  Forall (fun key => get_item (settings (load_state cwd)) (PStr key) <> None)
         ["steam_path"; "dark_theme"; "delete_after"; "win_notify";
          "restart_steam"].
Proof.
  assert (Hd : forall key,
             In key ["steam_path"; "dark_theme"; "delete_after"; "win_notify";
                     "restart_steam"] ->
             get_item default_settings (PStr key) <> None).
  { intros key H. cbn in H.
    repeat (destruct H as [<-|H]; [discriminate|]). destruct H. }
  apply Forall_forall. intros key Hkey. specialize (Hd key Hkey).
  unfold State.load_state.
  destruct (exists_ cwd STATE_FILE); [|assumption].
  destruct (read_file cwd STATE_FILE); [|assumption].
  destruct (loads a) as [[]|]; try assumption.
  pose proof (update_kept (get entries "settings" (PDict [])) _ _ Hd) as K.
  destruct (update _ default_settings) as [s [e|]]; exact K.
Qed.

(** X11: for a state file that decodes to a dictionary whose
    ['settings'] is a dictionary (or is absent), the value loaded for a
    string key is the saved one when the file has the key, and the
    default otherwise (none for a key that is neither saved nor a
    default); ['added'] is the saved object, or the empty list. *)
Theorem load_state_merges_saved_settings cwd text data saved key :
  file_at cwd STATE_FILE = Some text ->
  loads text = Some (PDict data) ->
  get data "settings" (PDict []) = PDict saved ->
  NoDup (map fst saved) ->
  get_item (settings (load_state cwd)) (PStr key) =
    match get_item saved (PStr key) with
    | Some v => Some v
    | None => get_item default_settings (PStr key)
    end /\
  added (load_state cwd) = get data "added" (PList []).
Proof.
  intros Hf Hl Hs Hnd. unfold State.load_state.
  destruct (read_state_file _ _ Hf) as [-> ->]. rewrite Hl, Hs.
  pose proof (get_item_update_dict saved default_settings key Hnd) as G.
  cbn [update] in *. cbn [fst settings added] in *. auto.
Qed.

Lemma update_pairs_stops pairs bad rest e d :
  Forall (fun kv => hashable (fst kv) = true) pairs ->
  pair_of bad = Raised e ->
  update_pairs (map (fun kv => PList [fst kv; snd kv]) pairs ++ bad :: rest) d =
  (fold_left (fun d1 kv => set_item d1 (fst kv) (snd kv)) pairs d, Some e).
Proof.
  intros Hp Hbad. revert d.
  induction Hp as [|[k v] pairs Hk _ IH]; intros d; cbn [map app update_pairs].
  - now rewrite Hbad.
  - cbn [pair_of iterate fst snd] in *. rewrite Hk. apply IH.
Qed.

(** X12: when ['settings'] in the state file is a list, it is read as
    key and value pairs; with a first element [bad] that is no pair
    (after the pairs [pairs]), [load_state] answers the defaults with
    the pairs before [bad] stored in them, and with the empty list for
    ['added'], whatever the file has for it. *)
Theorem load_state_keeps_pairs_before_bad_one cwd text data pairs bad rest e :
  file_at cwd STATE_FILE = Some text ->
  loads text = Some (PDict data) ->
  get data "settings" (PDict []) =
    PList (map (fun kv => PList [fst kv; snd kv]) pairs ++ bad :: rest) ->
  Forall (fun kv => hashable (fst kv) = true) pairs ->
  pair_of bad = Raised e ->
  load_state cwd =
  {| settings := fold_left (fun d kv => set_item d (fst kv) (snd kv)) pairs
                           default_settings;
     added := PList [] |}.
Proof.
  intros Hf Hl Hs Hp Hbad. unfold State.load_state.
  destruct (read_state_file _ _ Hf) as [-> ->]. rewrite Hl, Hs.
  cbn [update iterate]. now rewrite (update_pairs_stops _ _ _ _ _ Hp Hbad).
Qed.

Lemma store_new_items extras d :
  Forall (fun kv => exists key, fst kv = PStr key) extras ->
  NoDup (map fst (d ++ extras)) ->
  fold_left (fun d1 kv => set_item d1 (fst kv) (snd kv)) extras d = d ++ extras.
Proof.
  intros Hs. revert d.
  induction Hs as [|[k v] extras [key Hk] _ IH]; intros d Hnd; cbn [fold_left].
  - now rewrite app_nil_r.
  - cbn [fst snd] in *. subst k.
    assert (Hnew : ~ In (PStr key) (map fst d)).
    { rewrite map_app in Hnd. cbn [map fst] in Hnd.
      apply NoDup_remove_2 in Hnd. rewrite in_app_iff in Hnd. tauto. }
    rewrite (set_item_new _ _ _ Hnew), IH, <- app_assoc; [reflexivity|].
    now rewrite <- app_assoc.
Qed.

(** X13: a state whose settings are the five keys of the defaults, in
    their order, followed by other string keys, none twice, is loaded
    back as it was saved, when the working directory is a directory in
    which the state file's name is not a directory's, and the decoder
    reads what the encoder writes for this state; saving touches
    nothing in the working directory but the state file. *)
Theorem saved_state_loads_back st v1 v2 v3 v4 v5 extras cwd :
  settings st =
    [(PStr "steam_path", v1); (PStr "dark_theme", v2);
     (PStr "delete_after", v3); (PStr "win_notify", v4);
     (PStr "restart_steam", v5)] ++ extras ->
  Forall (fun kv => exists key, fst kv = PStr key) extras ->
  NoDup (map fst (settings st)) ->
  isdir cwd [] = true ->
  isdir cwd STATE_FILE = false ->
  loads (dumps (to_py st)) = Some (to_py st) ->
  load_state (save_state st cwd) = st /\
  forall q, diverge STATE_FILE q ->
            lookup (save_state st cwd) q = lookup cwd q.
Proof.
  intros Hs Hx Hnd Hroot Hfile Hrt. unfold State.save_state.
  destruct (write_file_succeeds STATE_FILE (dumps (to_py st)) cwd)
    as [cwd1 E]; [discriminate|exact Hroot|exact Hfile|].
  rewrite E. cbn [swallow]. split; [|intros q Hq; eapply write_file_frame; eauto].
  pose proof (write_file_at _ _ _ _ E) as A.
  assert (Hf : file_at cwd1 STATE_FILE = Some (dumps (to_py st)))
    by (unfold file_at; now rewrite A).
  unfold State.load_state. destruct (read_state_file _ _ Hf) as [-> ->].
  rewrite Hrt. destruct st as [s a]. cbn [settings added to_py] in *.
  replace (get [(PStr "settings", PDict s); (PStr "added", a)] "settings"
               (PDict [])) with (PDict s) by reflexivity.
  replace (get [(PStr "settings", PDict s); (PStr "added", a)] "added"
               (PList [])) with a by reflexivity.
  cbn [update]. f_equal. subst s. rewrite fold_left_app.
  apply store_new_items; assumption.
Qed.

(** What is loaded from a state that was just saved. *)
Lemma load_saved st cwd :
  isdir cwd [] = true ->
  isdir cwd STATE_FILE = false ->
  loads (dumps (to_py st)) = Some (to_py st) ->
  load_state (save_state st cwd) =
  {| settings := fst (update (PDict (settings st)) default_settings);
     added := added st |}.
Proof.
  intros Hroot Hfile Hrt. unfold State.save_state.
  destruct (write_file_succeeds STATE_FILE (dumps (to_py st)) cwd)
    as [cwd1 E]; [discriminate|exact Hroot|exact Hfile|].
  rewrite E. cbn [swallow].
  pose proof (write_file_at _ _ _ _ E) as A.
  assert (Hf : file_at cwd1 STATE_FILE = Some (dumps (to_py st)))
    by (unfold file_at; now rewrite A).
  unfold State.load_state. destruct (read_state_file _ _ Hf) as [-> ->].
  rewrite Hrt. destruct st as [s a]. reflexivity.
Qed.

(** Saving changes no file but the state file, and no directory. *)
Lemma save_state_frame st cwd :
  (forall q, ~ prefix_of STATE_FILE q ->
             file_at (save_state st cwd) q = file_at cwd q) /\
  (forall q, isdir (save_state st cwd) q = isdir cwd q).
Proof.
  unfold State.save_state.
  destruct (write_file STATE_FILE (dumps (to_py st)) cwd) as [cwd1|e] eqn:E;
    cbn [swallow]; [|now split].
  split; intros q.
  - intros Hq. eapply write_file_file_at; eauto.
  - eapply write_file_isdir; eauto.
Qed.

End Persist.

End StateFacts.

(* ================================================================== *)
(** * The catalogue as the window fetches it *)
(* ================================================================== *)

Module FetchFacts.
Import FS Py.

Section Fetch.
Variable requests_get : string -> try Worker.response.
Variable json_of : string -> option pyval.

Local Abbreviation fetch_names := (Gui.fetch_names requests_get json_of).
Local Abbreviation fetch := (Gui.fetch_files requests_get json_of).

(** The comprehension over elements that all have a string for
    ['name']. *)
Lemma zip_names_of_names entries names :
  Forall2 (fun f name => Gui.name_of f = Done (PStr name)) entries names ->
  Gui.zip_names entries =
  Done (filter (fun name => Str.endswith name ZIP_EXT) names).
Proof.
  induction 1 as [|f name entries names Hf _ IH]; [reflexivity|].
  cbn [Gui.zip_names filter]. rewrite Hf, IH. reflexivity.
Qed.

(** It raises at the first element that has none. *)
Lemma zip_names_bad good bad rest names :
  Forall2 (fun f name => Gui.name_of f = Done (PStr name)) good names ->
  (forall name, Gui.name_of bad <> Done (PStr name)) ->
  exists e, Gui.zip_names (good ++ bad :: rest) = Raised e.
Proof.
  intros Hgood Hbad.
  induction Hgood as [|f name good names Hf _ [e IH]]; cbn [app Gui.zip_names].
  - destruct (Gui.name_of bad) as [[]|e]; eauto. now destruct (Hbad s).
  - rewrite Hf, IH. cbn [and_then]. eauto.
Qed.

Lemma status_passes resp :
  Worker.status_code resp < 400 \/ 600 <= Worker.status_code resp ->
  Gui.raise_for_status resp = Done tt.
Proof.
  intros H. unfold Gui.raise_for_status. cbv zeta.
  destruct (Nat.leb_spec 400 (Worker.status_code resp));
    destruct (Nat.ltb_spec (Worker.status_code resp) 600); cbn; try reflexivity.
  lia.
Qed.

Lemma status_raises resp :
  400 <= Worker.status_code resp < 600 ->
  Gui.raise_for_status resp = Raised HTTPError.
Proof.
  intros H. unfold Gui.raise_for_status. cbv zeta.
  destruct (Nat.leb_spec 400 (Worker.status_code resp));
    destruct (Nat.ltb_spec (Worker.status_code resp) 600); cbn; try reflexivity;
    lia.
Qed.

(** X14: when the request is answered with a status outside 400-599
    and a list of dictionaries that each have a string of ASCII text
    for ['name'], the catalogue of the window is [fetch_files] of these
    names: the names ending in ".zip", sorted by their lower-case form;
    the shown list is the same list; the widget gets these names after
    those it had; the label tells their number; no box is shown and the
    order, the workers and the settings are as before. *)
Theorem fetch_files_lists_catalogue g resp entries names :
  requests_get Gui.API_URL = Done resp ->
  Worker.status_code resp < 400 \/ 600 <= Worker.status_code resp ->
  json_of (Worker.content resp) = Some (PList entries) ->
  Forall2 (fun f name => Gui.name_of f = Done (PStr name)) entries names ->
  Forall (fun name => Str.is_ascii name = true) names ->
  Gui.files (fst (fetch g)) = fetch_files names /\
  Gui.filtered_files (fst (fetch g)) = fetch_files names /\
  Gui.list_widget (fst (fetch g)) = Gui.list_widget g ++ fetch_files names /\
  Gui.label (fst (fetch g)) = Gui.found (List.length (fetch_files names)) /\
  snd (fetch g) = [] /\
  Forall (fun name => Str.endswith name ZIP_EXT = true)
         (Gui.files (fst (fetch g))) /\
  Gui.order (fst (fetch g)) = Gui.order g /\
  Gui.workers (fst (fetch g)) = Gui.workers g /\
  Gui.settings_values (fst (fetch g)) = Gui.settings_values g.
Proof.
  intros Hget Hstatus Hjson Hnames _.
  assert (E : fetch_names =
              Done (filter (fun name => Str.endswith name ZIP_EXT) names)).
  { unfold Gui.fetch_names. rewrite Hget. cbn [and_then].
    rewrite (status_passes _ Hstatus). cbn [and_then]. rewrite Hjson.
    cbn [and_then iterate]. now apply zip_names_of_names. }
  unfold Gui.fetch_files. rewrite E. cbn [fst snd Gui.files Gui.filtered_files
    Gui.list_widget Gui.label Gui.order Gui.workers Gui.settings_values].
  fold (fetch_files names). repeat split.
  apply Forall_forall. intros name Hin. unfold fetch_files in Hin.
  apply (Permutation_in _ (Permutation_sym (StrFacts.sort_by_perm _ _))) in Hin.
  now apply filter_In in Hin.
Qed.

(** X15: when the request raises, or is answered with a status from 400
    to 599, or with a body that is no JSON text, or with JSON that
    cannot be iterated over, or that has, after any number of good
    elements, one element without a string for ['name'], the window is
    left exactly as it was (an earlier catalogue included) and one box
    tells the failure. *)
Theorem fetch_files_failure_changes_nothing g :
  (exists e, requests_get Gui.API_URL = Raised e) \/
  (exists resp,
      requests_get Gui.API_URL = Done resp /\
      (400 <= Worker.status_code resp < 600 \/
       (Worker.status_code resp < 400 \/ 600 <= Worker.status_code resp) /\
       (json_of (Worker.content resp) = None \/
        exists data,
          json_of (Worker.content resp) = Some data /\
          ((exists e, iterate data = Raised e) \/
           exists good bad rest names,
             iterate data = Done (good ++ bad :: rest) /\
             Forall2 (fun f name => Gui.name_of f = Done (PStr name))
                     good names /\
             forall name, Gui.name_of bad <> Done (PStr name))))) ->
  exists e, fetch g = (g, [Gui.FetchFailed e]).
Proof.
  intros H.
  assert (E : exists e, fetch_names = Raised e).
  { unfold Gui.fetch_names.
    destruct H as [[e ->]|(resp & -> & H)]; [now exists e|]. cbn [and_then].
    destruct H as [H|[Hs H]]; [rewrite (status_raises _ H); cbn [and_then]; eauto|].
    rewrite (status_passes _ Hs). cbn [and_then].
    destruct H as [->|(data & -> & H)]; cbn [and_then]; [eauto|].
    destruct H as [[e ->]|(good & bad & rest & names & -> & Hg & Hb)];
      cbn [and_then]; [eauto|].
    eapply zip_names_bad; eauto. }
  destruct E as [e E]. exists e. unfold Gui.fetch_files. now rewrite E.
Qed.

End Fetch.

End FetchFacts.

(* ================================================================== *)
(** * The window: the order, the workers, what the handlers keep *)
(* ================================================================== *)

Module GuiFacts.
Import FS Py Gui.

Section Handlers.
Variable requests_get : string -> try Worker.response.
Variable json_of : string -> option pyval.
Variable loads : string -> option pyval.
Variable dumps : pyval -> string.
Variable HAS_TOAST : bool.

Local Abbreviation handle := (handle dumps HAS_TOAST).
Local Abbreviation handle_all := (handle_all dumps HAS_TOAST).
Local Abbreviation all_picks_shown := (all_picks_shown dumps HAS_TOAST).
Local Abbreviation init := (init requests_get json_of loads).

Lemma handle_all_app l1 l2 g cwd :
  handle_all (l1 ++ l2) g cwd =
  match handle_all l1 g cwd with
  | (g1, cwd1, out1) =>
      match handle_all l2 g1 cwd1 with
      | (g2, cwd2, out2) => (g2, cwd2, out1 ++ out2)
      end
  end.
Proof.
  revert g cwd. induction l1 as [|e l1 IH]; intros g cwd; cbn [app Gui.handle_all].
  - now destruct (handle_all l2 g cwd) as [[g2 cwd2] out2].
  - destruct (handle e g cwd) as [[g1 cwd1] out1]. rewrite IH.
    destruct (handle_all l1 g1 cwd1) as [[g2 cwd2] out2].
    destruct (handle_all l2 g2 cwd2) as [[g3 cwd3] out3].
    now rewrite app_assoc.
Qed.

(** ** The order *)

Lemma add_to_order_all names g cwd :
  handle_all (map (fun name => AddToOrderClicked (Some name)) names) g cwd =
  ({| settings_values := settings_values g; added := added g;
      files := files g; filtered_files := filtered_files g;
      order := order g ++ names; workers := workers g;
      list_widget := list_widget g; order_list := order_list g ++ names;
      label := label g; style_sheet := style_sheet g;
      created := created g |}, cwd, []).
Proof.
  revert g. induction names as [|name names IH]; intros g; cbn [map Gui.handle_all].
  - rewrite !app_nil_r. now destruct g.
  - cbn [Gui.handle add_to_order]. rewrite IH.
    cbn [settings_values added files filtered_files order workers list_widget
         order_list label style_sheet created app].
    now rewrite <- !app_assoc.
Qed.

(** X16: names added to the order one after the other, then "Start
    Order": one worker is made and started, for the names that were in
    the order followed by the added ones, in that order (a name added
    twice is there twice); the order and its widget are empty
    afterwards; nothing else in the window changes and no box is
    shown. *)
Theorem queued_names_start_as_one_batch names g cwd :
  order g ++ names <> [] ->
  handle_all (map (fun name => AddToOrderClicked (Some name)) names
              ++ [StartOrderClicked]) g cwd =
  let w := {| wid := created g; items := order g ++ names;
              mark_added := true |} in
  ({| settings_values := settings_values g; added := added g;
      files := files g; filtered_files := filtered_files g;
      order := []; workers := workers g ++ [w];
      list_widget := list_widget g; order_list := [];
      label := label g; style_sheet := style_sheet g;
      created := S (created g) |}, cwd, [Start w]).
Proof.
  intros Hne. rewrite handle_all_app, add_to_order_all.
  cbn [Gui.handle_all Gui.handle start_order order].
  destruct (order g ++ names) eqn:E; [congruence|]. reflexivity.
Qed.

(** ** What the handlers keep *)

Lemma catalogue_names_same g g' l :
  files g' = files g -> catalogue_names g l -> catalogue_names g' l.
Proof. unfold catalogue_names. now intros ->. Qed.

Lemma matching_incl text all f : In f (matching text all) -> In f all.
Proof.
  unfold matching. destruct (text =? "")%string; [auto|].
  intros H. now apply filter_In in H.
Qed.

Lemma remove_worker_in w l x : In x (remove_worker w l) -> In x l.
Proof.
  induction l as [|w' l IH]; cbn [remove_worker]; [auto|].
  destruct (wid w' =? wid w)%nat; cbn [In]; tauto.
Qed.

Lemma remove_worker_forall (P : worker -> Prop) w l :
  Forall P l -> Forall P (remove_worker w l).
Proof.
  rewrite !Forall_forall. intros H x Hx. eauto using remove_worker_in.
Qed.

Lemma remove_worker_nodup w l :
  NoDup (map wid l) -> NoDup (map wid (remove_worker w l)).
Proof.
  induction l as [|w' l IH]; cbn [remove_worker map]; [auto|].
  intros H. inversion H as [|? ? Hn Hl]; subst.
  destruct (wid w' =? wid w)%nat; [assumption|]. cbn [map].
  constructor; [|auto]. intros Hin. apply Hn.
  apply in_map_iff in Hin as (x & <- & Hx). apply in_map.
  eauto using remove_worker_in.
Qed.

Lemma cleanup_worker_tidy w g :
  tidy g ->
  tidy (fst (cleanup_worker w g)) /\
  files (fst (cleanup_worker w g)) = files g /\
  starts_catalogue_names g (snd (cleanup_worker w g)).
Proof.
  intros (H1 & H2 & H3 & H4 & H5 & H6 & H7). unfold cleanup_worker.
  destruct (existsb _ (workers g)); cbn [fst snd].
  - split; [|split; [reflexivity|repeat constructor]].
    unfold tidy. cbn [order_list order list_widget filtered_files files
                      workers created].
    repeat split; try assumption;
      [now apply remove_worker_forall|now apply remove_worker_nodup].
  - split; [|split; [reflexivity|constructor]].
    unfold tidy. auto 10.
Qed.

Lemma start_processing_tidy batch mark g :
  tidy g -> batch <> [] -> catalogue_names g batch ->
  tidy (fst (start_processing batch mark g)) /\
  files (fst (start_processing batch mark g)) = files g /\
  starts_catalogue_names g (snd (start_processing batch mark g)).
Proof.
  intros (H1 & H2 & H3 & H4 & H5 & H6 & H7) Hne Hb.
  cbn [start_processing fst snd]. split; [|split; [reflexivity|]].
  - unfold tidy. cbn [order_list order list_widget filtered_files files
                      workers created].
    repeat split; try assumption.
    + apply Forall_app. split.
      * eapply Forall_impl; [|exact H6]. cbn beta. intros w [Hw Hlt].
        split; [assumption|lia].
      * constructor; [|constructor]. cbn [items wid]. split; [assumption|lia].
    + rewrite map_app. cbn [map wid].
      apply (Permutation_NoDup (Permutation_cons_append _ _)).
      constructor; [|assumption]. intros Hin.
      apply in_map_iff in Hin as (w & Hw & Hin).
      rewrite Forall_forall in H6. destruct (H6 w Hin) as [_ Hlt]. lia.
  - constructor; [|constructor]. cbn [items]. auto.
Qed.

Lemma on_worker_finished_starts_nothing message g cwd disk returns :
  starts_catalogue_names g
    (snd (on_worker_finished dumps HAS_TOAST message g cwd disk returns)).
Proof.
  unfold starts_catalogue_names, on_worker_finished, restart_steam. cbn [snd].
  repeat match goal with
         | |- context [if ?c then _ else _] => destruct c
         | |- context [match ?c with _ => _ end] => destruct c
         end; repeat constructor.
Qed.

(** One handler keeps the window tidy and the catalogue as it is, and
    starts only batches of catalogue names. *)
Lemma handle_tidy e g cwd :
  tidy g -> picks_shown e g ->
  tidy (fst (fst (handle e g cwd))) /\
  files (fst (fst (handle e g cwd))) = files g /\
  starts_catalogue_names g (snd (handle e g cwd)).
Proof.
  intros Ht Hp. pose proof Ht as (H1 & H2 & H3 & H4 & H5 & H6 & H7).
  destruct e as [text|[name|]|[name|]| |[values|]|w message disk returns|w message];
    cbn [Gui.handle picks_shown] in *.
  - (* the search bar *)
    cbn [fst snd filter_list files]. split; [|split; [reflexivity|constructor]].
    unfold tidy. cbn [order_list order list_widget filtered_files files
                      workers created].
    repeat split; try assumption.
    apply Forall_forall. intros f Hf. apply matching_incl in Hf.
    unfold catalogue_names in H3. rewrite Forall_forall in H3. auto.
  - (* Add *)
    cbn [add_now].
    assert (Hb : catalogue_names g [name]).
    { constructor; [|constructor]. rewrite H2 in Hp.
      unfold catalogue_names in H4. rewrite Forall_forall in H4. auto. }
    pose proof (start_processing_tidy [name] true g Ht) as K.
    destruct (start_processing [name] true g) as [g1 out]. cbn [fst snd] in *.
    apply K; [discriminate|assumption].
  - cbn [add_now fst snd]. split; [assumption|split; [reflexivity|]].
    repeat constructor.
  - (* Add To Order *)
    cbn [add_to_order fst snd files]. split; [|split; [reflexivity|constructor]].
    unfold tidy. cbn [order_list order list_widget filtered_files files
                      workers created].
    repeat split; try assumption; [now rewrite H1|].
    apply Forall_app. split; [assumption|]. constructor; [|constructor].
    rewrite H2 in Hp. unfold catalogue_names in H4.
    rewrite Forall_forall in H4. auto.
  - cbn [add_to_order fst snd]. split; [assumption|split; [reflexivity|]].
    repeat constructor.
  - (* Start Order *)
    unfold start_order. destruct (order g) as [|name rest] eqn:Eo.
    + cbn [fst snd]. split; [assumption|split; [reflexivity|]].
      repeat constructor.
    + set (g0 := {| settings_values := settings_values g; added := added g;
                    files := files g; filtered_files := filtered_files g;
                    order := []; workers := workers g;
                    list_widget := list_widget g; order_list := [];
                    label := label g; style_sheet := style_sheet g;
                    created := created g |}).
      assert (Ht0 : tidy g0).
      { unfold tidy, g0. cbn [order_list order list_widget filtered_files
                              files workers created].
        repeat split; try assumption. constructor. }
      pose proof (start_processing_tidy (name :: rest) true g0 Ht0) as K.
      destruct (start_processing (name :: rest) true g0) as [g1 out].
      cbn [fst snd] in *. apply K; [discriminate|exact H5].
  - (* Settings, accepted *)
    cbn [open_settings apply_theme fst snd files].
    split; [|split; [reflexivity|constructor]].
    unfold tidy. cbn [order_list order list_widget filtered_files files
                      workers created].
    auto 10.
  - cbn [open_settings fst snd]. split; [assumption|split; [reflexivity|]].
    constructor.
  - (* finished *)
    destruct (on_worker_finished dumps HAS_TOAST message g cwd disk returns)
      as [cwd1 out1] eqn:Ef.
    pose proof (cleanup_worker_tidy w g Ht) as (K1 & K2 & K3).
    destruct (cleanup_worker w g) as [g1 out2]. cbn [fst snd] in *.
    split; [assumption|split; [assumption|]].
    apply Forall_app. split; [|assumption].
    pose proof (on_worker_finished_starts_nothing message g cwd disk returns)
      as K4.
    now rewrite Ef in K4.
  - (* failed *)
    pose proof (cleanup_worker_tidy w g Ht) as (K1 & K2 & K3).
    destruct (cleanup_worker w g) as [g1 out2]. cbn [fst snd] in *.
    split; [assumption|split; [assumption|]].
    constructor; [exact I|assumption].
Qed.

Lemma zip_names_zip elements names :
  zip_names elements = Done names ->
  Forall (fun name => Str.endswith name ZIP_EXT = true) names.
Proof.
  revert names. induction elements as [|f rest IH]; intros names H;
    cbn [zip_names] in H.
  - inversion H. constructor.
  - destruct (name_of f) as [[| | | |name| |]|]; try discriminate.
    destruct (zip_names rest) as [names'|]; [|discriminate].
    cbn [and_then] in H. inversion H; subst. specialize (IH _ eq_refl).
    destruct (Str.endswith name ZIP_EXT) eqn:E; [constructor|]; assumption.
Qed.

Lemma fetch_names_zip names :
  fetch_names requests_get json_of = Done names ->
  Forall (fun name => Str.endswith name ZIP_EXT = true) names.
Proof.
  unfold fetch_names.
  destruct (requests_get API_URL) as [resp|]; [|discriminate]. cbn [and_then].
  destruct (raise_for_status resp); [|discriminate]. cbn [and_then].
  destruct (json_of (Worker.content resp)) as [data|]; [|discriminate].
  cbn [and_then]. destruct (iterate data); [|discriminate]. cbn [and_then].
  apply zip_names_zip.
Qed.

(** The window is tidy when it is made. *)
Lemma init_tidy cwd : tidy (fst (init cwd)).
Proof.
  unfold Gui.init, Gui.fetch_files.
  destruct (fetch_names requests_get json_of) as [names|] eqn:E; cbn [fst].
  - apply fetch_names_zip in E.
    assert (Hs : Forall (fun name =>
                   In name (Str.sort_by Str.lower names) /\
                   Str.endswith name ZIP_EXT = true)
                 (Str.sort_by Str.lower names)).
    { apply Forall_forall. intros name Hin. split; [assumption|].
      apply (Permutation_in _ (Permutation_sym (StrFacts.sort_by_perm _ _)))
        in Hin.
      rewrite Forall_forall in E. auto. }
    unfold tidy, catalogue_names.
    cbn [apply_theme order_list order list_widget filtered_files files
         workers created app map].
    repeat split; try assumption; constructor.
  - unfold tidy, catalogue_names.
    cbn [apply_theme order_list order list_widget filtered_files files
         workers created map].
    repeat split; constructor.
Qed.

Lemma handle_all_tidy events g cwd :
  tidy g -> all_picks_shown events g cwd ->
  tidy (fst (fst (handle_all events g cwd))) /\
  files (fst (fst (handle_all events g cwd))) = files g /\
  starts_catalogue_names g (snd (handle_all events g cwd)).
Proof.
  revert g cwd. induction events as [|e rest IH]; intros g cwd Ht Hp;
    cbn [Gui.handle_all Gui.all_picks_shown] in *.
  - cbn [fst snd]. split; [assumption|split; [reflexivity|constructor]].
  - destruct Hp as [Hp Hrest].
    destruct (handle_tidy e g cwd Ht Hp) as (K1 & K2 & K3).
    destruct (handle e g cwd) as [[g1 cwd1] out1]. cbn [fst snd] in *.
    destruct (IH g1 cwd1 K1 Hrest) as (L1 & L2 & L3).
    destruct (handle_all rest g1 cwd1) as [[g2 cwd2] out2]. cbn [fst snd] in *.
    split; [assumption|split; [congruence|]].
    apply Forall_app. split; [assumption|].
    eapply Forall_impl; [|exact L3]. intros [] H; try exact I.
    destruct H as [Hne H]. split; [assumption|].
    eapply catalogue_names_same; [|exact H]. now symmetry.
Qed.

(** X17: from the window as it is made, through any course of actions
    and signals in which the user picks what the list shows: the widget
    of the order shows the order and the list widget the filtered
    catalogue; every name of the catalogue, of the order and of a
    worker's batch is a name of the catalogue as it was fetched and ends
    in ".zip"; the workers in the list are different objects; the
    catalogue is the fetched one; and every batch that was started is
    not empty and made of such names. *)
Theorem window_stays_tidy cwd events :
  all_picks_shown events (fst (init cwd)) cwd ->
  tidy (fst (fst (handle_all events (fst (init cwd)) cwd))) /\
  files (fst (fst (handle_all events (fst (init cwd)) cwd))) =
    files (fst (init cwd)) /\
  starts_catalogue_names (fst (init cwd))
    (snd (handle_all events (fst (init cwd)) cwd)).
Proof. apply handle_all_tidy, init_tidy. Qed.

Lemma handle_added e g cwd :
  added (fst (fst (handle e g cwd))) = added g /\
  files (fst (fst (handle e g cwd))) = files g.
Proof.
  destruct e as [text|[name|]|[name|]| |[values|]|w message disk returns|w message];
    cbn [Gui.handle]; try (split; reflexivity).
  - unfold start_order. destruct (order g); split; reflexivity.
  - destruct (on_worker_finished _ _ _ _ _ _ _) as [cwd1 out1].
    unfold cleanup_worker. destruct (existsb _ _); split; reflexivity.
  - unfold cleanup_worker. destruct (existsb _ _); split; reflexivity.
Qed.

(** X18: no action and no signal changes the list of the names added
    before, or the catalogue: whatever batches are started and finish
    (their [mark_added] is set and never read), the window holds the
    [added] and the catalogue it had. *)
Theorem added_is_never_changed events g cwd :
  added (fst (fst (handle_all events g cwd))) = added g /\
  files (fst (fst (handle_all events g cwd))) = files g.
Proof.
  revert g cwd. induction events as [|e rest IH]; intros g cwd;
    cbn [Gui.handle_all]; [split; reflexivity|].
  destruct (handle_added e g cwd) as [K1 K2].
  destruct (handle e g cwd) as [[g1 cwd1] out1]. cbn [fst] in *.
  destruct (IH g1 cwd1) as [L1 L2].
  destruct (handle_all rest g1 cwd1) as [[g2 cwd2] out2]. cbn [fst] in *.
  split; congruence.
Qed.

(** ** The workers *)

Lemma remove_worker_absent w l :
  existsb (fun w' => (wid w' =? wid w)%nat) l = false ->
  filter (fun w' => negb (wid w' =? wid w)%nat) l = l.
Proof.
  induction l as [|w' l IH]; cbn [existsb filter]; [reflexivity|].
  intros H. apply orb_false_iff in H as [-> H]. cbn [negb]. now rewrite IH.
Qed.

Lemma remove_worker_filter w l :
  NoDup (map wid l) ->
  remove_worker w l = filter (fun w' => negb (wid w' =? wid w)%nat) l.
Proof.
  induction l as [|w' l IH]; cbn [remove_worker filter map]; [reflexivity|].
  intros H. inversion H as [|? ? Hn Hl]; subst.
  destruct (Nat.eqb_spec (wid w') (wid w)) as [E|E]; cbn [negb].
  - symmetry. apply remove_worker_absent.
    destruct (existsb _ l) eqn:Ex; [|reflexivity].
    apply existsb_exists in Ex as (x & Hx & Hw). apply Nat.eqb_eq in Hw.
    exfalso. apply Hn. rewrite E, <- Hw. now apply in_map.
  - now rewrite IH.
Qed.

(** X19: when the workers in the list are different objects (as they
    are, see above), [cleanup_worker] leaves the list without the worker
    and with the others in their order, and asks the thread to quit
    only if it was in the list; a second call for the same worker
    changes nothing and asks nothing. *)
Theorem ended_worker_leaves_the_list w g :
  NoDup (map wid (workers g)) ->
  workers (fst (cleanup_worker w g)) =
    filter (fun w' => negb (wid w' =? wid w)%nat) (workers g) /\
  (snd (cleanup_worker w g) = [QuitWait w] \/
   snd (cleanup_worker w g) = [] /\ fst (cleanup_worker w g) = g) /\
  cleanup_worker w (fst (cleanup_worker w g)) = (fst (cleanup_worker w g), []).
Proof.
  intros Hnd. destruct (cleanup_worker w g) as [g1 out] eqn:E.
  unfold cleanup_worker in E.
  destruct (existsb _ (workers g)) eqn:Ex; inversion E; subst; clear E;
    cbn [fst snd workers].
  - split; [now apply remove_worker_filter|]. split; [now left|].
    unfold cleanup_worker. cbn [workers].
    rewrite (remove_worker_filter _ _ Hnd).
    destruct (existsb _ (filter _ _)) eqn:Ex'; [|reflexivity].
    apply existsb_exists in Ex' as (x & Hx & Hw).
    apply filter_In in Hx as [_ Hx]. now rewrite Hw in Hx.
  - split; [now rewrite remove_worker_absent|]. split; [now right|].
    unfold cleanup_worker. now rewrite Ex.
Qed.

(** ** The working directory *)

Lemma handle_frame e g cwd :
  (forall q, ~ prefix_of State.STATE_FILE q ->
             file_at (snd (fst (handle e g cwd))) q = file_at cwd q) /\
  (forall q, isdir (snd (fst (handle e g cwd))) q = isdir cwd q).
Proof.
  destruct e as [text|sel|sel| |[values|]|w message disk returns|w message];
    cbn [Gui.handle].
  - now split.
  - destruct (add_now sel g). now split.
  - destruct (add_to_order sel g). now split.
  - destruct (start_order g). now split.
  - cbn [open_settings fst snd]. apply StateFacts.save_state_frame.
  - now split.
  - unfold on_worker_finished. destruct (cleanup_worker w g).
    cbn [fst snd]. apply StateFacts.save_state_frame.
  - destruct (cleanup_worker w g). now split.
Qed.

(** X20: the handlers of the search bar, of "Add", "Add To Order",
    "Start Order" and "Settings" and of the workers' signals (the events
    of [event]; not "Insert Online-Fix", which writes into the directory
    the user chooses), in any number and order, change no file of the
    working directory but the state file, and make or remove no
    directory. *)
Theorem window_writes_only_the_state_file events g cwd :
  (forall q, ~ prefix_of State.STATE_FILE q ->
             file_at (snd (fst (handle_all events g cwd))) q = file_at cwd q) /\
  (forall q, isdir (snd (fst (handle_all events g cwd))) q = isdir cwd q).
Proof.
  revert g cwd. induction events as [|e rest IH]; intros g cwd;
    cbn [Gui.handle_all]; [now split|].
  destruct (handle_frame e g cwd) as [K1 K2].
  destruct (handle e g cwd) as [[g1 cwd1] out1]. cbn [fst snd] in *.
  destruct (IH g1 cwd1) as [L1 L2].
  destruct (handle_all rest g1 cwd1) as [[g2 cwd2] out2]. cbn [fst snd] in *.
  split; intros q.
  - intros Hq. now rewrite L1, K1.
  - now rewrite L2, K2.
Qed.

(** ** The settings *)

(** The five assignments, seen through a string key. *)
Lemma get_item_assign_settings values s key :
  get_item (assign_settings values s) (PStr key) =
  if (key =? "steam_path")%string
  then Some (PStr (Worker.steam_path values))
  else if (key =? "dark_theme")%string
  then Some (PBool (Worker.dark_theme values))
  else if (key =? "delete_after")%string
  then Some (PBool (Worker.delete_after values))
  else if (key =? "win_notify")%string
  then Some (PBool (Worker.win_notify values))
  else if (key =? "restart_steam")%string
  then Some (PBool (Worker.restart_steam values))
  else get_item s (PStr key).
Proof.
  unfold assign_settings. cbv zeta. rewrite !PyFacts.get_item_set_item.
  cbn [key_eqb].
  destruct (String.eqb_spec key "steam_path") as [->|]; [reflexivity|].
  destruct (String.eqb_spec key "dark_theme") as [->|]; [reflexivity|].
  destruct (String.eqb_spec key "delete_after") as [->|]; [reflexivity|].
  destruct (String.eqb_spec key "win_notify") as [->|]; [reflexivity|].
  now destruct (String.eqb_spec key "restart_steam").
Qed.

Lemma assign_settings_nodup values s :
  NoDup (map fst s) -> NoDup (map fst (assign_settings values s)).
Proof.
  intros H. unfold assign_settings. cbv zeta.
  now repeat apply PyFacts.set_item_nodup.
Qed.

(** X21: when the settings dialog is accepted, the window's settings
    have the dialog's text and four truth values under the five keys and
    what they had under every other string key; the style sheet follows
    the dialog's theme; and, when the working directory is a directory
    in which the state file's name is not a directory's and the decoder
    reads what the encoder writes for the window's state, [load_state]
    in the directory the handler leaves answers, under every string
    key, what the window's settings have, and the window's [added]. *)
Theorem accepted_settings_are_loaded_back values g cwd key :
  NoDup (map fst (settings_values g)) ->
  isdir cwd [] = true ->
  isdir cwd State.STATE_FILE = false ->
  loads (dumps (State.to_py
                  (state_of (fst (open_settings dumps (Some values) g cwd))))) =
    Some (State.to_py
            (state_of (fst (open_settings dumps (Some values) g cwd)))) ->
  get_item (settings_values (fst (open_settings dumps (Some values) g cwd)))
           (PStr key) =
    (if (key =? "steam_path")%string
     then Some (PStr (Worker.steam_path values))
     else if (key =? "dark_theme")%string
     then Some (PBool (Worker.dark_theme values))
     else if (key =? "delete_after")%string
     then Some (PBool (Worker.delete_after values))
     else if (key =? "win_notify")%string
     then Some (PBool (Worker.win_notify values))
     else if (key =? "restart_steam")%string
     then Some (PBool (Worker.restart_steam values))
     else get_item (settings_values g) (PStr key)) /\
  style_sheet (fst (open_settings dumps (Some values) g cwd)) =
    (if Worker.dark_theme values then DarkSheet else NoSheet) /\
  get_item (State.settings
              (State.load_state loads
                 (snd (open_settings dumps (Some values) g cwd))))
           (PStr key) =
    get_item (settings_values (fst (open_settings dumps (Some values) g cwd)))
             (PStr key) /\
  State.added (State.load_state loads
                 (snd (open_settings dumps (Some values) g cwd))) = added g.
Proof.
  intros Hnd Hroot Hfile Hrt. unfold open_settings, apply_theme in *.
  cbn [fst snd settings_values style_sheet] in *. unfold save_all_state.
  rewrite (StateFacts.load_saved loads dumps _ _ Hroot Hfile Hrt).
  cbn [State.settings State.added state_of settings_values added].
  rewrite PyFacts.get_item_update_dict by now apply assign_settings_nodup.
  rewrite !get_item_assign_settings.
  split; [reflexivity|]. split.
  - unfold theme, get. rewrite get_item_assign_settings. cbn.
    now destruct (Worker.dark_theme values).
  - split; [|reflexivity].
    destruct (String.eqb_spec key "steam_path") as [->|N1]; [reflexivity|].
    destruct (String.eqb_spec key "dark_theme") as [->|N2]; [reflexivity|].
    destruct (String.eqb_spec key "delete_after") as [->|N3]; [reflexivity|].
    destruct (String.eqb_spec key "win_notify") as [->|N4]; [reflexivity|].
    destruct (String.eqb_spec key "restart_steam") as [->|N5]; [reflexivity|].
    destruct (get_item (settings_values g) (PStr key)); [reflexivity|].
    cbn [get_item State.default_settings key_eqb].
    apply String.eqb_neq in N1, N2, N3, N4, N5.
    now rewrite N1, N2, N3, N4, N5.
Qed.

(** ** Steam *)

Lemma handle_restart_setting e g cwd :
  match e with
  | SettingsClicked (Some values) => Worker.restart_steam values = false
  | _ => True
  end ->
  truthy (get (settings_values g) "restart_steam" (PBool false)) = false ->
  truthy (get (settings_values (fst (fst (handle e g cwd)))) "restart_steam"
              (PBool false)) = false /\
  Forall (fun x => x <> TaskKill /\ forall sp, x <> StartFile sp)
         (snd (handle e g cwd)).
Proof.
  intros He Hg.
  assert (Hc : forall w, settings_values (fst (cleanup_worker w g)) =
                         settings_values g /\
               Forall (fun x => x <> TaskKill /\ forall sp, x <> StartFile sp)
                      (snd (cleanup_worker w g))).
  { intros w. unfold cleanup_worker. destruct (existsb _ _); cbn [fst snd].
    - split; [reflexivity|]. constructor; [|constructor].
      split; [|intros sp]; discriminate.
    - split; [reflexivity|constructor]. }
  destruct e as [text|[name|]|[name|]| |[values|]|w message disk returns|w message];
    cbn [Gui.handle add_now add_to_order start_processing fst snd
         settings_values filter_list].
  - split; [assumption|constructor].
  - split; [assumption|]. constructor; [|constructor].
    split; [|intros sp]; discriminate.
  - split; [assumption|]. constructor; [|constructor].
    split; [|intros sp]; discriminate.
  - split; [assumption|constructor].
  - split; [assumption|]. constructor; [|constructor].
    split; [|intros sp]; discriminate.
  - unfold start_order. destruct (order g);
      cbn [start_processing fst snd settings_values];
      (split; [assumption|]); (constructor; [|constructor]);
      (split; [|intros sp]; discriminate).
  - unfold open_settings, apply_theme. cbn [fst snd settings_values].
    split; [|constructor]. unfold get.
    rewrite get_item_assign_settings. cbn. exact He.
  - cbn [open_settings fst snd]. split; [assumption|constructor].
  - unfold on_worker_finished. rewrite Hg. cbn [app].
    destruct (Hc w) as [K1 K2]. destruct (cleanup_worker w g) as [g1 out2].
    cbn [fst snd] in *. rewrite K1. split; [assumption|].
    constructor; [split; [|intros sp]; discriminate|].
    rewrite app_nil_r.
    destruct (_ && _); cbn [app]; [constructor|]; try assumption.
    split; [|intros sp]; discriminate.
  - destruct (Hc w) as [K1 K2]. destruct (cleanup_worker w g) as [g1 out2].
    cbn [fst snd on_worker_error app] in *. rewrite K1. split; [assumption|].
    constructor; [|assumption]. split; [|intros sp]; discriminate.
Qed.

(** X22: as long as ['restart_steam'] is not set in the window's
    settings and no dialog is accepted with it checked, no handler
    kills or starts Steam, whatever batches finish. *)
Theorem steam_left_alone_unless_asked events g cwd :
  truthy (get (settings_values g) "restart_steam" (PBool false)) = false ->
  Forall (fun e => match e with
                   | SettingsClicked (Some values) =>
                       Worker.restart_steam values = false
                   | _ => True
                   end) events ->
  Forall (fun x => x <> TaskKill /\ forall sp, x <> StartFile sp)
         (snd (handle_all events g cwd)).
Proof.
  intros Hg He. revert g cwd Hg.
  induction He as [|e rest He _ IH]; intros g cwd Hg; cbn [Gui.handle_all].
  - constructor.
  - destruct (handle_restart_setting e g cwd He Hg) as [K1 K2].
    destruct (handle e g cwd) as [[g1 cwd1] out1]. cbn [fst snd] in *.
    specialize (IH g1 cwd1 K1).
    destruct (handle_all rest g1 cwd1) as [[g2 cwd2] out2]. cbn [fst snd] in *.
    apply Forall_app. now split.
Qed.

End Handlers.

End GuiFacts.

(* ================================================================== *)
(** * The further theorems at work on the small examples *)
(* ================================================================== *)

Lemma run_confined_to_destinations_witness :
  FS.file_at
    (Worker.disk
       (snd (Worker.run Demo.http_get Demo.unzip (Demo.settings0 false)
               ["a.zip"; "b.zip"] Demo.world0)))
    ["C:/Steam"; "steam.exe"] = Some "exe".
Proof.
  destruct (RunFacts.run_confined_to_destinations Demo.http_get
              Demo.unzip (Demo.settings0 false) ["a.zip"; "b.zip"]
              Demo.world0 ["C:/Steam"; "steam.exe"]) as [H _].
  - repeat constructor.
  - rewrite H; [reflexivity|].
    intros [|] f _ [r E]; discriminate E.
Defined.

Lemma archives_removed_after_run_witness :
  FS.file_at
    (Worker.cache
       (snd (Worker.run Demo.http_get Demo.unzip (Demo.settings0 false)
               ["a.zip"; "b.zip"] Demo.world0)))
    (Worker.dest_path "b.zip") = None.
Proof.
  apply (RunFacts.archives_removed_after_run Demo.http_get Demo.unzip
           (Demo.settings0 false) ["a.zip"; "b.zip"] Demo.world0).
  - repeat constructor.
  - vm_compute. reflexivity.
  - right. left. reflexivity.
Defined.

Lemma not_an_archive_stops_run_witness :
  exists c,
    Worker.run Sample.http_get Demo.unzip (Demo.settings0 false)
      (["a.zip"] ++ "c.zip" :: ["b.zip"]) Demo.world0 =
    (Worker.ProcessingError FS.BadZipFile,
     Worker.Build_world c
       (Worker.disk
          (snd (Worker.run Sample.http_get Demo.unzip (Demo.settings0 false)
                  ["a.zip"] Demo.world0)))
       [Worker.url_of "a.zip"; Worker.url_of "c.zip"]) /\
    FS.file_at c (Worker.dest_path "c.zip") = Some "C".
Proof.
  destruct (RunFacts.not_an_archive_stops_run Sample.http_get Demo.unzip
              (Demo.settings0 false) ["a.zip"] "c.zip" ["b.zip"] Demo.world0
              (snd (Worker.run Sample.http_get Demo.unzip (Demo.settings0 false)
                      ["a.zip"] Demo.world0))
              (Worker.Build_response 200 "C"))
    as (c & A & B & _).
  - vm_compute. reflexivity.
  - vm_compute. reflexivity.
  - reflexivity.
  - vm_compute. reflexivity.
  - vm_compute. reflexivity.
  - vm_compute. reflexivity.
  - vm_compute. reflexivity.
  - vm_compute. discriminate.
  - exists c. split; [exact A|exact B].
Defined.

Lemma overlay_leaves_other_entries_witness :
  FS.lookup (snd (Overlay.insert_online_fix Demo.overlay_files Demo.game))
            ["Game.exe"] = Some (FS.File "g").
Proof.
  rewrite (OverlayFrame.overlay_leaves_other_entries
             Demo.overlay_files Demo.game "Game.exe" []).
  - reflexivity.
  - vm_compute. discriminate.
  - left. vm_compute. reflexivity.
Defined.

Lemma overlay_merges_into_data_folder_witness :
  FS.file_at (snd (Overlay.insert_online_fix Demo.overlay_files Demo.game))
             ["Game_Data"; "Plugins"; "old.dll"] = Some "o".
Proof.
  destruct (OverlayFrame.overlay_merges_into_data_folder
              Demo.overlay_files Demo.game "Game_Data" ["Plugins"; "old.dll"])
    as [_ H].
  - vm_compute. reflexivity.
  - left. vm_compute. reflexivity.
  - rewrite H; [reflexivity|].
    intros rel ds fs f Hin Hf [r E]. vm_compute in Hin.
    repeat (destruct Hin as [Hin|Hin];
            [inversion Hin; subst; clear Hin;
             repeat (destruct Hf as [<-|Hf]; [discriminate E|]); destruct Hf|]).
    destruct Hin.
Defined.

Lemma filter_list_narrows_witness :
  Gui.filtered_files (Gui.filter_list "a.z" Sample.busy) =
    Gui.matching "a.z" (Gui.filtered_files (Gui.filter_list "A" Sample.busy)) /\
  incl (Gui.filtered_files (Gui.filter_list "a.z" Sample.busy))
       (Gui.filtered_files (Gui.filter_list "A" Sample.busy)).
Proof.
  apply (SearchFacts.filter_list_narrows "A" "a.z" Sample.busy).
  vm_compute. reflexivity.
Defined.

Lemma load_state_falls_back_witness :
  State.load_state Sample.loads (Sample.cwd_with "list") = State.default.
Proof.
  apply (StateFacts.load_state_falls_back Sample.loads (Sample.cwd_with "list")).
  right. right. exists "list". split; [reflexivity|].
  intros data. vm_compute. discriminate.
Defined.

Lemma load_state_merges_saved_settings_witness :
  Py.get_item (State.settings
                 (State.load_state Sample.loads (Sample.cwd_with "partial")))
              (Py.PStr "dark_theme") = Some (Py.PBool false) /\
  State.added (State.load_state Sample.loads (Sample.cwd_with "partial")) =
    Py.PList [Py.PStr "a.zip"].
Proof.
  apply (StateFacts.load_state_merges_saved_settings Sample.loads
           (Sample.cwd_with "partial") "partial"
           [(Py.PStr "settings", Py.PDict [(Py.PStr "dark_theme", Py.PBool false)]);
            (Py.PStr "added", Py.PList [Py.PStr "a.zip"])]
           [(Py.PStr "dark_theme", Py.PBool false)] "dark_theme").
  - reflexivity.
  - reflexivity.
  - reflexivity.
  - constructor; [intros []|constructor].
Defined.

Lemma load_state_keeps_pairs_before_bad_one_witness :
  State.load_state Sample.loads (Sample.cwd_with "pairs") =
  {| State.settings :=
       [(Py.PStr "steam_path", Py.PStr "D:/Steam");
        (Py.PStr "dark_theme", Py.PBool true);
        (Py.PStr "delete_after", Py.PBool false);
        (Py.PStr "win_notify", Py.PBool false);
        (Py.PStr "restart_steam", Py.PBool false)];
     State.added := Py.PList [] |}.
Proof.
  apply (StateFacts.load_state_keeps_pairs_before_bad_one Sample.loads
           (Sample.cwd_with "pairs") "pairs"
           [(Py.PStr "settings",
             Py.PList [Py.PList [Py.PStr "steam_path"; Py.PStr "D:/Steam"];
                       Py.PInt 3;
                       Py.PList [Py.PStr "dark_theme"; Py.PBool false]]);
            (Py.PStr "added", Py.PList [Py.PStr "a.zip"])]
           [(Py.PStr "steam_path", Py.PStr "D:/Steam")]
           (Py.PInt 3)
           [Py.PList [Py.PStr "dark_theme"; Py.PBool false]]
           Py.TypeError).
  - reflexivity.
  - reflexivity.
  - reflexivity.
  - constructor; [reflexivity|constructor].
  - reflexivity.
Defined.

Lemma saved_state_loads_back_witness :
  State.load_state Sample.loads
    (State.save_state Sample.dumps Sample.state0 Sample.cwd0) = Sample.state0.
Proof.
  apply (StateFacts.saved_state_loads_back Sample.loads Sample.dumps
           Sample.state0 (Py.PStr "C:/Steam") (Py.PBool false) (Py.PBool true)
           (Py.PBool false) (Py.PBool false) [] Sample.cwd0).
  - reflexivity.
  - constructor.
  - vm_compute. repeat constructor; cbn; intuition discriminate.
  - reflexivity.
  - reflexivity.
  - reflexivity.
Defined.

Lemma fetch_files_lists_catalogue_witness :
  Gui.files (fst (Gui.fetch_files Sample.requests_get Sample.json_of
                    Sample.blank)) = ["A.zip"; "b.zip"].
Proof.
  apply (FetchFacts.fetch_files_lists_catalogue Sample.requests_get
           Sample.json_of Sample.blank (Worker.Build_response 200 "catalogue")
           Sample.entries Sample.names).
  - reflexivity.
  - left. cbn. lia.
  - reflexivity.
  - repeat constructor.
  - repeat constructor.
Defined.

Lemma fetch_files_failure_changes_nothing_witness :
  exists e,
    Gui.fetch_files Sample.requests_down Sample.json_of Sample.busy =
    (Sample.busy, [Gui.FetchFailed e]).
Proof.
  apply (FetchFacts.fetch_files_failure_changes_nothing Sample.requests_down
           Sample.json_of Sample.busy).
  right. exists (Worker.Build_response 503 ""). split; [reflexivity|].
  left. cbn. lia.
Defined.

Lemma queued_names_start_as_one_batch_witness :
  snd (Gui.handle_all Sample.dumps false
         (map (fun name => Gui.AddToOrderClicked (Some name)) ["A.zip"; "b.zip"]
          ++ [Gui.StartOrderClicked]) Sample.busy Sample.cwd0) =
  [Gui.Start {| Gui.wid := 2; Gui.items := ["b.zip"; "A.zip"; "b.zip"];
                Gui.mark_added := true |}].
Proof.
  rewrite (GuiFacts.queued_names_start_as_one_batch Sample.dumps false
             ["A.zip"; "b.zip"] Sample.busy Sample.cwd0).
  - reflexivity.
  - discriminate.
Defined.

Lemma window_stays_tidy_witness :
  Gui.tidy
    (fst (fst (Gui.handle_all Sample.dumps true Sample.course
                 (fst (Gui.init Sample.requests_get Sample.json_of Sample.loads
                         (Sample.cwd_with "partial")))
                 (Sample.cwd_with "partial")))).
Proof.
  apply (GuiFacts.window_stays_tidy Sample.requests_get Sample.json_of
           Sample.loads Sample.dumps true (Sample.cwd_with "partial")
           Sample.course).
  vm_compute. intuition.
Defined.

Lemma ended_worker_leaves_the_list_witness :
  Gui.workers (fst (Gui.cleanup_worker Sample.worker0 Sample.busy)) =
  [Sample.worker1].
Proof.
  apply (GuiFacts.ended_worker_leaves_the_list Sample.worker0 Sample.busy).
  vm_compute. repeat constructor; cbn; intuition discriminate.
Defined.

Lemma accepted_settings_are_loaded_back_witness :
  Py.get_item
    (State.settings
       (State.load_state Sample.loads
          (snd (Gui.open_settings Sample.dumps (Some Sample.dialog)
                  Sample.blank Sample.cwd0))))
    (Py.PStr "delete_after") = Some (Py.PBool true).
Proof.
  destruct (GuiFacts.accepted_settings_are_loaded_back Sample.loads
              Sample.dumps Sample.dialog Sample.blank Sample.cwd0
              "delete_after") as (A & _ & B & _).
  - vm_compute. repeat constructor; cbn; intuition discriminate.
  - reflexivity.
  - reflexivity.
  - reflexivity.
  - rewrite B. exact A.
Defined.

Lemma steam_left_alone_unless_asked_witness :
  Forall (fun x => x <> Gui.TaskKill /\ forall sp, x <> Gui.StartFile sp)
         (snd (Gui.handle_all Sample.dumps true Sample.course Sample.busy
                 Sample.cwd0)).
Proof.
  apply (GuiFacts.steam_left_alone_unless_asked Sample.dumps true
           Sample.course Sample.busy Sample.cwd0).
  - reflexivity.
  - repeat constructor.
Defined.
